(** * The BLE console transport of s1-micropython (src/main.c)

    A shallow embedding of the two REPL ring buffers, the outbound sender
    [ble_send_pending_data], the console functions [mp_hal_stdout_tx_strn]
    and [mp_hal_stdin_rx_chr], and the BLE event handler [SWI2_IRQHandler],
    followed by the properties of the transport layer.

    C integers are modelled as [Z] with the 16-bit wrap-around written out,
    the ring storage as a list of bytes updated by index, the file-scope
    variables as one record threaded through every function, and the calls
    into the SoftDevice as entries of a log answered by a script.

    Behind the transport come the device name and the advertising data of
    [ble_init], [machine_mac_address], and, each in a module of its own,
    the flash over [spim_tx_rx], the state of the FPGA, the clock, the
    allocator of lib.c and the loops of [Reset_Handler]. *)

From Stdlib Require Import ZArith List Lia Bool.
From Stdlib Require Import Init.Byte Strings.Byte.
From stdpp Require Import base numbers list option.

Local Open Scope Z_scope.

(** ** Constants *)

(** [#define MAX_MTU_LENGTH 128] *)
Definition MAX_MTU_LENGTH : Z := 128.

(** [#define RING_BUFFER_LENGTH (1024 + 45)] *)
Definition RING_BUFFER_LENGTH : Z := 1024 + 45.

(** Values of the nRF5 SDK headers (nrf_error.h, ble_err.h, ble_types.h,
    ble_gap.h, ble_hci.h), which the repository includes but does not
    contain. *)
Definition NRF_SUCCESS : Z := 0.
Definition NRF_ERROR_INVALID_STATE : Z := 8.
Definition NRF_ERROR_RESOURCES : Z := 19.
Definition BLE_ERROR_INVALID_CONN_HANDLE : Z := 0x3002.
Definition BLE_CONN_HANDLE_INVALID : Z := 0xFFFF.
Definition BLE_GAP_ADV_SET_HANDLE_NOT_SET : Z := 0xFF.
Definition BLE_HCI_REMOTE_USER_TERMINATED_CONNECTION : Z := 0x13.
Definition BLE_GAP_SEC_STATUS_PAIRING_NOT_SUPP : Z := 0x85.

(** Conversion to [uint16_t]. *)
Definition uint16_t (z : Z) : Z := z mod 65536.

(** ** Data *)

(** One REPL ring buffer: [struct { uint8_t buffer[RING_BUFFER_LENGTH];
    uint16_t head; uint16_t tail; }]. *)
Record ring : Type := Ring {
  buffer : list byte;
  head : Z;
  tail : Z
}.

(** The file-scope variables of main.c that the transport uses:
    [ble_handles.connection], [ble_handles.advertising],
    [ble_handles.tx_characteristic.value_handle], [negotiated_mtu] and the
    two rings [rx] and [tx]. *)
Record state : Type := State {
  connection : Z;
  advertising : Z;
  tx_value_handle : Z;
  negotiated_mtu : Z;
  rx : ring;
  tx : ring
}.

(** The events [sd_ble_evt_get] hands to the handler, with the fields the
    handler reads. [BLE_EVT_OTHER] stands for every event id without a case
    of its own. *)
Inductive ble_evt : Type :=
| BLE_GAP_EVT_CONNECTED (conn_handle : Z)
| BLE_GAP_EVT_DISCONNECTED (conn_handle : Z)
| BLE_GAP_EVT_PHY_UPDATE_REQUEST (conn_handle : Z)
| BLE_GATTS_EVT_EXCHANGE_MTU_REQUEST (conn_handle : Z) (client_rx_mtu : Z)
| BLE_GATTS_EVT_WRITE (conn_handle : Z) (data : list byte)
| BLE_GATTC_EVT_TIMEOUT (conn_handle : Z)
| BLE_GATTS_EVT_TIMEOUT (conn_handle : Z)
| BLE_GATTS_EVT_SYS_ATTR_MISSING (conn_handle : Z)
| BLE_GAP_EVT_SEC_PARAMS_REQUEST (conn_handle : Z)
| BLE_EVT_OTHER (evt_id : Z).

(** An event as it is queued for the handler: the event and the codes the
    SoftDevice returns to the calls the handler makes for it, in call order
    (a missing code is [NRF_SUCCESS]). *)
Record queued : Type := Queued {
  evt : ble_evt;
  sd_ret : list Z
}.

(** The answer to one [sd_ble_gatts_hvx] call: its return code, and the
    events the handler serves before the foreground runs on. *)
Record reply : Type := Reply {
  err : Z;
  served : list queued
}.

(** The calls that leave the transport. *)
Inductive call : Type :=
| sd_ble_gatts_hvx (conn_handle : Z) (handle : Z) (p_data : list byte)
| NRFX_DELAY_US (us : Z)
| sd_app_evt_wait
| sd_ble_gap_ppcp_get
| sd_ble_gap_conn_param_update (conn_handle : Z)
| sd_ble_gap_adv_start (adv_handle : Z) (conn_cfg_tag : Z)
| sd_ble_gap_phy_update (conn_handle : Z)
| sd_ble_gatts_exchange_mtu_reply (conn_handle : Z) (server_rx_mtu : Z)
| sd_ble_gap_disconnect (conn_handle : Z) (hci_status_code : Z)
| sd_ble_gatts_sys_attr_set (conn_handle : Z)
| sd_ble_gap_sec_params_reply (conn_handle : Z) (sec_status : Z)
| NVIC_SystemReset.

(** The machine and its surroundings: the variables, what the SoftDevice
    will answer to the coming [sd_ble_gatts_hvx] calls ([hvx]), which events
    the handler serves during the coming delays and waits, and between the
    test of the rings and the wait in [mp_hal_stdin_rx_chr] ([idle]), and
    the calls made so far, each with the variables at the time of the call.
    An exhausted script answers [NRF_SUCCESS] and delivers nothing. *)
Record world : Type := World {
  st : state;
  hvx : list reply;
  idle : list (list queued);
  log : list (call * state)
}.

(** How a function ends: it returns, the chip resets ([assert_if]), the C
    program writes past [out_buffer] (undefined behaviour), or the model ran
    out of loop fuel. *)
Inductive outcome (A : Type) : Type :=
| Returned (a : A) (w : world)
| SystemReset (w : world)
| Undefined (w : world)
| OutOfFuel.
Arguments Returned {A} a w.
Arguments SystemReset {A} w.
Arguments Undefined {A} w.
Arguments OutOfFuel {A}.

Definition M (A : Type) : Type := world -> outcome A.

Definition ret {A : Type} (a : A) : M A := fun w => Returned a w.

Definition bind {A B : Type} (m : M A) (k : A -> M B) : M B :=
  fun w =>
    match m w with
    | Returned a w' => k a w'
    | SystemReset w' => SystemReset w'
    | Undefined w' => Undefined w'
    | OutOfFuel => OutOfFuel
    end.

Notation "'let!' x ':=' m 'in' k" := (bind m (fun x => k))
  (at level 10, x name, m at level 100, k at level 200).
Notation "m ';;' k" := (bind m (fun _ => k))
  (at level 100, k at level 200, right associativity).

(** [n] runs of [m], results in order. *)
Fixpoint replicateM {A : Type} (n : nat) (m : M A) : M (list A) :=
  match n with
  | O => ret []
  | S n' => let! a := m in let! l := replicateM n' m in ret (a :: l)
  end.

Definition set_st (f : state -> state) : M unit :=
  fun w => Returned tt (World (f (st w)) (hvx w) (idle w) (log w)).

Definition set_connection (c : Z) (s : state) : state :=
  State c (advertising s) (tx_value_handle s) (negotiated_mtu s) (rx s) (tx s).
Definition set_negotiated_mtu (m : Z) (s : state) : state :=
  State (connection s) (advertising s) (tx_value_handle s) m (rx s) (tx s).
Definition set_rx (r : ring) (s : state) : state :=
  State (connection s) (advertising s) (tx_value_handle s) (negotiated_mtu s) r (tx s).
Definition set_tx (r : ring) (s : state) : state :=
  State (connection s) (advertising s) (tx_value_handle s) (negotiated_mtu s) (rx s) r.

(** A call is appended to the log with the variables as they are. *)
Definition emit (c : call) : M unit :=
  fun w => Returned tt (World (st w) (hvx w) (idle w) (log w ++ [(c, st w)])).

(** [assert_if]: only the bottom 16 bits count; a non-zero code resets the
    chip and never returns. (The breakpoint taken first when a debugger is
    attached is left out.) *)
Definition assert_if (e : Z) : M unit :=
  fun w =>
    if Z.land e 0x0000FFFF =? 0 then Returned tt w
    else SystemReset
           (World (st w) (hvx w) (idle w) (log w ++ [(NVIC_SystemReset, st w)])).

(** A SoftDevice call made by the event handler: it is logged, and answers
    the [i]-th code queued with the event. *)
Definition sd_call (c : call) (rets : list Z) (i : nat) : M Z :=
  emit c ;; ret (nth i rets NRF_SUCCESS).

Section Transport.

(** The length of the ring storage; [RING_BUFFER_LENGTH] in the build. *)
Variable N : Z.

(** [uint16_t next = i + 1; if (next == RING_BUFFER_LENGTH) next = 0;] *)
Definition ring_next (i : Z) : Z :=
  let next := uint16_t (i + 1) in
  if next =? N then 0 else next.

(** The body of the two write loops (mp_hal_stdout_tx_strn on [tx], the
    BLE_GATTS_EVT_WRITE case on [rx]): [None] is the [break] on a full
    ring. The list update and the list lookup below do nothing, and read
    0, outside the storage, where C is undefined; the indices never leave
    the storage (see [ring_wf] and the invariant proved for it). *)
Definition ring_push (r : ring) (c : byte) : option ring :=
  let next := ring_next (head r) in
  if next =? tail r then None
  else Some (Ring (<[Z.to_nat (head r) := c]> (buffer r)) next (tail r)).

(** The write loop: one push per character, stopping at the first
    character that does not fit. (The C counter is a [uint16_t]; it cannot
    wrap before the ring is full.) *)
Fixpoint ring_write (r : ring) (str : list byte) : ring :=
  match str with
  | [] => r
  | c :: str' =>
      match ring_push r c with
      | None => r
      | Some r' => ring_write r' str'
      end
  end.

(** The read at the tail (mp_hal_stdin_rx_chr on [rx],
    ble_send_pending_data on [tx]): the character at [tail], and the ring
    with [tail] advanced. *)
Definition ring_pop (r : ring) : byte * ring :=
  let next := ring_next (tail r) in
  (default "000"%byte (buffer r !! Z.to_nat (tail r)),
   Ring (buffer r) (head r) next).

(** [n] reads at the tail in a row. *)
Fixpoint ring_pops (n : nat) (r : ring) : list byte * ring :=
  match n with
  | O => ([], r)
  | S n' =>
      let (c, r1) := ring_pop r in
      let (l, r2) := ring_pops n' r1 in
      (c :: l, r2)
  end.

(** The cases of the [switch] in [SWI2_IRQHandler], for one event. *)
Definition on_ble_evt (e : ble_evt) (rets : list Z) : M unit :=
  match e with
  | BLE_GAP_EVT_CONNECTED conn_handle =>
      set_st (set_connection conn_handle) ;;
      let! e1 := sd_call sd_ble_gap_ppcp_get rets 0 in
      assert_if e1 ;;
      let! e2 := sd_call (sd_ble_gap_conn_param_update conn_handle) rets 1 in
      assert_if e2
  | BLE_GAP_EVT_DISCONNECTED _ =>
      set_st (set_connection BLE_CONN_HANDLE_INVALID) ;;
      let! e1 := (fun w => sd_call (sd_ble_gap_adv_start (advertising (st w)) 1)
                                   rets 0 w) in
      assert_if e1
  | BLE_GAP_EVT_PHY_UPDATE_REQUEST conn_handle =>
      let! e1 := sd_call (sd_ble_gap_phy_update conn_handle) rets 0 in
      assert_if e1
  | BLE_GATTS_EVT_EXCHANGE_MTU_REQUEST conn_handle client_rx_mtu =>
      let client_mtu := uint16_t client_rx_mtu in
      let! e1 := sd_call (sd_ble_gatts_exchange_mtu_reply conn_handle
                                                          MAX_MTU_LENGTH)
                         rets 0 in
      assert_if e1 ;;
      set_st (set_negotiated_mtu
                (uint16_t (if MAX_MTU_LENGTH <? client_mtu
                           then MAX_MTU_LENGTH - 3
                           else client_mtu - 3)))
  | BLE_GATTS_EVT_WRITE _ data =>
      set_st (fun s => set_rx (ring_write (rx s) data) s)
  | BLE_GATTC_EVT_TIMEOUT conn_handle =>
      let! e1 := sd_call (sd_ble_gap_disconnect
                            conn_handle
                            BLE_HCI_REMOTE_USER_TERMINATED_CONNECTION)
                         rets 0 in
      assert_if e1
  | BLE_GATTS_EVT_TIMEOUT conn_handle =>
      let! e1 := sd_call (sd_ble_gap_disconnect
                            conn_handle
                            BLE_HCI_REMOTE_USER_TERMINATED_CONNECTION)
                         rets 0 in
      assert_if e1
  | BLE_GATTS_EVT_SYS_ATTR_MISSING conn_handle =>
      let! e1 := sd_call (sd_ble_gatts_sys_attr_set conn_handle) rets 0 in
      assert_if e1
  | BLE_GAP_EVT_SEC_PARAMS_REQUEST conn_handle =>
      let! e1 := sd_call (sd_ble_gap_sec_params_reply
                            conn_handle BLE_GAP_SEC_STATUS_PAIRING_NOT_SUPP)
                         rets 0 in
      assert_if e1
  | BLE_EVT_OTHER _ => ret tt
  end.

(** [SWI2_IRQHandler]: the pending events are pulled one by one until
    [sd_ble_evt_get] answers [NRF_ERROR_NOT_FOUND]. (The first loop, over
    the SoC events, does nothing; [sd_ble_evt_get] is taken to succeed for
    every queued event.) *)
Fixpoint SWI2_IRQHandler (pending : list queued) : M unit :=
  match pending with
  | [] => ret tt
  | q :: pending' => on_ble_evt (evt q) (sd_ret q) ;; SWI2_IRQHandler pending'
  end.

(** Time passes in [NRFX_DELAY_US] and [sd_app_evt_wait], and the
    handler can run between two statements of the foreground: it serves
    the next batch of the [idle] script. *)
Definition serve_idle : M unit :=
  fun w =>
    SWI2_IRQHandler (hd [] (idle w))
                    (World (st w) (hvx w) (tl (idle w)) (log w)).

(** [mp_hal_stdout_tx_strn]: every character of [str] is written to the
    [tx] ring until one does not fit. *)
Definition mp_hal_stdout_tx_strn (str : list byte) : M unit :=
  set_st (fun s => set_tx (ring_write (tx s) str) s).

(** The [while (tx.tail != tx.head)] loop of [ble_send_pending_data]:
    [out] is [out_buffer[0 .. out_len)]. Writing [out_buffer[out_len]] with
    [out_len >= MAX_MTU_LENGTH] is outside the array. *)
Fixpoint tx_drain (fuel : nat) (out : list byte) : M (list byte) :=
  fun w =>
    let t := tx (st w) in
    if negb (tail t =? head t) then
      match fuel with
      | O => OutOfFuel
      | S fuel' =>
          if MAX_MTU_LENGTH <=? Z.of_nat (length out) then Undefined w
          else
            let (c, t') := ring_pop t in
            let out' := out ++ [c] in
            (set_st (set_tx t') ;;
             fun w' =>
               if negotiated_mtu (st w') <=? uint16_t (Z.of_nat (length out'))
               then ret out' w'
               else tx_drain fuel' out' w') w
      end
    else ret out w.

(** One pass through the label [hvx_try_again]: the call, the events served
    after it, and the three ways on. [again] is the [goto]. [handle] and
    [out] are [hvx_params.handle] and the chunk in [out_buffer], set before
    the label; the SoftDevice is taken to leave [out_buffer] and [out_len]
    as they are. *)
Definition hvx_attempt (r : reply) (handle : Z) (out : list byte)
    (again : M unit) : M unit :=
  (fun w => emit (sd_ble_gatts_hvx (connection (st w)) handle out) w) ;;
  SWI2_IRQHandler (served r) ;;
  if (err r =? NRF_ERROR_INVALID_STATE) || (err r =? BLE_ERROR_INVALID_CONN_HANDLE)
  then ret tt
  else if err r =? NRF_ERROR_RESOURCES
  then emit (NRFX_DELAY_US 100) ;; serve_idle ;; again
  else assert_if (err r).

(** The retry loop of [ble_send_pending_data], by recursion on the script
    of answers; each attempt takes the next answer off the world's
    script. *)
Fixpoint hvx_try_again (replies : list reply) (handle : Z) (out : list byte)
    : M unit :=
  match replies with
  | [] => hvx_attempt (Reply NRF_SUCCESS []) handle out (ret tt)
  | r :: replies' =>
      (fun w => Returned tt (World (st w) replies' (idle w) (log w))) ;;
      hvx_attempt r handle out (hvx_try_again replies' handle out)
  end.

(** [ble_send_pending_data]. *)
Definition ble_send_pending_data : M unit :=
  fun w =>
    if head (tx (st w)) =? tail (tx (st w)) then ret tt w
    else (let! out := tx_drain (Z.to_nat N) [] in
          fun w' => hvx_try_again (hvx w') (tx_value_handle (st w')) out w') w.

(** [mp_hal_stdin_rx_chr]; [fuel] bounds the turns of the waiting loop.
    Nothing keeps the handler from running between the test of the two
    rings and the call of [sd_app_evt_wait]: a batch of the [idle] script
    is served there, and the next one during the wait. *)
Fixpoint mp_hal_stdin_rx_chr (fuel : nat) : M Z :=
  fun w =>
    if head (rx (st w)) =? tail (rx (st w)) then
      match fuel with
      | O => OutOfFuel
      | S fuel' =>
          (ble_send_pending_data ;;
           (fun w' =>
              if (head (tx (st w')) =? tail (tx (st w')))
                 && (head (rx (st w')) =? tail (rx (st w')))
              then (serve_idle ;; emit sd_app_evt_wait ;; serve_idle) w'
              else ret tt w') ;;
           mp_hal_stdin_rx_chr fuel') w
      end
    else
      let (character, r') := ring_pop (rx (st w)) in
      (set_st (set_rx r') ;;
       ret (Z.of_N (Byte.to_N character))) w.

End Transport.

(** The variables at reset: C zero-initialises [negotiated_mtu] and the
    rings; [ble_handles] has its initialiser. *)
Definition ring_init (N : Z) : ring := Ring (repeat "000"%byte (Z.to_nat N)) 0 0.

Definition state_init (N : Z) : state :=
  State BLE_CONN_HANDLE_INVALID BLE_GAP_ADV_SET_HANDLE_NOT_SET 0 0
        (ring_init N) (ring_init N).

(** ** What a ring holds *)

(** The ring is as the C types make it: the storage has [N] cells and the
    two indices point into it. *)
Definition ring_wf (N : Z) (r : ring) : Prop :=
  length (buffer r) = Z.to_nat N /\ 0 <= head r < N /\ 0 <= tail r < N.

(** The number of live bytes, from [tail] up to [head]. *)
Definition ring_count (N : Z) (r : ring) : Z := (head r - tail r) mod N.

(** [n] cells of the storage read from index [i] on, wrapping at [N]. *)
Fixpoint ring_slice (N : Z) (buf : list byte) (i : Z) (n : nat) : list byte :=
  match n with
  | O => []
  | S n' => default "000"%byte (buf !! Z.to_nat i)
            :: ring_slice N buf (ring_next N i) n'
  end.

(** The live bytes, oldest first. *)
Definition ring_contents (N : Z) (r : ring) : list byte :=
  ring_slice N (buffer r) (tail r) (Z.to_nat (ring_count N r)).

Definition ring_empty (r : ring) : Prop := head r = tail r.

(** The ring is full when advancing [head] would make it equal [tail]. *)
Definition ring_full (N : Z) (r : ring) : Prop := ring_next N (head r) = tail r.

(** The calls the foreground makes itself; all others are the handler's. *)
Definition foreground (c : call) : bool :=
  match c with
  | sd_ble_gatts_hvx _ _ _ | NRFX_DELAY_US _ | sd_app_evt_wait => true
  | _ => false
  end.

(** The foreground calls of a stretch of the log, in order. *)
Definition foreground_calls (l : list (call * state)) : list call :=
  filter (fun c => foreground c = true) (map fst l).

(** An event whose handling cannot reset the chip: every code the
    SoftDevice returns while it is handled passes [assert_if]. *)
Definition benign (q : queued) : Prop :=
  Forall (fun e => Z.land e 0x0000FFFF = 0) (sd_ret q).

(** The foreground calls of [n] transmit attempts of the same chunk, one
    per connection handle in [conns], with the 100 us delay between two
    attempts. *)
Fixpoint attempts (conns : list Z) (vh : Z) (chunk : list byte) : list call :=
  match conns with
  | [] => []
  | c :: conns' =>
      sd_ble_gatts_hvx c vh chunk
      :: match conns' with
         | [] => []
         | _ :: _ => NRFX_DELAY_US 100 :: attempts conns' vh chunk
         end
  end.

(** Both rings of the machine are as the C types make them. *)
Definition rings_wf (N : Z) (s : state) : Prop :=
  ring_wf N (rx s) /\ ring_wf N (tx s).


(** One push or one read at the tail, as the loops do them. *)
Inductive ring_op : Type :=
| op_push (c : byte)
| op_pop.

Definition ring_apply (N : Z) (r : ring) (o : ring_op) : ring :=
  match o with
  | op_push c => from_option id r (ring_push N r c)
  | op_pop => snd (ring_pop N r)
  end.

(** The entry points of the transport, callable in any order. *)
Inductive entry : Type :=
| via_tx_strn (str : list byte)
| via_send_pending
| via_rx_chr (fuel : nat)
| via_irq (pending : list queued).

Definition enter (N : Z) (e : entry) : M unit :=
  match e with
  | via_tx_strn str => mp_hal_stdout_tx_strn N str
  | via_send_pending => ble_send_pending_data N
  | via_rx_chr fuel => mp_hal_stdin_rx_chr N fuel ;; ret tt
  | via_irq pending => SWI2_IRQHandler N pending
  end.

Fixpoint enter_all (N : Z) (es : list entry) : M unit :=
  match es with
  | [] => ret tt
  | e :: es' => enter N e ;; enter_all N es'
  end.

(** What the inbound path keeps of a payload when [held] bytes are already
    stored and the ring takes [cap] at most: the bytes that still fit. *)
Definition accept (cap : Z) (held : list byte) (payload : list byte) : list byte :=
  held ++ firstn (Z.to_nat (cap - Z.of_nat (length held))) payload.



(** A step of the log: [w'] has the log of [w] and more, all of it
    satisfying [Q]. *)
Definition log_grows (Q : call * state -> Prop) (w w' : world) : Prop :=
  exists d, log w' = log w ++ d /\ Forall Q d.

(** What the handler leaves alone: the [tx] ring, the characteristic and
    advertising handles and both scripts; what it logs are calls of its
    own. *)
Definition handler_frame (w w' : world) : Prop :=
  tx (st w') = tx (st w) /\
  tx_value_handle (st w') = tx_value_handle (st w) /\
  advertising (st w') = advertising (st w) /\
  hvx w' = hvx w /\ idle w' = idle w /\
  log_grows (fun e => foreground (fst e) = false) w w'.

(** [m] relates the world it starts in to the world it ends in by [R],
    however it ends. *)
Definition rel_ok (R : world -> world -> Prop) {A : Type} (m : M A) : Prop :=
  forall w,
    match m w with
    | Returned _ w' | SystemReset w' | Undefined w' => R w w'
    | OutOfFuel => True
    end.


(** The indices of a ring of the build point into its storage, and it
    holds at most 1068 bytes. *)
Definition in_bounds (r : ring) : Prop :=
  0 <= head r < 1069 /\ 0 <= tail r < 1069 /\
  (Z.to_nat (head r) < length (buffer r))%nat /\
  (Z.to_nat (tail r) < length (buffer r))%nat /\
  ring_count RING_BUFFER_LENGTH r <= 1068.

(** A write event for each payload, all on connection [c]. *)
Definition write_evts (c : Z) (payloads : list (list byte)) : list queued :=
  map (fun p => Queued (BLE_GATTS_EVT_WRITE c p) []) payloads.

(** The return value of [mp_hal_stdin_rx_chr] for a byte. *)
Definition chr (b : byte) : Z := Z.of_N (Byte.to_N b).

(** The codes that end the retry loop with a return. *)
Definition ends_retry (e : Z) : Prop :=
  e = NRF_SUCCESS \/ e = NRF_ERROR_INVALID_STATE \/
  e = BLE_ERROR_INVALID_CONN_HANDLE.

(** The bytes handed to [sd_ble_gatts_hvx] by the calls [cs], in order. *)
Definition sent (cs : list call) : list byte :=
  flat_map (fun c => match c with
                     | sd_ble_gatts_hvx _ _ p_data => p_data
                     | _ => []
                     end) cs.

(** ** Further definitions for the transport *)

(** A push or a read at the tail as the callers do them: the read only
    with something in the ring ([mp_hal_stdin_rx_chr] waits for that,
    [ble_send_pending_data] returns or leaves its loop otherwise). *)
Definition ring_guarded (N : Z) (r : ring) (o : ring_op) : ring :=
  match o with
  | op_push c => from_option id r (ring_push N r c)
  | op_pop => if head r =? tail r then r else snd (ring_pop N r)
  end.

(** The same step on a queue of at most [cap] bytes: a push on a full
    queue and a read on an empty one change nothing. *)
Definition queue_step (cap : Z) (q : list byte) (o : ring_op) : list byte :=
  match o with
  | op_push c => if Z.of_nat (length q) <? cap then q ++ [c] else q
  | op_pop => tl q
  end.

(** An event that does not propose an MTU below 3. *)
Definition mtu_sane (q : queued) : Prop :=
  match evt q with
  | BLE_GATTS_EVT_EXCHANGE_MTU_REQUEST _ m => 3 <= uint16_t m
  | _ => True
  end.

(** A world in which no MTU below 3 has been or will be proposed: the
    limit is at most 125, [tx] is well formed, and the scripts hold no such
    proposal. *)
Definition mtu_safe (N : Z) (w : world) : Prop :=
  negotiated_mtu (st w) <= MAX_MTU_LENGTH - 3 /\
  ring_wf N (tx (st w)) /\
  Forall (fun r => Forall mtu_sane (served r)) (hvx w) /\
  Forall (Forall mtu_sane) (idle w).

(** An entry point called without such a proposal among its events. *)
Definition entry_sane (e : entry) : Prop :=
  match e with
  | via_irq pending => Forall mtu_sane pending
  | _ => True
  end.

(** [m] started in a world with [P] does not run into undefined
    behaviour, and returns (or resets) in a world with [P]. *)
Definition safe (P : world -> Prop) {A : Type} (m : M A) : Prop :=
  forall w, P w ->
    match m w with
    | Returned _ w' | SystemReset w' => P w'
    | Undefined _ => False
    | OutOfFuel => True
    end.

(** ** The device name and the advertising data of [ble_init], and
    [machine_mac_address] (src/modules/modmachine.c)

    Characters and the bytes of the advertising payload are their codes,
    as [Z]. *)

Definition uint8_t (z : Z) : Z := z mod 256.

(** Values of ble_gap.h. *)
Definition BLE_GAP_AD_TYPE_FLAGS : Z := 0x01.
Definition BLE_GAP_AD_TYPE_128BIT_SERVICE_UUID_COMPLETE : Z := 0x07.
Definition BLE_GAP_AD_TYPE_COMPLETE_LOCAL_NAME : Z := 0x09.
Definition BLE_GAP_ADV_FLAGS_LE_ONLY_GENERAL_DISC_MODE : Z := 0x06.

(** [glyph = quotent % 16; glyph < 10 ? (glyph += 48) : (glyph += 55);] *)
Definition hex_glyph (quotent : Z) : Z :=
  let glyph := quotent mod 16 in
  if glyph <? 10 then uint8_t (glyph + 48) else uint8_t (glyph + 55).

(** How the loop that writes the hexadecimal digits ends: with the string,
    with a write outside the array, or out of fuel. *)
Inductive hex_result : Type :=
| Hex_done (str : list Z)
| Hex_overrun
| Hex_fuel.

(** [while (quotent != 0) { ...; str[str_pos--] = glyph; quotent /= 16; }],
    the loop of [ble_init] and of [machine_mac_address]; [str_pos] is a
    [uint8_t]. *)
Fixpoint hex_fill (fuel : nat) (str : list Z) (str_pos quotent : Z) : hex_result :=
  if quotent =? 0 then Hex_done str
  else
    match fuel with
    | O => Hex_fuel
    | S fuel' =>
        if (str_pos <? 0) || (Z.of_nat (length str) <=? str_pos) then Hex_overrun
        else hex_fill fuel' (<[Z.to_nat str_pos := hex_glyph quotent]> str)
                      (uint8_t (str_pos - 1)) (quotent / 16)
    end.

(** [char device_name[] = "S1-XXXX";] with its terminator, and the loop
    on [(uint16_t)NRF_FICR->DEVICEADDR[0]] from position 6. *)
Definition device_name_init : list Z := [83; 49; 45; 88; 88; 88; 88; 0].

Definition device_name (DEVICEADDR0 : Z) : hex_result :=
  hex_fill 16 device_name_init 6 (uint16_t DEVICEADDR0).

(** [machine_mac_address]: [char mac_str[] = "XXXXXXXXXXXX";], the loop on
    the 48-bit address from position 11, and the 12 characters handed to
    [mp_obj_new_str]. [addr] is [mac.addr[0 .. 5]]. *)
Definition mac_str_init : list Z := repeat 88 12 ++ [0].

Definition mac_quotent (addr : list Z) : Z :=
  Z.lor (Z.shiftl (uint8_t (nth 5 addr 0)) 40)
    (Z.lor (Z.shiftl (uint8_t (nth 4 addr 0)) 32)
       (Z.lor (Z.shiftl (uint8_t (nth 3 addr 0)) 24)
          (Z.lor (Z.shiftl (uint8_t (nth 2 addr 0)) 16)
             (Z.lor (Z.shiftl (uint8_t (nth 1 addr 0)) 8)
                    (uint8_t (nth 0 addr 0)))))).

Definition machine_mac_address (addr : list Z) : option (list Z) :=
  match hex_fill 16 mac_str_init 11 (mac_quotent addr) with
  | Hex_done mac_str => Some (firstn 12 mac_str)
  | _ => None
  end.

(** [strlen]. *)
Fixpoint strlen (s : list Z) : Z :=
  match s with
  | [] => 0
  | c :: s' => if c =? 0 then 0 else 1 + strlen s'
  end.

(** [static struct { uint8_t length; uint8_t payload[31]; } adv]. *)
Record adv_t : Type := Adv {
  adv_length : Z;
  adv_payload : list Z
}.

Definition adv_init : adv_t := Adv 0 (repeat 0 31).

(** How the construction of the advertising data ends: with the data,
    with a chip reset ([assert_if]), or with a write outside
    [adv.payload]. *)
Inductive adv_result : Type :=
| Adv_built (a : adv_t)
| Adv_reset
| Adv_overrun.

(** [adv.payload[i] = v], inside the array or not. *)
Definition adv_put (i v : Z) (a : adv_t) (k : adv_t -> adv_result) : adv_result :=
  if (0 <=? i) && (i <? Z.of_nat (length (adv_payload a)))
  then k (Adv (adv_length a) (<[Z.to_nat i := uint8_t v]> (adv_payload a)))
  else Adv_overrun.

(** [adv.payload[adv.length++] = v]. *)
Definition adv_push (v : Z) (a : adv_t) (k : adv_t -> adv_result) : adv_result :=
  adv_put (adv_length a) v a
          (fun a' => k (Adv (uint8_t (adv_length a' + 1)) (adv_payload a'))).

(** Bytes copied to [adv.payload[i ...]], one by one ([memcpy], and the
    bytes [sd_ble_uuid_encode] writes). *)
Fixpoint adv_copy (i : Z) (src : list Z) (a : adv_t) (k : adv_t -> adv_result)
    : adv_result :=
  match src with
  | [] => k a
  | v :: src' => adv_put i v a (fun a' => adv_copy (i + 1) src' a' k)
  end.

(** [adv.length += n]. *)
Definition adv_skip (n : Z) (a : adv_t) : adv_t :=
  Adv (uint8_t (adv_length a + n)) (adv_payload a).

(** The part of [ble_init] that fills [adv] (from "Add name to advertising
    payload" to "adv.length += encoded_uuid_length"). [name] is
    [device_name], [uuid] the bytes [sd_ble_uuid_encode] writes (their
    number is [encoded_uuid_length]) and [e] the code it returns. *)
Definition ble_init_adv (name : list Z) (uuid : list Z) (e : Z) (a : adv_t)
    : adv_result :=
  adv_push (strlen name + 1) a (fun a =>
  adv_push BLE_GAP_AD_TYPE_COMPLETE_LOCAL_NAME a (fun a =>
  adv_copy (adv_length a) name a (fun a =>
  let a := adv_skip (strlen name) a in
  adv_push 0x02 a (fun a =>
  adv_push BLE_GAP_AD_TYPE_FLAGS a (fun a =>
  adv_push BLE_GAP_ADV_FLAGS_LE_ONLY_GENERAL_DISC_MODE a (fun a =>
  let encoded_uuid_length := uint8_t (Z.of_nat (length uuid)) in
  adv_copy (adv_length a + 2) uuid a (fun a =>
  if negb (Z.land e 0x0000FFFF =? 0) then Adv_reset
  else
    adv_push (0x01 + encoded_uuid_length) a (fun a =>
    adv_push BLE_GAP_AD_TYPE_128BIT_SERVICE_UUID_COMPLETE a (fun a =>
    Adv_built (adv_skip encoded_uuid_length a)))))))))).

(** The value of a character as a hexadecimal digit; a character that is
    none, as the X left for a leading zero, counts 0. *)
Definition hex_digit (c : Z) : Z :=
  if (48 <=? c) && (c <=? 57) then c - 48
  else if (65 <=? c) && (c <=? 70) then c - 55
  else 0.

(** The number a string of such characters writes. *)
Definition hex_value (s : list Z) : Z :=
  fold_left (fun acc c => acc * 16 + hex_digit c) s 0.

(** A character of the output of the loop: a digit, A to F, or X. *)
Definition hex_char (c : Z) : Prop :=
  48 <= c <= 57 \/ 65 <= c <= 70 \/ c = 88.

(** Advertising data read as the sequence of structures it is for a
    scanner: a length byte, a type byte, and length - 1 bytes of data,
    again and again; [None] when a length byte is 0 or runs past the
    end. *)
Fixpoint ad_structures (fuel : nat) (data : list Z) : option (list (Z * list Z)) :=
  match fuel with
  | O => None
  | S fuel' =>
      match data with
      | [] => Some []
      | len :: rest =>
          match rest with
          | [] => None
          | type :: body =>
              if (len <=? 0) || (Z.of_nat (length body) <? len - 1) then None
              else
                match ad_structures fuel' (skipn (Z.to_nat (len - 1)) body) with
                | Some l => Some ((type, firstn (Z.to_nat (len - 1)) body) :: l)
                | None => None
                end
          end
      end
  end.

(** ** The link as the handler tracks it

    What [ble_handles.connection] is after an event, and the calls of
    [sd_ble_gap_adv_start] in a stretch of the log. *)

Definition link (c : Z) (q : queued) : Z :=
  match evt q with
  | BLE_GAP_EVT_CONNECTED conn_handle => conn_handle
  | BLE_GAP_EVT_DISCONNECTED _ => BLE_CONN_HANDLE_INVALID
  | _ => c
  end.

Definition is_disconnected (q : queued) : bool :=
  match evt q with
  | BLE_GAP_EVT_DISCONNECTED _ => true
  | _ => false
  end.

Definition is_adv_start (c : call) : bool :=
  match c with
  | sd_ble_gap_adv_start _ _ => true
  | _ => false
  end.

Definition adv_starts (l : list (call * state)) : list call :=
  filter (fun c => is_adv_start c = true) (map fst l).


(** ** The flash (src/modules/machine_flash.c) over [spim_tx_rx]

    The functions of the [Flash] class, with the variable [flash_asleep],
    the calls into the SPI driver and the delays as a log, and what the
    driver and the flash chip answer as a script, one entry a transfer. *)

Module Flash.

(** [spi_device_t] of main.h. *)
Inductive spi_device_t : Type :=
| FPGA
| FLASH.

(** [NRFX_SUCCESS] of nrfx_errors.h: the codes of the nrfx drivers carry
    the base 0x0BAD0000 in their top half. *)
Definition NRFX_SUCCESS : Z := 0x0BAD0000.

Definition uint32_t (z : Z) : Z := z mod 2 ^ 32.

(** The answer to one transfer: the code [nrfx_spim_xfer] returns and the
    bytes the device sends; an exhausted script answers [NRFX_SUCCESS] and
    zeros. *)
Record xfer_reply : Type := Xfer {
  code : Z;
  miso : list Z
}.

(** The calls a flash function makes. A byte given to the SPI is [Some] of
    its value, or [None] when the transfer starts outside the object the
    pointer was made from. *)
Inductive call : Type :=
| nrfx_spim_init (ss_active_high : bool)
| nrfx_spim_xfer (tx_buffer : list (option Z)) (rx_len : nat)
| NRFX_DELAY_US (us : Z)
| NVIC_SystemReset.

Record world : Type := World {
  flash_asleep : bool;
  spi : list xfer_reply;
  log : list call
}.

(** The two texts [mp_raise_ValueError] is called with. *)
Inductive value_error : Type :=
| block_number_must_be_less_than_1024
| buffer_cannot_be_bigger_than_256_bytes.

(** How a function ends: it returns, it raises [ValueError], the chip
    resets ([assert_if]), a signed multiplication overflows (undefined
    behaviour), or the model ran out of loop fuel. *)
Inductive outcome (A : Type) : Type :=
| Returned (a : A) (w : world)
| ValueError (e : value_error) (w : world)
| SystemReset (w : world)
| Undefined (w : world)
| OutOfFuel.
Arguments Returned {A} a w.
Arguments ValueError {A} e w.
Arguments SystemReset {A} w.
Arguments Undefined {A} w.
Arguments OutOfFuel {A}.

Definition M (A : Type) : Type := world -> outcome A.

Definition ret {A : Type} (a : A) : M A := fun w => Returned a w.

Definition bind {A B : Type} (m : M A) (k : A -> M B) : M B :=
  fun w =>
    match m w with
    | Returned a w' => k a w'
    | ValueError e w' => ValueError e w'
    | SystemReset w' => SystemReset w'
    | Undefined w' => Undefined w'
    | OutOfFuel => OutOfFuel
    end.

Local Notation "'do!' x ':=' m 'in' k" := (bind m (fun x => k))
  (at level 10, x name, m at level 100, k at level 200).
Local Notation "m '>>' k" := (bind m (fun _ => k))
  (at level 100, k at level 200, right associativity).

Definition emit (c : call) : M unit :=
  fun w => Returned tt (World (flash_asleep w) (spi w) (log w ++ [c])).

Definition set_flash_asleep (b : bool) : M unit :=
  fun w => Returned tt (World b (spi w) (log w)).

Definition mp_raise_ValueError {A : Type} (e : value_error) : M A :=
  fun w => ValueError e w.

(** [assert_if] of main.c, on this log. *)
Definition assert_if (err : Z) : M unit :=
  fun w =>
    if Z.land err 0x0000FFFF =? 0 then Returned tt w
    else SystemReset (World (flash_asleep w) (spi w) (log w ++ [NVIC_SystemReset])).

(** The next answer of the script. *)
Definition next_reply : M xfer_reply :=
  fun w =>
    Returned (hd (Xfer NRFX_SUCCESS []) (spi w))
             (World (flash_asleep w) (tl (spi w)) (log w)).

(** The [rx_len] bytes a transfer leaves in the receive buffer. *)
Definition received (rx_len : nat) (miso : list Z) : list Z :=
  map (fun i => uint8_t (nth i miso 0)) (seq 0 rx_len).

(** [spim_tx_rx] (src/main.c): the driver is initialised on every call,
    with an inverted chip select for the FPGA, the transfer is made, and
    its code is given to [assert_if]. The result is the receive buffer. *)
Definition spim_tx_rx (tx_buffer : list (option Z)) (rx_len : nat)
    (device : spi_device_t) : M (list Z) :=
  let ss_active_high := match device with FPGA => true | FLASH => false end in
  emit (nrfx_spim_init ss_active_high) >>
  emit (nrfx_spim_xfer tx_buffer rx_len) >>
  do! r := next_reply in
  assert_if (code r) >>
  ret (received rx_len (miso r)).

(** [flash_busy]: bit 0 of the second byte of the answer to 0x05. *)
Definition flash_busy : M bool :=
  do! status_res := spim_tx_rx [Some 0x05] 2 FLASH in
  if Z.land (nth 1 status_res 0) 0x01 =? 0 then ret false else ret true.

(** [machine_flash_wake]. The third transfer is made from
    [(uint8_t * )&reset_cmd + 1], the byte behind [reset_cmd]. *)
Definition machine_flash_wake : M unit :=
  spim_tx_rx [Some 0xAB; Some 0; Some 0; Some 0] 5 FLASH >>
  emit (NRFX_DELAY_US 3) >>
  spim_tx_rx [Some 0x66] 0 FLASH >>
  spim_tx_rx [None] 0 FLASH >>
  emit (NRFX_DELAY_US 30) >>
  set_flash_asleep false.

Definition machine_flash_sleep : M unit :=
  spim_tx_rx [Some 0xB9] 0 FLASH >>
  emit (NRFX_DELAY_US 2) >>
  set_flash_asleep true.

(** [if (flash_asleep) { machine_flash_wake(); }] *)
Definition wake_if_asleep : M unit :=
  fun w => if flash_asleep w then machine_flash_wake w else Returned tt w.

(** [while (flash_busy()) { NRFX_DELAY_US(1000); }] *)
Fixpoint wait_while_busy (fuel : nat) : M unit :=
  match fuel with
  | O => fun _ => OutOfFuel
  | S fuel' =>
      do! busy := flash_busy in
      if busy then emit (NRFX_DELAY_US 1000) >> wait_while_busy fuel'
      else ret tt
  end.

(** A product of two [int]: outside the range of [int] it is undefined. *)
Definition int_mul (a b : Z) : M Z :=
  fun w =>
    if (- 2 ^ 31 <=? a * b) && (a * b <? 2 ^ 31) then Returned (a * b) w
    else Undefined w.

(** The command byte and the 24-bit address below it:
    [{cmd, (uint8_t)(address >> 16), (uint8_t)(address >> 8), 0x00}]. *)
Definition command (cmd address : Z) : list Z :=
  [cmd; uint8_t (Z.shiftr address 16); uint8_t (Z.shiftr address 8); 0x00].

(** [machine_flash_erase]; [args] are the [n_args] arguments, as [int]. *)
Definition machine_flash_erase (fuel : nat) (args : list Z) : M unit :=
  wake_if_asleep >>
  spim_tx_rx [Some 0x06] 0 FLASH >>
  match args with
  | [] =>
      spim_tx_rx [Some 0x60] 0 FLASH >>
      wait_while_busy fuel
  | block :: _ =>
      (if block >? 1023
       then mp_raise_ValueError block_number_must_be_less_than_1024
       else ret tt) >>
      do! product := int_mul block 0x1000 in
      let address := uint32_t product in
      let erase_block := command 0x20 address in
      spim_tx_rx (map Some erase_block) 0 FLASH >>
      wait_while_busy fuel
  end.

(** [machine_flash_read]: [len] is the length of the buffer given, the
    result its new content. *)
Definition machine_flash_read (page : Z) (len : nat) : M (list Z) :=
  (if (256 <? len)%nat
   then mp_raise_ValueError buffer_cannot_be_bigger_than_256_bytes
   else ret tt) >>
  wake_if_asleep >>
  do! product := int_mul page 0x100 in
  let address := uint32_t product in
  let read_cmd := command 0x03 address in
  do! read_buff := spim_tx_rx (map Some read_cmd) (len + 4) FLASH in
  ret (firstn len (skipn 4 read_buff)).

(** [machine_flash_write]: [buf] is the content of the buffer given. *)
Definition machine_flash_write (page : Z) (buf : list Z) : M unit :=
  (if (256 <? length buf)%nat
   then mp_raise_ValueError buffer_cannot_be_bigger_than_256_bytes
   else ret tt) >>
  wake_if_asleep >>
  spim_tx_rx [Some 0x06] 0 FLASH >>
  do! product := int_mul page 0x100 in
  let address := uint32_t product in
  let write_buff := command 0x02 address ++ map uint8_t buf in
  spim_tx_rx (map Some write_buff) 0 FLASH >>
  ret tt.

(** The methods of the class, and a session at the prompt: a call that
    raises is over, and the next one is made; a reset, undefined behaviour
    and the end of the fuel end the session. *)
Inductive method : Type :=
| sleep
| erase (args : list Z)
| read (page : Z) (len : nat)
| write (page : Z) (buf : list Z).

Definition invoke (fuel : nat) (m : method) : M unit :=
  match m with
  | sleep => machine_flash_sleep
  | erase args => machine_flash_erase fuel args
  | read page len => machine_flash_read page len >> ret tt
  | write page buf => machine_flash_write page buf
  end.

Fixpoint session (fuel : nat) (ms : list method) : M unit :=
  match ms with
  | [] => ret tt
  | m :: ms' =>
      fun w =>
        match invoke fuel m w with
        | Returned _ w' | ValueError _ w' => session fuel ms' w'
        | o => o
        end
  end.

(** The transfers of a log, in order. *)
Definition transfers (l : list call) : list (list (option Z) * nat) :=
  omap (fun c => match c with
                 | nrfx_spim_xfer tx_buffer rx_len => Some (tx_buffer, rx_len)
                 | _ => None
                 end) l.

(** An answer [assert_if] lets pass, and one that says the flash is busy. *)
Definition ok_reply (r : xfer_reply) : bool := Z.land (code r) 0x0000FFFF =? 0.

Definition busy_reply (r : xfer_reply) : bool :=
  negb (Z.land (uint8_t (nth 1 (miso r) 0)) 0x01 =? 0).

Definition all_ok (l : list xfer_reply) : Prop :=
  Forall (fun r => ok_reply r = true) l.

(** The log of one [spim_tx_rx] to the flash, and of [machine_flash_wake]. *)
Definition xfer_log (tx_buffer : list (option Z)) (rx_len : nat) : list call :=
  [nrfx_spim_init false; nrfx_spim_xfer tx_buffer rx_len].

Definition wake_log : list call :=
  xfer_log [Some 0xAB; Some 0; Some 0; Some 0] 5 ++ [NRFX_DELAY_US 3]
  ++ xfer_log [Some 0x66] 0 ++ xfer_log [None] 0 ++ [NRFX_DELAY_US 30].

(** What the module lets on the bus: the chip select is the one of the
    flash, a transfer is at most 260 bytes long each way, and begins with
    one of nine command bytes or with the byte behind [reset_cmd]; the
    reset command 0x99 is not among them. *)
Definition is_command (tx_buffer : list (option Z)) : bool :=
  match tx_buffer with
  | Some c :: _ =>
      existsb (Z.eqb c) [0x05; 0xAB; 0x66; 0xB9; 0x06; 0x60; 0x20; 0x03; 0x02]
  | [None] => true
  | _ => false
  end.

Definition framed (c : call) : Prop :=
  match c with
  | nrfx_spim_init ss_active_high => ss_active_high = false
  | nrfx_spim_xfer tx_buffer rx_len =>
      is_command tx_buffer = true /\
      (length tx_buffer <= 260)%nat /\ (rx_len <= 260)%nat
  | NRFX_DELAY_US _ => True
  | NVIC_SystemReset => True
  end.

(** Every way [m] ends, the log has grown by calls that satisfy [P]. *)
Definition logs {A : Type} (P : call -> Prop) (m : M A) : Prop :=
  forall w,
    match m w with
    | Returned _ w' | ValueError _ w' | SystemReset w' | Undefined w' =>
        exists d, log w' = log w ++ d /\ Forall P d
    | OutOfFuel => True
    end.

End Flash.

(** ** The FPGA state (src/modules/machine_fpga.c)

    [fpga_state], [done_pin_irq] and the functions that read or write
    them: the handler of the done pin and the methods [run], [reset],
    [status], [irq] and [irq_disable]. Python objects are numbers, 0 for
    the null object a static variable starts with. *)

Module Fpga.

Inductive fpga_state_t : Type :=
| FPGA_RUNNING
| FPGA_CONFIGURING
| FPGA_RESET.

Inductive qstr : Type :=
| MP_QSTR_FPGA_RUNNING
| MP_QSTR_FPGA_CONFIGURING
| MP_QSTR_FPGA_RESET.

Inductive call : Type :=
| nrf_gpio_pin_set (pin : Z)
| nrf_gpio_pin_clear (pin : Z)
| mp_call_function_1 (handler : Z) (arg : Z).

(** [done_pin_irq.enabled], [done_pin_irq.handler], [fpga_state], and the
    calls made so far. *)
Record world : Type := World {
  enabled : bool;
  handler : Z;
  fpga_state : fpga_state_t;
  log : list call
}.

(** The variables as their initialisers leave them. *)
Definition world_init : world := World false 0 FPGA_RESET [].

(** [fpga_done_pin_irq_handler]; [level] is what [nrf_gpio_pin_read(16)]
    gives. *)
Definition fpga_done_pin_irq_handler (level : Z) (w : world) : world :=
  match fpga_state w with
  | FPGA_RESET => w
  | FPGA_CONFIGURING =>
      if level =? 1 then World (enabled w) (handler w) FPGA_RUNNING (log w)
      else w
  | FPGA_RUNNING =>
      if enabled w
      then World (enabled w) (handler w) (fpga_state w)
                 (log w ++ [mp_call_function_1 (handler w) level])
      else w
  end.

Definition machine_fpga_run (w : world) : world :=
  World (enabled w) (handler w) FPGA_CONFIGURING (log w ++ [nrf_gpio_pin_set 20]).

Definition machine_fpga_reset (w : world) : world :=
  World (enabled w) (handler w) FPGA_RESET (log w ++ [nrf_gpio_pin_clear 20]).

Definition machine_fpga_status (w : world) : qstr :=
  match fpga_state w with
  | FPGA_RUNNING => MP_QSTR_FPGA_RUNNING
  | FPGA_CONFIGURING => MP_QSTR_FPGA_CONFIGURING
  | FPGA_RESET => MP_QSTR_FPGA_RESET
  end.

Definition machine_fpga_irq (h : Z) (w : world) : world :=
  World (enabled w) h (fpga_state w) (log w).

Definition machine_fpga_irq_disable (w : world) : world :=
  World false (handler w) (fpga_state w) (log w).

(** What happens to the module: a method is called, or the done pin
    changes and its handler runs with the pin at [level]. *)
Inductive event : Type :=
| run
| reset
| status
| irq (h : Z)
| irq_disable
| done_pin (level : Z).

Definition step (w : world) (e : event) : world :=
  match e with
  | run => machine_fpga_run w
  | reset => machine_fpga_reset w
  | status => w
  | irq h => machine_fpga_irq h w
  | irq_disable => machine_fpga_irq_disable w
  | done_pin level => fpga_done_pin_irq_handler level w
  end.

Definition steps (w : world) (es : list event) : world := fold_left step es w.

(** Events that are neither [run] nor [reset], and the rising edge. *)
Definition quiet (e : event) : bool :=
  match e with
  | run | reset => false
  | _ => true
  end.

Definition rising (e : event) : bool :=
  match e with
  | done_pin level => level =? 1
  | _ => false
  end.

Definition is_callback (c : call) : bool :=
  match c with
  | mp_call_function_1 _ _ => true
  | _ => false
  end.

End Fpga.

(** ** The clock (src/modules/machine_rtc.c)

    [epoch_time_ref], [waiting], the counter of RTC1 as
    [nrfx_rtc_counter_get] reads it, and the interrupts served during each
    coming [__WFI], every one with what the counter reads when its handler
    runs. *)

Module Rtc.

Definition uint32_t (z : Z) : Z := z mod 2 ^ 32.

Inductive nrfx_rtc_int_type_t : Type :=
| NRFX_RTC_INT_COMPARE0
| NRFX_RTC_INT_COMPARE1
| NRFX_RTC_INT_COMPARE2
| NRFX_RTC_INT_COMPARE3
| NRFX_RTC_INT_TICK
| NRFX_RTC_INT_OVERFLOW.

Inductive call : Type :=
| nrfx_rtc_counter_clear
| nrfx_rtc_int_enable_COMPARE0
| nrfx_rtc_cc_disable (channel : Z)
| nrfx_rtc_cc_set (channel : Z) (val : Z) (enable_irq : bool)
| sd_power_mode_set_LOWPWR
| WFI.

Record irq : Type := Irq {
  at_counter : Z;
  int_type : nrfx_rtc_int_type_t
}.

Record world : Type := World {
  epoch_time_ref : Z;
  waiting : bool;
  counter : Z;
  irqs : list (list irq);
  log : list call
}.

(** [rtc_irq_handler]. *)
Definition rtc_irq_handler (t : nrfx_rtc_int_type_t) (w : world) : world :=
  match t with
  | NRFX_RTC_INT_COMPARE0 =>
      World (uint32_t (epoch_time_ref w + 60 * 60)) (waiting w) 0 (irqs w)
            (log w ++ [nrfx_rtc_counter_clear; nrfx_rtc_int_enable_COMPARE0])
  | NRFX_RTC_INT_COMPARE1 =>
      World (epoch_time_ref w) false (counter w) (irqs w)
            (log w ++ [nrfx_rtc_cc_disable 1])
  | _ => w
  end.

(** The counter has come to [c]. *)
Definition reads (c : Z) (w : world) : world :=
  World (epoch_time_ref w) (waiting w) c (irqs w) (log w).

(** An interrupt is served: the counter has come to [at_counter], and the
    handler runs. *)
Definition serve (w : world) (i : irq) : world :=
  rtc_irq_handler (int_type i) (reads (at_counter i) w).

(** [machine_rtc_time]: with no argument the object
    [MP_OBJ_NEW_SMALL_INT(time)], and [mp_const_none], here [None], once
    the time is set to the argument. The macro [MP_OBJ_NEW_SMALL_INT] is
    of py/obj.h, which the repository includes but does not contain: it
    is a parameter, from numbers to objects. [args] are the arguments as
    [mp_obj_get_int] reads them. *)
Definition machine_rtc_time {mp_obj_t : Type}
    (MP_OBJ_NEW_SMALL_INT : Z -> mp_obj_t) (args : list Z) (w : world)
    : option mp_obj_t * world :=
  match args with
  | [] =>
      let time := uint32_t (counter w / 1000 + epoch_time_ref w) in
      (Some (MP_OBJ_NEW_SMALL_INT time), w)
  | v :: _ =>
      (None, World (uint32_t v) (waiting w) 0 (irqs w)
                   (log w ++ [nrfx_rtc_counter_clear]))
  end.




Definition is_compare0 (i : irq) : bool :=
  match int_type i with NRFX_RTC_INT_COMPARE0 => true | _ => false end.

Definition is_compare1 (i : irq) : bool :=
  match int_type i with NRFX_RTC_INT_COMPARE1 => true | _ => false end.

(** The calls of the handler, and of one turn of the loop of
    [machine_rtc_sleep_ms] with the interrupts [b] served. *)
Definition handler_log (i : irq) : list call :=
  match int_type i with
  | NRFX_RTC_INT_COMPARE0 => [nrfx_rtc_counter_clear; nrfx_rtc_int_enable_COMPARE0]
  | NRFX_RTC_INT_COMPARE1 => [nrfx_rtc_cc_disable 1]
  | _ => []
  end.


(** The number of [NRFX_RTC_INT_COMPARE0] among interrupts. *)
Definition hours (l : list irq) : Z :=
  Z.of_nat (length (filter (fun i => is_compare0 i = true) l)).

End Rtc.

(** ** The allocator (src/lib.c)

    [malloc], [realloc] and [free] over a flat memory: addresses are
    numbers below 2^32, the memory a function from addresses to bytes,
    and [cur_heap] the static pointer of [malloc], 32 bits wide as every
    pointer of the chip: what is added to it is added modulo 2^32. *)

Module Lib.

Definition size_t (z : Z) : Z := z mod 2 ^ 32.

(** A [char *] after arithmetic. *)
Definition pointer (z : Z) : Z := z mod 2 ^ 32.

Definition NULL : Z := 0.

Record state : Type := State {
  cur_heap : Z;
  mem : Z -> Z
}.

(** [malloc]; [_heap_start] is the address of the linker symbol. *)
Definition malloc (_heap_start n : Z) (s : state) : Z * state :=
  let cur := if cur_heap s =? NULL then _heap_start else cur_heap s in
  let ptr := cur in
  (ptr, State (pointer (cur + Z.land (size_t (n + 7)) (size_t (Z.lnot 7))))
              (mem s)).

(** [memcpy] of regions that do not overlap, and whether they do. *)
Definition memcpy (dst src n : Z) (m : Z -> Z) : Z -> Z :=
  fun a => if (dst <=? a) && (a <? dst + n) then m (src + (a - dst)) else m a.

Definition overlap (dst src n : Z) : bool :=
  (dst <? src + n) && (src <? dst + n).

(** [realloc]; [None] when the regions given to [memcpy] overlap, which
    is undefined. *)
Definition realloc (_heap_start ptr size : Z) (s : state) : option (Z * state) :=
  let (ptr2, s1) := malloc _heap_start size s in
  if negb (ptr =? NULL) && negb (size =? 0)
  then
    if overlap ptr2 ptr size then None
    else Some (ptr2, State (cur_heap s1) (memcpy ptr2 ptr size (mem s1)))
  else Some (ptr2, s1).

Definition free (p : Z) (s : state) : state := s.

(** What a program does with the allocator, and the blocks it gets:
    address and size asked, in order. *)
Inductive request : Type :=
| alloc (n : Z)
| release (p : Z).

Fixpoint requests (_heap_start : Z) (rs : list request) (s : state)
    : list (Z * Z) * state :=
  match rs with
  | [] => ([], s)
  | alloc n :: rs' =>
      let (ptr, s1) := malloc _heap_start n s in
      let (blocks, s2) := requests _heap_start rs' s1 in
      ((ptr, n) :: blocks, s2)
  | release p :: rs' => requests _heap_start rs' (free p s)
  end.

(** The sizes asked. *)
Definition asked (r : request) : Z :=
  match r with
  | alloc n => n
  | release _ => 0
  end.

(** The first free address. *)
Definition top (_heap_start : Z) (s : state) : Z :=
  if cur_heap s =? NULL then _heap_start else cur_heap s.

(** Room that is enough for a request, and for requests in a row: the
    size asked and the at most 7 bytes of rounding. *)
Definition room (r : request) : Z :=
  match r with
  | alloc n => n + 7
  | release _ => 0
  end.

Definition needed (rs : list request) : Z :=
  fold_right (fun r acc => room r + acc) 0 rs.

End Lib.

(** ** The reset handler (src/startup_nrf52811.c)

    The two loops of [Reset_Handler], over a memory of words: a function
    from the addresses of words, which are multiples of 4, as the symbols
    of the linker script are. What follows the loops, [SystemInit] and
    [main], is not part of the model. *)

Module Startup.

(** [*p = v] *)
Definition store (p v : Z) (m : Z -> Z) : Z -> Z :=
  fun a => if a =? p then v else m a.

(** [while (p_dest < &_edata) { *p_dest++ = *p_src++; }] *)
Fixpoint copy_data (fuel : nat) (p_src p_dest _edata : Z) (m : Z -> Z)
    : option (Z -> Z) :=
  match fuel with
  | O => None
  | S fuel' =>
      if p_dest <? _edata
      then copy_data fuel' (p_src + 4) (p_dest + 4) _edata (store p_dest (m p_src) m)
      else Some m
  end.

(** [while (p_bss < p_bss_end) { *p_bss++ = 0ul; }] *)
Fixpoint zero_bss (fuel : nat) (p_bss p_bss_end : Z) (m : Z -> Z)
    : option (Z -> Z) :=
  match fuel with
  | O => None
  | S fuel' =>
      if p_bss <? p_bss_end
      then zero_bss fuel' (p_bss + 4) p_bss_end (store p_bss 0 m)
      else Some m
  end.

(** [Reset_Handler], to the call of [SystemInit]. *)
Definition Reset_Handler (fuel : nat) (_sidata _sdata _edata _sbss _ebss : Z)
    (m : Z -> Z) : option (Z -> Z) :=
  match copy_data fuel _sidata _sdata _edata m with
  | Some m1 => zero_bss fuel _sbss _ebss m1
  | None => None
  end.

(** The number of words a loop from [lo] to [hi] writes, and the
    addresses it writes to. *)
Definition words (lo hi : Z) : Z :=
  if lo <? hi then (hi - lo + 3) / 4 else 0.

Definition written (lo hi a : Z) : Prop :=
  exists i, 0 <= i < words lo hi /\ a = lo + 4 * i.

End Startup.


(** ** Facts about one ring *)

Section RingFacts.

Variable N : Z.
Hypothesis N_range : 0 < N < 65536.

Lemma mod_diff_cases (a b : Z) :
  0 <= a < N -> 0 <= b < N ->
  (b <= a /\ (a - b) mod N = a - b) \/ (a < b /\ (a - b) mod N = a - b + N).
Proof.
  intros Ha Hb. destruct (Z_le_gt_dec b a); [left | right]; split; try lia.
  - apply Z.mod_small; lia.
  - symmetry. apply (Z.mod_unique _ _ (-1)); lia.
Qed.

Lemma ring_next_cases (i : Z) :
  0 <= i < N ->
  (i + 1 = N /\ ring_next N i = 0) \/ (i + 1 < N /\ ring_next N i = i + 1).
Proof.
  intros Hi. unfold ring_next, uint16_t.
  rewrite Z.mod_small by lia.
  destruct (Z.eqb_spec (i + 1) N); [left | right]; lia.
Qed.

Lemma ring_next_range (i : Z) : 0 <= i < N -> 0 <= ring_next N i < N.
Proof. intros Hi. destruct (ring_next_cases i Hi) as [[? ->] | [? ->]]; lia. Qed.

Lemma ring_count_cases (r : ring) :
  ring_wf N r ->
  (tail r <= head r /\ ring_count N r = head r - tail r) \/
  (head r < tail r /\ ring_count N r = head r - tail r + N).
Proof. intros (_ & Hh & Ht). by apply mod_diff_cases. Qed.

Lemma ring_count_range (r : ring) : ring_wf N r -> 0 <= ring_count N r <= N - 1.
Proof.
  intros Hwf. pose proof Hwf as (_ & Hh & Ht).
  destruct (ring_count_cases r Hwf) as [[? ->] | [? ->]]; lia.
Qed.

Lemma ring_empty_count (r : ring) :
  ring_wf N r -> (head r = tail r <-> ring_count N r = 0).
Proof.
  intros Hwf. pose proof Hwf as (_ & Hh & Ht).
  destruct (ring_count_cases r Hwf) as [[? ->] | [? ->]]; lia.
Qed.

Lemma ring_count_pos (r : ring) :
  ring_wf N r -> head r <> tail r -> 0 < ring_count N r.
Proof.
  intros Hwf Hne. pose proof Hwf as (_ & Hh & Ht).
  destruct (ring_count_cases r Hwf) as [[? ->] | [? ->]]; lia.
Qed.

Lemma ring_full_count (r : ring) :
  ring_wf N r -> (ring_full N r <-> ring_count N r = N - 1).
Proof.
  intros Hwf. pose proof Hwf as (_ & Hh & Ht). unfold ring_full.
  destruct (ring_next_cases (head r) Hh) as [[? ->] | [? ->]];
    destruct (ring_count_cases r Hwf) as [[? ->] | [? ->]]; lia.
Qed.

(** A push on a ring that is not full. *)
Lemma ring_push_Some (r : ring) (c : byte) :
  ring_wf N r -> ring_count N r < N - 1 ->
  exists r', ring_push N r c = Some r' /\
             ring_wf N r' /\ tail r' = tail r /\
             head r' = ring_next N (head r) /\
             buffer r' = <[Z.to_nat (head r) := c]> (buffer r) /\
             ring_count N r' = ring_count N r + 1.
Proof.
  intros Hwf Hc. pose proof Hwf as (Hl & Hh & Ht).
  assert (Hnf : ring_next N (head r) <> tail r).
  { intros Hf. apply (ring_full_count r Hwf) in Hf. lia. }
  unfold ring_push. destruct (Z.eqb_spec (ring_next N (head r)) (tail r)); [done |].
  eexists; split; [reflexivity |].
  assert (Hwf' : ring_wf N (Ring (<[Z.to_nat (head r):=c]> (buffer r))
                                 (ring_next N (head r)) (tail r))).
  { repeat split; simpl; try lia; try apply ring_next_range; try done.
    by rewrite length_insert. }
  repeat split; try apply Hwf'; try done.
  destruct (ring_count_cases _ Hwf') as [[? ->] | [? ->]];
    destruct (ring_count_cases r Hwf) as [[? Hc'] | [? Hc']];
    rewrite Hc' in *; simpl in *;
    destruct (ring_next_cases (head r) Hh) as [[? Hn] | [? Hn]];
    rewrite Hn in *; lia.
Qed.

(** A push on a full ring. *)
Lemma ring_push_None (r : ring) (c : byte) :
  ring_full N r -> ring_push N r c = None.
Proof.
  unfold ring_full, ring_push. intros ->. by rewrite Z.eqb_refl.
Qed.

(** Writing the cell at [h] does not change a slice that stops before
    [h], and the slice that reaches [h] ends with the written byte. *)
Lemma ring_slice_insert (buf : list byte) (h : Z) (c : byte) (n : nat) (i : Z) :
  length buf = Z.to_nat N -> 0 <= h < N -> 0 <= i < N ->
  (h - i) mod N = Z.of_nat n ->
  ring_slice N (<[Z.to_nat h := c]> buf) i (S n) = ring_slice N buf i n ++ [c].
Proof.
  intros Hl Hh. revert i. induction n as [| n IH]; intros i Hi Hd.
  - assert (i = h) as ->.
    { destruct (mod_diff_cases h i Hh Hi) as [[? Hm] | [? Hm]]; lia. }
    simpl. rewrite list_lookup_insert_eq by lia. done.
  - change (ring_slice N (<[Z.to_nat h:=c]> buf) i (S (S n)))
      with (default "000"%byte (<[Z.to_nat h:=c]> buf !! Z.to_nat i)
            :: ring_slice N (<[Z.to_nat h:=c]> buf) (ring_next N i) (S n)).
    assert (Hne : i <> h).
    { intros ->. rewrite Z.sub_diag, Z.mod_0_l in Hd by lia. lia. }
    rewrite list_lookup_insert_ne by lia.
    rewrite IH; [done | by apply ring_next_range |].
    pose proof (ring_next_range i Hi) as Hr.
    destruct (mod_diff_cases h i Hh Hi) as [[? Hm] | [? Hm]];
      destruct (mod_diff_cases h _ Hh Hr) as [[? Hm'] | [? Hm']];
      rewrite Hm'; rewrite Hm in Hd;
      destruct (ring_next_cases i Hi) as [[? Hn] | [? Hn]]; rewrite Hn in *; lia.
Qed.

Lemma ring_push_contents (r r' : ring) (c : byte) :
  ring_wf N r -> ring_push N r c = Some r' ->
  ring_wf N r' /\ ring_count N r' = ring_count N r + 1 /\
  tail r' = tail r /\ ring_contents N r' = ring_contents N r ++ [c].
Proof.
  intros Hwf Hp. pose proof Hwf as (Hl & Hh & Ht).
  assert (Hc : ring_count N r < N - 1).
  { pose proof (ring_count_range r Hwf).
    destruct (Z.eq_dec (ring_count N r) (N - 1)) as [Hf |]; [| lia].
    apply ring_full_count in Hf; [| done].
    rewrite (ring_push_None r c Hf) in Hp. done. }
  destruct (ring_push_Some r c Hwf Hc) as (r1 & Hp1 & Hwf1 & Ht1 & Hh1 & Hb1 & Hc1).
  rewrite Hp in Hp1. injection Hp1 as <-.
  repeat split; try apply Hwf1; try done.
  unfold ring_contents. rewrite Hc1, Hb1, Ht1.
  pose proof (ring_count_range r Hwf).
  replace (Z.to_nat (ring_count N r + 1)) with (S (Z.to_nat (ring_count N r))) by lia.
  apply ring_slice_insert; try done.
  rewrite Z2Nat.id by lia. done.
Qed.

(** The write loop stores the characters that fit and drops the rest. *)
Lemma ring_write_contents (str : list byte) (r : ring) :
  ring_wf N r ->
  let r' := ring_write N r str in
  let fit := firstn (Z.to_nat (N - 1 - ring_count N r)) str in
  ring_wf N r' /\ tail r' = tail r /\
  ring_count N r' = ring_count N r + Z.of_nat (length fit) /\
  ring_contents N r' = ring_contents N r ++ fit.
Proof.
  revert r. induction str as [| c str IH]; intros r Hwf; simpl.
  - rewrite firstn_nil, app_nil_r. simpl. repeat split; try apply Hwf; lia.
  - pose proof (ring_count_range r Hwf) as Hr.
    destruct (ring_push N r c) as [r1 |] eqn:Hp.
    + destruct (ring_push_contents r r1 c Hwf Hp) as (Hwf1 & Hc1 & Ht1 & Hk1).
      destruct (IH r1 Hwf1) as (Hwf' & Ht' & Hc' & Hk').
      pose proof (ring_count_range r1 Hwf1) as Hr1.
      replace (Z.to_nat (N - 1 - ring_count N r))
        with (S (Z.to_nat (N - 1 - ring_count N r1))) by lia.
      rewrite firstn_cons. simpl length.
      repeat split; try apply Hwf'; try congruence; try lia.
      rewrite Hk', Hk1, <- app_assoc. done.
    + assert (Hf : ring_count N r = N - 1).
      { destruct (Z.eq_dec (ring_count N r) (N - 1)) as [| Hne]; [done |].
        destruct (ring_push_Some r c Hwf) as (? & Hp' & _); [lia |].
        rewrite Hp in Hp'. done. }
      rewrite Hf. replace (Z.to_nat (N - 1 - (N - 1))) with O by lia.
      simpl. rewrite app_nil_r. repeat split; try apply Hwf; lia.
Qed.

(** A read at the tail of a ring that holds something. *)
Lemma ring_pop_contents (r r' : ring) (c : byte) :
  ring_wf N r -> 0 < ring_count N r -> ring_pop N r = (c, r') ->
  ring_wf N r' /\ head r' = head r /\ buffer r' = buffer r /\
  ring_count N r' = ring_count N r - 1 /\
  ring_contents N r = c :: ring_contents N r'.
Proof.
  intros Hwf Hc Hp. pose proof Hwf as (Hl & Hh & Ht).
  unfold ring_pop in Hp. injection Hp as <- <-.
  set (r' := Ring (buffer r) (head r) (ring_next N (tail r))).
  assert (Hwf' : ring_wf N r').
  { repeat split; simpl; try lia; try apply ring_next_range; done. }
  assert (Hc' : ring_count N r' = ring_count N r - 1).
  { destruct (ring_count_cases _ Hwf') as [[? Hx] | [? Hx]]; rewrite Hx;
      destruct (ring_count_cases r Hwf) as [[? Hy] | [? Hy]]; rewrite Hy in *;
      simpl in *;
      destruct (ring_next_cases (tail r) Ht) as [[? Hn] | [? Hn]];
      rewrite Hn in *; lia. }
  repeat split; try apply Hwf'; try done.
  unfold ring_contents. rewrite Hc'.
  replace (Z.to_nat (ring_count N r)) with (S (Z.to_nat (ring_count N r - 1))) by lia.
  done.
Qed.

Lemma ring_pops_contents (n : nat) (r r' : ring) (l : list byte) :
  ring_wf N r -> Z.of_nat n <= ring_count N r -> ring_pops N n r = (l, r') ->
  l = firstn n (ring_contents N r) /\
  ring_wf N r' /\ head r' = head r /\ buffer r' = buffer r /\
  ring_count N r' = ring_count N r - Z.of_nat n /\
  ring_contents N r' = skipn n (ring_contents N r).
Proof.
  revert r l. induction n as [| n IH]; intros r l Hwf Hn Hp.
  - injection Hp as <- <-. repeat split; try apply Hwf; lia.
  - change (ring_pops N (S n) r)
      with (let (c, r1) := ring_pop N r in
            let (l, r2) := ring_pops N n r1 in (c :: l, r2)) in Hp.
    destruct (ring_pop N r) as [c r1] eqn:Hp1.
    destruct (ring_pops N n r1) as [l2 r2] eqn:Hp2.
    injection Hp as <- <-.
    destruct (ring_pop_contents r r1 c Hwf) as (Hwf1 & Hh1 & Hb1 & Hc1 & Hk1);
      [lia | done |].
    destruct (IH r1 l2 Hwf1) as (Hl & Hwf2 & Hh2 & Hb2 & Hc2 & Hk2); [lia | done |].
    rewrite Hk1. simpl. subst l2.
    repeat split; try apply Hwf2; try congruence; lia.
Qed.

End RingFacts.

(** ** The calls of the console and of the handler on the rings *)

Section Paths.

Variable N : Z.
Hypothesis N_range : 0 < N < 65536.

Lemma on_write_evt (c : Z) (payload : list byte) (rets : list Z) (w : world) :
  on_ble_evt N (BLE_GATTS_EVT_WRITE c payload) rets w =
  Returned tt (World (set_rx (ring_write N (rx (st w)) payload) (st w))
                     (hvx w) (idle w) (log w)).
Proof. reflexivity. Qed.

Lemma tx_strn_eq (str : list byte) (w : world) :
  mp_hal_stdout_tx_strn N str w =
  Returned tt (World (set_tx (ring_write N (tx (st w)) str) (st w))
                     (hvx w) (idle w) (log w)).
Proof. reflexivity. Qed.

(** With something in [rx], [mp_hal_stdin_rx_chr] does not wait: it takes
    the byte at the tail. *)
Lemma rx_chr_ready (fuel : nat) (w : world) :
  head (rx (st w)) <> tail (rx (st w)) ->
  mp_hal_stdin_rx_chr N fuel w =
  Returned (Z.of_N (Byte.to_N (fst (ring_pop N (rx (st w))))))
           (World (set_rx (snd (ring_pop N (rx (st w)))) (st w))
                  (hvx w) (idle w) (log w)).
Proof.
  intros Hne. destruct fuel; simpl;
    destruct (Z.eqb_spec (head (rx (st w))) (tail (rx (st w)))); done.
Qed.

(** Reading [n] bytes that are there. *)
Lemma rx_chr_many (fuel n : nat) (w : world) :
  ring_wf N (rx (st w)) -> Z.of_nat n <= ring_count N (rx (st w)) ->
  replicateM n (mp_hal_stdin_rx_chr N fuel) w =
  Returned (map chr (fst (ring_pops N n (rx (st w)))))
           (World (set_rx (snd (ring_pops N n (rx (st w)))) (st w))
                  (hvx w) (idle w) (log w)).
Proof.
  revert w. induction n as [| n IH]; intros w Hwf Hn.
  - simpl. unfold ret. by destruct w as [[] ? ? ?].
  - assert (Hne : head (rx (st w)) <> tail (rx (st w))).
    { intros He. apply (ring_empty_count N N_range _ Hwf) in He. lia. }
    change (replicateM (S n) (mp_hal_stdin_rx_chr N fuel) w)
      with (bind (mp_hal_stdin_rx_chr N fuel)
                 (fun a => bind (replicateM n (mp_hal_stdin_rx_chr N fuel))
                                (fun l => ret (a :: l))) w).
    unfold bind at 1. rewrite (rx_chr_ready fuel w Hne).
    change (ring_pops N (S n) (rx (st w)))
      with (let (c, r1) := ring_pop N (rx (st w)) in
            let (l, r2) := ring_pops N n r1 in (c :: l, r2)).
    destruct (ring_pop N (rx (st w))) as [c r1] eqn:Hp.
    destruct (ring_pop_contents N N_range (rx (st w)) r1 c)
      as (Hwf1 & _ & _ & Hc1 & _); [done | lia | done |].
    unfold bind. rewrite IH; simpl; [| done | lia].
    destruct (ring_pops N n r1) as [l r2]. reflexivity.
Qed.

(** Push then pop: what was written to an empty ring, if it fits, is read
    back in order and the ring is empty again. *)
Lemma ring_fifo (r : ring) (bs : list byte) :
  ring_wf N r -> ring_empty r -> Z.of_nat (length bs) <= N - 1 ->
  exists r', ring_pops N (length bs) (ring_write N r bs) = (bs, r') /\
             ring_wf N r' /\ ring_empty r'.
Proof.
  intros Hwf He Hlen.
  apply (ring_empty_count N N_range r Hwf) in He.
  destruct (ring_write_contents N N_range bs r Hwf) as (Hwf1 & _ & Hc1 & Hk1).
  rewrite He, firstn_all2 in Hc1, Hk1 by lia.
  unfold ring_contents at 2 in Hk1. rewrite He in Hk1. simpl in Hk1.
  destruct (ring_pops N (length bs) (ring_write N r bs)) as [l r'] eqn:Hp.
  destruct (ring_pops_contents N N_range (length bs) (ring_write N r bs) r' l)
    as (Hl & Hwf' & _ & _ & Hc' & _); [done | lia | done |].
  exists r'. rewrite Hk1, firstn_all in Hl. subst l.
  repeat split; try apply Hwf'; try done.
  apply (ring_empty_count N N_range r' Hwf'). lia.
Qed.

End Paths.

(** ** Relations kept by every function *)

(** A reflexive and transitive relation that holds across the elementary
    steps of a function holds across the function. *)
(** The handler never touches [tx], however it ends. *)
Lemma on_ble_evt_tx (N : Z) (e : ble_evt) (rets : list Z) (w : world) :
  match on_ble_evt N e rets w with
  | Returned _ w' | SystemReset w' | Undefined w' => tx (st w') = tx (st w)
  | OutOfFuel => True
  end.
Proof.
  destruct e; unfold on_ble_evt, sd_call, bind, emit, ret, assert_if, set_st;
    cbn [st hvx idle log];
    repeat (destruct (Z.land _ _ =? 0); cbn [st hvx idle log]); done.
Qed.

Lemma SWI2_IRQHandler_tx (N : Z) (pending : list queued) :
  forall w,
    match SWI2_IRQHandler N pending w with
    | Returned _ w' | SystemReset w' | Undefined w' => tx (st w') = tx (st w)
    | OutOfFuel => True
    end.
Proof.
  induction pending as [| q pending IH]; intros w; [done |].
  cbn [SWI2_IRQHandler]. unfold bind.
  pose proof (on_ble_evt_tx N (evt q) (sd_ret q) w) as H1.
  destruct (on_ble_evt N (evt q) (sd_ret q) w) as [[] w1 | w1 | w1 |]; try done.
  specialize (IH w1).
  destruct (SWI2_IRQHandler N pending w1); try done; congruence.
Qed.

Lemma serve_idle_tx (N : Z) (w : world) :
  match serve_idle N w with
  | Returned _ w' | SystemReset w' | Undefined w' => tx (st w') = tx (st w)
  | OutOfFuel => True
  end.
Proof.
  exact (SWI2_IRQHandler_tx N (hd [] (idle w))
                            (World (st w) (hvx w) (tl (idle w)) (log w))).
Qed.

Section Closure.

Variable N : Z.
Variable R : world -> world -> Prop.
Hypothesis R_refl : forall w, R w w.
Hypothesis R_trans : forall w1 w2 w3, R w1 w2 -> R w2 w3 -> R w1 w3.

Lemma rel_ok_ret {A : Type} (a : A) : rel_ok R (ret a).
Proof. intros w. apply R_refl. Qed.

Lemma rel_ok_bind {A B : Type} (m : M A) (k : A -> M B) :
  rel_ok R m -> (forall a, rel_ok R (k a)) -> rel_ok R (bind m k).
Proof.
  intros Hm Hk w. unfold bind. specialize (Hm w).
  destruct (m w) as [a w1 | w1 | w1 |]; try done.
  specialize (Hk a w1). destruct (k a w1); try done; by eapply R_trans.
Qed.

Lemma rel_ok_set_st (f : state -> state) :
  (forall w, R w (World (f (st w)) (hvx w) (idle w) (log w))) ->
  rel_ok R (set_st f).
Proof. intros H w. apply H. Qed.

(** The steps of the handler. *)
Section Handler.

Hypothesis R_emit :
  forall c w, foreground c = false ->
              R w (World (st w) (hvx w) (idle w) (log w ++ [(c, st w)])).
Hypothesis R_connection :
  forall c w, R w (World (set_connection c (st w)) (hvx w) (idle w) (log w)).
Hypothesis R_mtu :
  forall m w, R w (World (set_negotiated_mtu m (st w)) (hvx w) (idle w) (log w)).
Hypothesis R_rx_write :
  forall str w, R w (World (set_rx (ring_write N (rx (st w)) str) (st w))
                           (hvx w) (idle w) (log w)).

Lemma rel_ok_assert_if (e : Z) : rel_ok R (assert_if e).
Proof.
  intros w. unfold assert_if. destruct (Z.land e 65535 =? 0); [apply R_refl |].
  by apply R_emit.
Qed.

Lemma rel_ok_sd_call (c : call) (rets : list Z) (i : nat) :
  foreground c = false -> rel_ok R (sd_call c rets i).
Proof.
  intros Hc. apply rel_ok_bind; [| intros; apply rel_ok_ret].
  intros w. by apply R_emit.
Qed.

Lemma on_ble_evt_rel (e : ble_evt) (rets : list Z) :
  rel_ok R (on_ble_evt N e rets).
Proof.
  destruct e; simpl;
    repeat first
      [ apply rel_ok_ret
      | apply rel_ok_assert_if
      | apply rel_ok_sd_call; reflexivity
      | apply rel_ok_set_st; intros; first [apply R_connection | apply R_mtu
                                            | apply R_rx_write]
      | apply rel_ok_bind; [| intros ?]
      | (intros w; apply rel_ok_sd_call; reflexivity)
      | (intros w; unfold emit; by apply R_emit) ].
Qed.

Lemma SWI2_IRQHandler_rel (pending : list queued) :
  rel_ok R (SWI2_IRQHandler N pending).
Proof.
  induction pending as [| q pending IH]; simpl; [apply rel_ok_ret |].
  apply rel_ok_bind; [apply on_ble_evt_rel | done].
Qed.

(** The steps of the foreground. *)
Section Foreground.

Hypothesis R_emit_fg :
  forall c w,
    (c = sd_app_evt_wait -> ring_empty (tx (st w))) ->
    R w (World (st w) (hvx w) (idle w) (log w ++ [(c, st w)])).
Hypothesis R_idle :
  forall w, R w (World (st w) (hvx w) (tl (idle w)) (log w)).
Hypothesis R_hvx :
  forall rs w, R w (World (st w) rs (idle w) (log w)).
Hypothesis R_tx_write :
  forall str w, R w (World (set_tx (ring_write N (tx (st w)) str) (st w))
                           (hvx w) (idle w) (log w)).
Hypothesis R_tx_pop :
  forall w, R w (World (set_tx (snd (ring_pop N (tx (st w)))) (st w))
                       (hvx w) (idle w) (log w)).
Hypothesis R_rx_pop :
  forall w, R w (World (set_rx (snd (ring_pop N (rx (st w)))) (st w))
                       (hvx w) (idle w) (log w)).

Lemma serve_idle_rel : rel_ok R (serve_idle N).
Proof.
  intros w. unfold serve_idle.
  pose proof (SWI2_IRQHandler_rel (hd [] (idle w))
                (World (st w) (hvx w) (tl (idle w)) (log w))) as H.
  destruct (SWI2_IRQHandler N _ _); try done; eapply R_trans; eauto.
Qed.

Lemma mp_hal_stdout_tx_strn_rel (str : list byte) :
  rel_ok R (mp_hal_stdout_tx_strn N str).
Proof. apply rel_ok_set_st. intros. apply R_tx_write. Qed.

Lemma tx_drain_rel (fuel : nat) (out : list byte) : rel_ok R (tx_drain N fuel out).
Proof.
  revert out. induction fuel as [| fuel IH]; intros out w; simpl.
  - destruct (negb _); [done | apply R_refl].
  - destruct (negb _); [| apply R_refl].
    destruct (MAX_MTU_LENGTH <=? _); [apply R_refl |].
    unfold bind, set_st. cbn [st hvx idle log].
    pose proof (R_tx_pop w) as H1.
    destruct (_ <=? _); [done |].
    specialize (IH (out ++ [(ring_pop N (tx (st w))).1])
                   (World (set_tx (ring_pop N (tx (st w))).2 (st w))
                          (hvx w) (idle w) (log w))).
    destruct (tx_drain N fuel _ _); try done; eapply R_trans; eauto.
Qed.

Lemma hvx_attempt_rel (r : reply) (vh : Z) (out : list byte) (again : M unit) :
  rel_ok R again -> rel_ok R (hvx_attempt N r vh out again).
Proof.
  intros Ha. unfold hvx_attempt.
  apply rel_ok_bind; [intros w; by apply R_emit_fg | intros _].
  apply rel_ok_bind; [apply SWI2_IRQHandler_rel | intros _].
  destruct (_ || _); [apply rel_ok_ret |].
  destruct (_ =? _); [| apply rel_ok_assert_if].
  apply rel_ok_bind; [intros w; by apply R_emit_fg | intros _].
  apply rel_ok_bind; [apply serve_idle_rel | done].
Qed.

Lemma hvx_try_again_rel (replies : list reply) (vh : Z) (out : list byte) :
  rel_ok R (hvx_try_again N replies vh out).
Proof.
  induction replies as [| r replies IH]; simpl.
  - apply hvx_attempt_rel, rel_ok_ret.
  - apply rel_ok_bind; [intros w; apply R_hvx | intros _].
    by apply hvx_attempt_rel.
Qed.

Lemma ble_send_pending_data_rel : rel_ok R (ble_send_pending_data N).
Proof.
  intros w. unfold ble_send_pending_data.
  destruct (_ =? _); [apply R_refl |].
  apply (rel_ok_bind (tx_drain N (Z.to_nat N) [])
                     (fun out w' => hvx_try_again N (hvx w')
                                                  (tx_value_handle (st w')) out w')).
  - apply tx_drain_rel.
  - intros out w'. apply hvx_try_again_rel.
Qed.

Lemma mp_hal_stdin_rx_chr_rel (fuel : nat) : rel_ok R (mp_hal_stdin_rx_chr N fuel).
Proof.
  induction fuel as [| fuel IH]; intros w; simpl.
  - destruct (_ =? _); [done |]. apply R_rx_pop.
  - destruct (_ =? _); [| apply R_rx_pop].
    revert w. change (rel_ok R
      (ble_send_pending_data N ;;
       (fun w' =>
          if (head (tx (st w')) =? tail (tx (st w')))
             && (head (rx (st w')) =? tail (rx (st w')))
          then (serve_idle N ;; emit sd_app_evt_wait ;; serve_idle N) w'
          else ret tt w') ;;
       mp_hal_stdin_rx_chr N fuel)).
    apply rel_ok_bind; [apply ble_send_pending_data_rel | intros _].
    apply rel_ok_bind; [| done].
    intros w.
    destruct (Z.eqb_spec (head (tx (st w))) (tail (tx (st w)))) as [Et |];
      destruct (Z.eqb_spec (head (rx (st w))) (tail (rx (st w))));
      cbn [andb]; try apply R_refl.
    unfold bind at 1.
    pose proof (serve_idle_rel w) as H1. pose proof (serve_idle_tx N w) as Ht1.
    destruct (serve_idle N w) as [[] w1 | w1 | w1 |]; try done.
    assert (He : R w1 (World (st w1) (hvx w1) (idle w1)
                             (log w1 ++ [(sd_app_evt_wait, st w1)]))).
    { apply R_emit_fg. intros _. unfold ring_empty. by rewrite Ht1. }
    unfold bind, emit.
    pose proof (serve_idle_rel (World (st w1) (hvx w1) (idle w1)
                                      (log w1 ++ [(sd_app_evt_wait, st w1)]))) as H.
    destruct (serve_idle N _); try done;
      (eapply R_trans; [exact H1 |]); eapply R_trans; eauto.
Qed.

Lemma enter_rel (e : entry) : rel_ok R (enter N e).
Proof.
  destruct e; simpl.
  - apply mp_hal_stdout_tx_strn_rel.
  - apply ble_send_pending_data_rel.
  - apply rel_ok_bind; [apply mp_hal_stdin_rx_chr_rel | intros; apply rel_ok_ret].
  - apply SWI2_IRQHandler_rel.
Qed.

Lemma enter_all_rel (es : list entry) : rel_ok R (enter_all N es).
Proof.
  induction es as [| e es IH]; simpl; [apply rel_ok_ret |].
  apply rel_ok_bind; [apply enter_rel | done].
Qed.

End Foreground.
End Handler.
End Closure.

(** ** The relations that are kept *)

Section Kept.

Variable N : Z.
Hypothesis N_range : 0 < N < 65536.

Lemma ring_pop_wf (r : ring) : ring_wf N r -> ring_wf N (snd (ring_pop N r)).
Proof.
  intros (Hl & Hh & Ht). repeat split; simpl; try lia; try done;
    by apply ring_next_range.
Qed.

Lemma ring_write_wf (r : ring) (str : list byte) :
  ring_wf N r -> ring_wf N (ring_write N r str).
Proof. intros Hwf. by apply (ring_write_contents N N_range str r Hwf). Qed.

(** Every function leaves both rings well formed. *)
Lemma rings_wf_kept (es : list entry) :
  rel_ok (fun w w' => rings_wf N (st w) -> rings_wf N (st w')) (enter_all N es).
Proof.
  apply enter_all_rel; try (intros; simpl; tauto); try done.
  - intros str w [Hr Ht]. split; simpl; [by apply ring_write_wf | done].
  - intros str w [Hr Ht]. split; simpl; [done | by apply ring_write_wf].
  - intros w [Hr Ht]. split; simpl; [done | by apply ring_pop_wf].
  - intros w [Hr Ht]. split; simpl; [by apply ring_pop_wf | done].
Qed.

Lemma log_grows_refl (Q : call * state -> Prop) (w : world) : log_grows Q w w.
Proof. exists []. by rewrite app_nil_r. Qed.

Lemma log_grows_trans (Q : call * state -> Prop) (w1 w2 w3 : world) :
  log_grows Q w1 w2 -> log_grows Q w2 w3 -> log_grows Q w1 w3.
Proof.
  intros (d1 & H1 & F1) (d2 & H2 & F2). exists (d1 ++ d2).
  rewrite H2, H1, app_assoc. split; [done | by apply Forall_app].
Qed.

Lemma log_grows_same (Q : call * state -> Prop) (w w' : world) :
  log w' = log w -> log_grows Q w w'.
Proof. intros H. exists []. by rewrite app_nil_r. Qed.

Lemma log_grows_one (Q : call * state -> Prop) (w w' : world) (e : call * state) :
  log w' = log w ++ [e] -> Q e -> log_grows Q w w'.
Proof. intros H HQ. exists [e]. split; [done | by constructor]. Qed.


Lemma handler_frame_refl (w : world) : handler_frame w w.
Proof. repeat split; try done. apply log_grows_refl. Qed.

Lemma handler_frame_trans (w1 w2 w3 : world) :
  handler_frame w1 w2 -> handler_frame w2 w3 -> handler_frame w1 w3.
Proof.
  intros (A1 & B1 & C1 & D1 & E1 & F1) (A2 & B2 & C2 & D2 & E2 & F2).
  repeat split; try congruence. by eapply log_grows_trans.
Qed.

(** The handler keeps off the foreground's variables and scripts. *)
Lemma handler_frame_kept (pending : list queued) :
  rel_ok handler_frame (SWI2_IRQHandler N pending).
Proof.
  apply SWI2_IRQHandler_rel.
  - apply handler_frame_refl.
  - apply handler_frame_trans.
  - intros c w Hc. repeat split; try done. by eapply log_grows_one.
  - intros c w. repeat split; try done. by apply log_grows_same.
  - intros c w. repeat split; try done. by apply log_grows_same.
  - intros c w. repeat split; try done. by apply log_grows_same.
Qed.

End Kept.

(** ** C9: the indices stay inside the storage *)

Lemma ring_wf_in_bounds (r : ring) : ring_wf RING_BUFFER_LENGTH r -> in_bounds r.
Proof.
  intros Hwf. pose proof Hwf as (Hl & Hh & Ht).
  pose proof (ring_count_range RING_BUFFER_LENGTH r Hwf) as Hc.
  unfold RING_BUFFER_LENGTH in *. unfold in_bounds, RING_BUFFER_LENGTH.
  repeat split; lia.
Qed.

Lemma ring_init_wf (N : Z) : 0 < N -> ring_wf N (ring_init N).
Proof.
  intros HN. repeat split; simpl; try lia. by rewrite repeat_length.
Qed.

Lemma ring_apply_wf (N : Z) (r : ring) (o : ring_op) :
  0 < N < 65536 -> ring_wf N r -> ring_wf N (ring_apply N r o).
Proof.
  intros HN Hwf. destruct o as [c |]; simpl.
  - destruct (ring_push N r c) as [r' |] eqn:Hp; simpl; [| done].
    by apply (ring_push_contents N HN r r' c Hwf Hp).
  - by apply ring_pop_wf.
Qed.

(** C9. From [head = tail = 0], whatever pushes and reads at the tail are
    done on a ring of the build, [head] and [tail] stay in [0, 1069), so
    they index the storage, and the ring holds at most 1068 bytes; and
    whatever entry points of the transport run in whatever order, with
    whatever the SoftDevice answers, both [rx] and [tx] are so when a
    function returns (or resets the chip). *)
Theorem ring_indices_in_bounds :
  (forall ops : list ring_op,
     in_bounds (fold_left (ring_apply RING_BUFFER_LENGTH) ops
                          (ring_init RING_BUFFER_LENGTH))) /\
  (forall (es : list entry) (c a vh m : Z)
          (replies : list reply) (batches : list (list queued)),
     match enter_all RING_BUFFER_LENGTH es
             (World (State c a vh m (ring_init RING_BUFFER_LENGTH)
                                    (ring_init RING_BUFFER_LENGTH))
                    replies batches [])
     with
     | Returned _ w' | SystemReset w' | Undefined w' =>
         in_bounds (rx (st w')) /\ in_bounds (tx (st w'))
     | OutOfFuel => True
     end).
Proof.
  assert (HN : 0 < RING_BUFFER_LENGTH < 65536) by done.
  split.
  - intros ops. apply ring_wf_in_bounds.
    assert (H : forall r, ring_wf RING_BUFFER_LENGTH r ->
                          ring_wf RING_BUFFER_LENGTH
                                  (fold_left (ring_apply RING_BUFFER_LENGTH) ops r)).
    { induction ops as [| o ops IH]; intros r Hr; simpl; [done |].
      apply IH. by apply ring_apply_wf. }
    apply H, ring_init_wf. lia.
  - intros es c a vh m replies batches.
    pose proof (rings_wf_kept RING_BUFFER_LENGTH HN es
                  (World (State c a vh m (ring_init RING_BUFFER_LENGTH)
                                         (ring_init RING_BUFFER_LENGTH))
                         replies batches [])) as H.
    assert (H0 : rings_wf RING_BUFFER_LENGTH
                   (State c a vh m (ring_init RING_BUFFER_LENGTH)
                                   (ring_init RING_BUFFER_LENGTH))).
    { split; apply ring_init_wf; lia. }
    destruct (enter_all RING_BUFFER_LENGTH es _); try done;
      destruct (H H0); split; by apply ring_wf_in_bounds.
Qed.

(** ** C6: a push on a full ring *)

Lemma ring_write_full (N : Z) (r : ring) (str : list byte) :
  ring_full N r -> ring_write N r str = r.
Proof.
  intros Hf. destruct str as [| c str]; simpl; [done |].
  by rewrite ring_push_None.
Qed.

(** C6. On a full ring a push fails, and the write loop, stopped by that
    failure at the first character, leaves the storage, [head] and [tail] as
    they were; so [mp_hal_stdout_tx_strn] with [tx] full, and a write event
    with [rx] full, return with the whole world unchanged. *)
Theorem push_on_full_ring (N : Z) (r : ring) (c : byte) (str : list byte)
    (w : world) :
  ring_full N r ->
  ring_push N r c = None /\
  ring_write N r (c :: str) = r /\
  (tx (st w) = r -> mp_hal_stdout_tx_strn N (c :: str) w = Returned tt w) /\
  (rx (st w) = r ->
   forall h rets,
     on_ble_evt N (BLE_GATTS_EVT_WRITE h (c :: str)) rets w = Returned tt w).
Proof.
  intros Hf. split; [by apply ring_push_None |].
  split; [by apply ring_write_full |].
  split.
  - intros <-. rewrite tx_strn_eq, ring_write_full by done.
    by destruct w as [[] ? ? ?].
  - intros <- h rets. rewrite on_write_evt, ring_write_full by done.
    by destruct w as [[] ? ? ?].
Qed.

Lemma push_on_full_ring_witness :
  let r := Ring ["a"; "b"; "c"; "d"]%byte 2 3 in
  let w := World (State 0 0 0 0 r r) [] [] [] in
  ring_push 4 r "x"%byte = None /\
  ring_write 4 r ["x"; "y"]%byte = r /\
  (tx (st w) = r -> mp_hal_stdout_tx_strn 4 ["x"; "y"]%byte w = Returned tt w) /\
  (rx (st w) = r ->
   forall h rets,
     on_ble_evt 4 (BLE_GATTS_EVT_WRITE h ["x"; "y"]%byte) rets w = Returned tt w).
Proof.
  intros r w. apply (push_on_full_ring 4 r "x"%byte ["y"%byte] w).
  reflexivity.
Defined.

(** ** C5: the inbound path drops what does not fit *)

Lemma write_evts_contents (N : Z) (c : Z) (payloads : list (list byte)) (w : world) :
  0 < N < 65536 -> ring_wf N (rx (st w)) ->
  exists w',
    SWI2_IRQHandler N (write_evts c payloads) w = Returned tt w' /\
    ring_wf N (rx (st w')) /\
    ring_contents N (rx (st w')) =
      fold_left (accept (N - 1)) payloads (ring_contents N (rx (st w))) /\
    tail (rx (st w')) = tail (rx (st w)) /\
    tx (st w') = tx (st w) /\ log w' = log w /\
    hvx w' = hvx w /\ idle w' = idle w.
Proof.
  intros HN. revert w. induction payloads as [| p payloads IH]; intros w Hwf.
  - exists w. split; [done |]. split; [done |]. by repeat split.
  - change (SWI2_IRQHandler N (write_evts c (p :: payloads)) w)
      with (bind (on_ble_evt N (BLE_GATTS_EVT_WRITE c p) [])
                 (fun _ => SWI2_IRQHandler N (write_evts c payloads)) w).
    unfold bind at 1. rewrite on_write_evt.
    destruct (ring_write_contents N HN p _ Hwf) as (Hwf1 & Ht1 & Hc1 & Hk1).
    destruct (IH (World (set_rx (ring_write N (rx (st w)) p) (st w))
                        (hvx w) (idle w) (log w))) as (w' & Hr & Hwf' & Hk' & Ht' & Hx);
      [done |].
    cbn [st rx tx set_rx hvx idle log] in Hk', Ht', Hx.
    exists w'. split; [exact Hr |]. split; [done |].
    split; [| split; [congruence | exact Hx]].
    rewrite Hk'. simpl. f_equal. rewrite Hk1. unfold accept. do 2 f_equal.
    assert (Hlen : Z.of_nat (length (ring_contents N (rx (st w))))
                   = ring_count N (rx (st w))).
    { unfold ring_contents.
      pose proof (ring_count_range N _ Hwf).
      assert (Hs : forall buf n i, length (ring_slice N buf i n) = n).
      { intros buf n. induction n as [| n IHn]; intros i; simpl; [done |].
        by rewrite IHn. }
      rewrite Hs. lia. }
    lia.
Qed.

(** C5. Write events served one after the other with no read in between:
    each payload is appended to what [rx] holds, in order, up to the
    [N - 1] bytes the ring takes, and its remainder is dropped without a
    call or any other effect. With a storage of 8 and payloads of 5, 5 and
    2 bytes on an empty ring, the ring ends with the 5 bytes of the first
    payload and the first 2 of the second, and 7 calls of
    [mp_hal_stdin_rx_chr] return them in that order, leaving [rx] empty. *)
Theorem inbound_overflow_dropped :
  (forall (N c : Z) (payloads : list (list byte)) (w : world),
     0 < N < 65536 -> ring_wf N (rx (st w)) ->
     exists w',
       SWI2_IRQHandler N (write_evts c payloads) w = Returned tt w' /\
       ring_contents N (rx (st w')) =
         fold_left (accept (N - 1)) payloads (ring_contents N (rx (st w))) /\
       tx (st w') = tx (st w) /\ log w' = log w) /\
  (forall (a1 a2 a3 a4 a5 b1 b2 b3 b4 b5 c1 c2 : byte) (c : Z),
     exists w1 w2,
       SWI2_IRQHandler 8 (write_evts c [[a1; a2; a3; a4; a5];
                                        [b1; b2; b3; b4; b5];
                                        [c1; c2]])
                       (World (state_init 8) [] [] []) = Returned tt w1 /\
       ring_contents 8 (rx (st w1)) = [a1; a2; a3; a4; a5; b1; b2] /\
       replicateM 7 (mp_hal_stdin_rx_chr 8 0) w1 =
         Returned (map chr [a1; a2; a3; a4; a5; b1; b2]) w2 /\
       ring_empty (rx (st w2))).
Proof.
  split.
  - intros N c payloads w HN Hwf.
    destruct (write_evts_contents N c payloads w HN Hwf)
      as (w' & Hr & _ & Hk & _ & Ht & Hl & _).
    by exists w'.
  - intros. eexists _, _. split; [vm_compute; reflexivity |].
    split; [vm_compute; reflexivity |]. split; vm_compute; reflexivity.
Qed.

Lemma inbound_overflow_dropped_witness :
  exists w',
    SWI2_IRQHandler 4 (write_evts 0 [["a"; "b"]; ["c"; "d"]]%byte)
                    (World (state_init 4) [] [] []) = Returned tt w' /\
    ring_contents 4 (rx (st w')) = ["a"; "b"; "c"]%byte /\
    tx (st w') = ring_init 4 /\ log w' = [].
Proof.
  apply (proj1 inbound_overflow_dropped 4 0 [["a"; "b"]; ["c"; "d"]]%byte
               (World (state_init 4) [] [] [])).
  - lia.
  - repeat split; simpl; lia.
Defined.

(** ** C4, C10, C1: the negotiated MTU *)

Lemma on_mtu_request (N conn m : Z) (rets : list Z) (w : world) :
  Z.land (nth 0 rets NRF_SUCCESS) 0x0000FFFF = 0 ->
  on_ble_evt N (BLE_GATTS_EVT_EXCHANGE_MTU_REQUEST conn m) rets w =
  Returned tt
    (World (set_negotiated_mtu
              (uint16_t (if MAX_MTU_LENGTH <? uint16_t m
                         then MAX_MTU_LENGTH - 3 else uint16_t m - 3))
              (st w))
           (hvx w) (idle w)
           (log w ++ [(sd_ble_gatts_exchange_mtu_reply conn MAX_MTU_LENGTH, st w)])).
Proof.
  intros He. unfold on_ble_evt, sd_call, bind, emit, ret, assert_if, set_st.
  cbn [st hvx idle log]. rewrite He. reflexivity.
Qed.

Lemma on_disconnected (N conn : Z) (rets : list Z) (w : world) :
  Z.land (nth 0 rets NRF_SUCCESS) 0x0000FFFF = 0 ->
  on_ble_evt N (BLE_GAP_EVT_DISCONNECTED conn) rets w =
  Returned tt
    (World (set_connection BLE_CONN_HANDLE_INVALID (st w)) (hvx w) (idle w)
           (log w ++ [(sd_ble_gap_adv_start (advertising (st w)) 1,
                       set_connection BLE_CONN_HANDLE_INVALID (st w))])).
Proof.
  intros He. unfold on_ble_evt, sd_call, bind, emit, ret, assert_if, set_st.
  cbn [st hvx idle log]. rewrite He. reflexivity.
Qed.

(** C4. An MTU exchange request with client value [m], answered without
    error by the SoftDevice: the handler replies with [MAX_MTU_LENGTH]
    (128), and [negotiated_mtu], the limit [ble_send_pending_data] goes by,
    becomes the smaller of 128 and [m], minus 3, as a [uint16_t]; from
    [m = 3] on that is the exact difference, and [m = 64] gives 61. *)
Theorem mtu_exchange_sets_payload (N conn m : Z) (rets : list Z) (w : world) :
  0 <= m < 65536 ->
  Z.land (nth 0 rets NRF_SUCCESS) 0x0000FFFF = 0 ->
  exists w',
    on_ble_evt N (BLE_GATTS_EVT_EXCHANGE_MTU_REQUEST conn m) rets w
      = Returned tt w' /\
    log w' = log w ++ [(sd_ble_gatts_exchange_mtu_reply conn 128, st w)] /\
    negotiated_mtu (st w') = uint16_t (Z.min 128 m - 3) /\
    (3 <= m -> negotiated_mtu (st w') = Z.min 128 m - 3) /\
    (m = 64 -> negotiated_mtu (st w') = 61) /\
    connection (st w') = connection (st w) /\
    rx (st w') = rx (st w) /\ tx (st w') = tx (st w).
Proof.
  intros Hm He. eexists. split; [by apply on_mtu_request |].
  cbn [st log negotiated_mtu set_negotiated_mtu connection rx tx].
  split; [done |].
  assert (Hv : uint16_t (if MAX_MTU_LENGTH <? uint16_t m
                         then MAX_MTU_LENGTH - 3 else uint16_t m - 3)
               = uint16_t (Z.min 128 m - 3)).
  { unfold uint16_t at 2 3. rewrite Z.mod_small by lia. unfold MAX_MTU_LENGTH.
    destruct (Z.ltb_spec 128 m); f_equal; lia. }
  rewrite Hv. split; [done |].
  split; [| split; [| done]].
  - intros H3. unfold uint16_t. apply Z.mod_small. lia.
  - intros ->. reflexivity.
Qed.

Lemma mtu_exchange_sets_payload_witness :
  exists w',
    on_ble_evt RING_BUFFER_LENGTH (BLE_GATTS_EVT_EXCHANGE_MTU_REQUEST 0 64) []
               (World (state_init RING_BUFFER_LENGTH) [] [] [])
      = Returned tt w' /\
    log w' = [] ++ [(sd_ble_gatts_exchange_mtu_reply 0 128,
                     state_init RING_BUFFER_LENGTH)] /\
    negotiated_mtu (st w') = uint16_t (Z.min 128 64 - 3) /\
    (3 <= 64 -> negotiated_mtu (st w') = Z.min 128 64 - 3) /\
    (64 = 64 -> negotiated_mtu (st w') = 61) /\
    connection (st w') = BLE_CONN_HANDLE_INVALID /\
    rx (st w') = ring_init RING_BUFFER_LENGTH /\
    tx (st w') = ring_init RING_BUFFER_LENGTH.
Proof.
  apply (mtu_exchange_sets_payload RING_BUFFER_LENGTH 0 64 []
           (World (state_init RING_BUFFER_LENGTH) [] [] [])).
  - lia.
  - reflexivity.
Defined.

(** C10. An MTU exchange request with a client value [m] below 3 is
    handled like any other: nothing checks [m] from below, and
    [negotiated_mtu] becomes [(m - 3) mod 2^16], that is [m + 65533], a
    value above the 125 bytes the device can send at most; [m = 2] gives
    65535. *)
Theorem mtu_exchange_wraps_below_3 (N conn m : Z) (rets : list Z) (w : world) :
  0 <= m < 3 ->
  Z.land (nth 0 rets NRF_SUCCESS) 0x0000FFFF = 0 ->
  exists w',
    on_ble_evt N (BLE_GATTS_EVT_EXCHANGE_MTU_REQUEST conn m) rets w
      = Returned tt w' /\
    negotiated_mtu (st w') = (m - 3) mod 2 ^ 16 /\
    negotiated_mtu (st w') = m + 65533 /\
    MAX_MTU_LENGTH - 3 < negotiated_mtu (st w') /\
    (m = 2 -> negotiated_mtu (st w') = 65535).
Proof.
  intros Hm He. eexists. split; [by apply on_mtu_request |].
  cbn [st negotiated_mtu set_negotiated_mtu].
  assert (Hv : uint16_t (if MAX_MTU_LENGTH <? uint16_t m
                         then MAX_MTU_LENGTH - 3 else uint16_t m - 3)
               = m + 65533).
  { unfold uint16_t, MAX_MTU_LENGTH. rewrite (Z.mod_small m) by lia.
    destruct (Z.ltb_spec 128 m); [lia |].
    symmetry. apply (Z.mod_unique _ _ (-1)); lia. }
  rewrite Hv. unfold MAX_MTU_LENGTH.
  split; [| split; [done | split; [lia | lia]]].
  change (2 ^ 16) with 65536. apply (Z.mod_unique _ _ (-1)); lia.
Qed.

Lemma mtu_exchange_wraps_below_3_witness :
  exists w',
    on_ble_evt RING_BUFFER_LENGTH (BLE_GATTS_EVT_EXCHANGE_MTU_REQUEST 0 2) []
               (World (state_init RING_BUFFER_LENGTH) [] [] [])
      = Returned tt w' /\
    negotiated_mtu (st w') = (2 - 3) mod 2 ^ 16 /\
    negotiated_mtu (st w') = 2 + 65533 /\
    MAX_MTU_LENGTH - 3 < negotiated_mtu (st w') /\
    (2 = 2 -> negotiated_mtu (st w') = 65535).
Proof.
  apply (mtu_exchange_wraps_below_3 RING_BUFFER_LENGTH 0 2 []
           (World (state_init RING_BUFFER_LENGTH) [] [] [])).
  - lia.
  - reflexivity.
Defined.

(** C1, as stated, fails: after an MTU exchange that set [negotiated_mtu]
    to 61, the disconnect event leaves it at 61, not at the 0 it had before
    the exchange. *)
Lemma disconnect_resets_mtu_counterexample :
  let w0 := World (state_init RING_BUFFER_LENGTH) [] [] [] in
  exists w1 w2,
    on_ble_evt RING_BUFFER_LENGTH (BLE_GATTS_EVT_EXCHANGE_MTU_REQUEST 0 64) [] w0
      = Returned tt w1 /\
    on_ble_evt RING_BUFFER_LENGTH (BLE_GAP_EVT_DISCONNECTED 0) [] w1
      = Returned tt w2 /\
    negotiated_mtu (st w0) = 0 /\
    negotiated_mtu (st w1) = 61 /\
    negotiated_mtu (st w2) = 61 /\
    negotiated_mtu (st w2) <> negotiated_mtu (st w0).
Proof.
  intros w0. eexists _, _.
  split; [apply on_mtu_request; reflexivity |].
  split; [apply on_disconnected; reflexivity |].
  repeat split; try reflexivity. discriminate.
Qed.

(** C1, amended. A disconnect event for which [sd_ble_gap_adv_start]
    succeeds sets the connection handle to [BLE_CONN_HANDLE_INVALID] and
    restarts advertising, and leaves [negotiated_mtu] and both rings as
    they are. *)
Theorem disconnect_keeps_mtu (N conn : Z) (rets : list Z) (w : world) :
  Z.land (nth 0 rets NRF_SUCCESS) 0x0000FFFF = 0 ->
  exists w',
    on_ble_evt N (BLE_GAP_EVT_DISCONNECTED conn) rets w = Returned tt w' /\
    negotiated_mtu (st w') = negotiated_mtu (st w) /\
    connection (st w') = BLE_CONN_HANDLE_INVALID /\
    map fst (log w') = map fst (log w)
                       ++ [sd_ble_gap_adv_start (advertising (st w)) 1] /\
    rx (st w') = rx (st w) /\ tx (st w') = tx (st w).
Proof.
  intros He. eexists. split; [by apply on_disconnected |].
  cbn [st log negotiated_mtu set_connection connection rx tx].
  rewrite map_app. done.
Qed.

Lemma disconnect_keeps_mtu_witness :
  exists w',
    on_ble_evt RING_BUFFER_LENGTH (BLE_GAP_EVT_DISCONNECTED 0) []
               (World (State 0 1 16 61 (ring_init RING_BUFFER_LENGTH)
                             (ring_init RING_BUFFER_LENGTH)) [] [] [])
      = Returned tt w' /\
    negotiated_mtu (st w') = 61 /\
    connection (st w') = BLE_CONN_HANDLE_INVALID /\
    map fst (log w') = [] ++ [sd_ble_gap_adv_start 1 1] /\
    rx (st w') = ring_init RING_BUFFER_LENGTH /\
    tx (st w') = ring_init RING_BUFFER_LENGTH.
Proof.
  apply (disconnect_keeps_mtu RING_BUFFER_LENGTH 0 []
           (World (State 0 1 16 61 (ring_init RING_BUFFER_LENGTH)
                         (ring_init RING_BUFFER_LENGTH)) [] [] [])).
  reflexivity.
Defined.

(** ** The outbound sender *)

Section Sender.

Variable N : Z.
Hypothesis N_range : 0 < N < 65536.

Lemma tx_drain_empty (fuel : nat) (out : list byte) (w : world) :
  tail (tx (st w)) = head (tx (st w)) -> tx_drain N fuel out w = Returned out w.
Proof. intros He. destruct fuel; simpl; by rewrite He, Z.eqb_refl. Qed.

Lemma tx_drain_step (fuel : nat) (out : list byte) (w : world) :
  tail (tx (st w)) <> head (tx (st w)) ->
  Z.of_nat (length out) < MAX_MTU_LENGTH ->
  tx_drain N (S fuel) out w =
  let w' := World (set_tx (snd (ring_pop N (tx (st w)))) (st w))
                  (hvx w) (idle w) (log w) in
  let out' := out ++ [fst (ring_pop N (tx (st w)))] in
  if negotiated_mtu (st w) <=? Z.of_nat (length out')
  then Returned out' w' else tx_drain N fuel out' w'.
Proof.
  intros Hne Hlen.
  change (tx_drain N (S fuel) out w)
    with (if negb (tail (tx (st w)) =? head (tx (st w))) then
            if MAX_MTU_LENGTH <=? Z.of_nat (length out) then Undefined w
            else
              let (c, t') := ring_pop N (tx (st w)) in
              let out' := out ++ [c] in
              (set_st (set_tx t') ;;
               fun w' =>
                 if negotiated_mtu (st w') <=? uint16_t (Z.of_nat (length out'))
                 then ret out' w'
                 else tx_drain N fuel out' w') w
          else ret out w).
  destruct (Z.eqb_spec (tail (tx (st w))) (head (tx (st w)))); [done |].
  destruct (Z.leb_spec MAX_MTU_LENGTH (Z.of_nat (length out))); [lia |].
  cbn [negb]. destruct (ring_pop N (tx (st w))) as [c t']. cbn [fst snd].
  unfold bind, set_st. cbn [st negotiated_mtu set_tx].
  unfold uint16_t. rewrite Z.mod_small; [done |].
  rewrite length_app. simpl. unfold MAX_MTU_LENGTH in *. lia.
Qed.

(** The drain loop takes bytes off [tx] until [tx] is empty or the chunk
    has reached [negotiated_mtu] (one byte at least), provided the chunk
    stays within [out_buffer]. *)
Lemma tx_drain_spec (fuel : nat) (out : list byte) (w : world) :
  ring_wf N (tx (st w)) ->
  let cnt := ring_count N (tx (st w)) in
  let k := Z.to_nat (Z.min cnt (Z.max 1 (negotiated_mtu (st w)
                                          - Z.of_nat (length out)))) in
  cnt <= Z.of_nat fuel ->
  Z.of_nat (length out) + Z.of_nat k <= MAX_MTU_LENGTH ->
  tx_drain N fuel out w =
  Returned (out ++ fst (ring_pops N k (tx (st w))))
           (World (set_tx (snd (ring_pops N k (tx (st w)))) (st w))
                  (hvx w) (idle w) (log w)).
Proof.
  revert out w. induction fuel as [| fuel IH]; intros out w Hwf cnt k Hfuel Hfit;
    pose proof (ring_count_range N _ Hwf) as Hr;
    destruct (Z.eq_dec (tail (tx (st w))) (head (tx (st w)))) as [He | Hne].
  1, 2, 3: assert (Hc : cnt = 0);
    [ subst cnt;
      first [ by apply (ring_empty_count N N_range _ Hwf) | lia ] |];
    assert (Hk : k = O) by (subst k; lia);
    assert (He' : tail (tx (st w)) = head (tx (st w)));
    [ first [ done | symmetry; by apply (ring_empty_count N N_range _ Hwf) ] |];
    rewrite (tx_drain_empty _ _ _ He'), Hk; simpl; rewrite app_nil_r;
    by destruct w as [[] ? ? ?].
  assert (Hc : 0 < cnt).
  { subst cnt. apply ring_count_pos; [done | congruence]. }
  assert (Hk1 : (1 <= k)%nat) by (subst k; lia).
  rewrite tx_drain_step by (done || lia).
  destruct (ring_pop N (tx (st w))) as [c t'] eqn:Hp.
  destruct (ring_pop_contents N N_range _ _ _ Hwf Hc Hp)
    as (Hwf' & _ & _ & Hc' & _).
  cbn [fst snd]. cbv zeta. rewrite length_app. simpl length.
  destruct (Z.leb_spec (negotiated_mtu (st w)) (Z.of_nat (length out + 1))).
  - assert (Hk : k = 1%nat) by (subst k; lia).
    rewrite Hk.
    change (ring_pops N 1 (tx (st w)))
      with (let (c, r1) := ring_pop N (tx (st w)) in
            let (l, r2) := ring_pops N 0 r1 in (c :: l, r2)).
    rewrite Hp. reflexivity.
  - specialize (IH (out ++ [c])
                   (World (set_tx t' (st w)) (hvx w) (idle w) (log w))).
    cbn [st hvx idle log negotiated_mtu set_tx tx] in IH.
    rewrite length_app in IH. simpl length in IH.
    assert (Hk : k = S (Z.to_nat
                          (Z.min (ring_count N t')
                                 (Z.max 1 (negotiated_mtu (st w)
                                           - Z.of_nat (length out + 1)))))).
    { subst k cnt. rewrite Hc'. lia. }
    rewrite IH; [| done | subst cnt; lia | lia].
    rewrite Hk.
    change (ring_pops N (S ?n) (tx (st w)))
      with (let (c, r1) := ring_pop N (tx (st w)) in
            let (l, r2) := ring_pops N n r1 in (c :: l, r2)).
    rewrite Hp. destruct (ring_pops N _ t') as [l r2]. simpl.
    rewrite <- app_assoc. reflexivity.
Qed.

Lemma nth_benign (rets : list Z) (i : nat) :
  Forall (fun e => Z.land e 0x0000FFFF = 0) rets ->
  (Z.land (nth i rets NRF_SUCCESS) 0x0000FFFF =? 0) = true.
Proof.
  intros H. apply Z.eqb_eq. revert i.
  induction H as [| e rets He _ IH]; intros [| i]; simpl; auto.
Qed.

(** Benign events are handled to the end, within the handler's frame. *)
Lemma on_ble_evt_benign (e : ble_evt) (rets : list Z) (w : world) :
  Forall (fun e => Z.land e 0x0000FFFF = 0) rets ->
  exists w', on_ble_evt N e rets w = Returned tt w'.
Proof.
  intros H.
  destruct e; unfold on_ble_evt, sd_call, bind, emit, ret, assert_if, set_st;
    cbn [st hvx idle log]; rewrite ?(nth_benign rets _ H); eauto.
Qed.

Lemma irq_benign (pending : list queued) (w : world) :
  Forall benign pending ->
  exists w', SWI2_IRQHandler N pending w = Returned tt w' /\ handler_frame w w'.
Proof.
  intros H.
  assert (Hr : exists w', SWI2_IRQHandler N pending w = Returned tt w').
  { revert w. induction H as [| q pending Hq _ IH]; intros w; [by exists w |].
    destruct (on_ble_evt_benign (evt q) (sd_ret q) w Hq) as (w1 & H1).
    destruct (IH w1) as (w' & H'). exists w'.
    simpl. unfold bind. by rewrite H1. }
  destruct Hr as (w' & Hr). exists w'. split; [done |].
  pose proof (handler_frame_kept N pending w) as Hf. by rewrite Hr in Hf.
Qed.

Lemma foreground_calls_app (d1 d2 : list (call * state)) :
  foreground_calls (d1 ++ d2) = foreground_calls d1 ++ foreground_calls d2.
Proof. unfold foreground_calls. by rewrite map_app, list.filter_app. Qed.

Lemma foreground_calls_handler (d : list (call * state)) :
  Forall (fun e => foreground (fst e) = false) d -> foreground_calls d = [].
Proof.
  unfold foreground_calls. induction 1 as [| [c s] d Hc _ IH]; [done |].
  simpl in *. rewrite filter_cons_False; [done |]. by rewrite Hc.
Qed.

(** The retry loop, for a script that answers [NRF_ERROR_RESOURCES] to the
    first attempts and then a code that ends the loop, with benign events
    only. *)
Lemma hvx_try_again_spec (vh : Z) (out : list byte) (e : Z) (last : list queued)
    (rest : list reply) (batches : list (list queued)) (w : world) :
  ends_retry e ->
  Forall (Forall benign) batches -> Forall benign last ->
  Forall (Forall benign) (firstn (length batches) (idle w)) ->
  exists w' conns d,
    hvx_try_again N (map (Reply NRF_ERROR_RESOURCES) batches
                     ++ Reply e last :: rest) vh out w = Returned tt w' /\
    hvx w' = rest /\ idle w' = skipn (length batches) (idle w) /\
    tx (st w') = tx (st w) /\
    length conns = S (length batches) /\
    hd_error conns = Some (connection (st w)) /\
    log w' = log w ++ d /\
    foreground_calls d = attempts conns vh out.
Proof.
  intros He Hb Hl. revert w.
  induction Hb as [| b batches Hb0 Hb IH]; intros w Hi.
  - set (w1 := World (st w) rest (idle w)
                     (log w ++ [(sd_ble_gatts_hvx (connection (st w)) vh out,
                                 st w)])).
    destruct (irq_benign last w1 Hl) as (w2 & H2 & F2).
    destruct F2 as (Ftx & Fvh & _ & Fh & Fi & (d2 & Fl & Fd)).
    exists w2, [connection (st w)],
      ((sd_ble_gatts_hvx (connection (st w)) vh out, st w) :: d2).
    split.
    { simpl. unfold hvx_attempt, bind, emit. cbn [st hvx idle log err served].
      fold w1. rewrite H2.
      destruct He as [-> | [-> | ->]]; reflexivity. }
    repeat split; try done.
    + rewrite Fl. subst w1. simpl. by rewrite <- app_assoc.
    + change (foreground_calls
                ([(sd_ble_gatts_hvx (connection (st w)) vh out, st w)] ++ d2)
              = [sd_ble_gatts_hvx (connection (st w)) vh out]).
      rewrite foreground_calls_app, (foreground_calls_handler d2 Fd). done.
  - set (c1 := sd_ble_gatts_hvx (connection (st w)) vh out).
    set (rs := map (Reply NRF_ERROR_RESOURCES) batches ++ Reply e last :: rest).
    set (w1 := World (st w) rs (idle w) (log w ++ [(c1, st w)])).
    destruct (irq_benign b w1 Hb0) as (w2 & H2 & F2).
    destruct F2 as (Ftx2 & Fvh2 & _ & Fh2 & Fi2 & (d2 & Fl2 & Fd2)).
    set (w2' := World (st w2) (hvx w2) (tl (idle w2))
                      (log w2 ++ [(NRFX_DELAY_US 100, st w2)])).
    assert (Hhd : Forall benign (hd [] (idle w2))).
    { rewrite Fi2. subst w1. simpl. destruct (idle w) as [| i0 il]; simpl in *.
      - constructor.
      - by inversion Hi. }
    destruct (irq_benign (hd [] (idle w2)) w2' Hhd) as (w3 & H3 & F3).
    destruct F3 as (Ftx3 & Fvh3 & _ & Fh3 & Fi3 & (d3 & Fl3 & Fd3)).
    assert (Hi3 : Forall (Forall benign) (firstn (length batches) (idle w3))).
    { rewrite Fi3. subst w2'. cbn [idle]. rewrite Fi2. subst w1. cbn [idle].
      destruct (idle w) as [| i0 il]; simpl in *.
      - rewrite firstn_nil. constructor.
      - by inversion Hi. }
    destruct (IH w3 Hi3) as (w' & conns & d & Hr & Hh & Hid & Htx & Hlen & Hhd' & Hlog & Hfg).
    exists w', (connection (st w) :: conns),
      ((c1, st w) :: d2 ++ (NRFX_DELAY_US 100, st w2) :: d3 ++ d).
    split.
    { change (hvx_try_again N
                (map (Reply NRF_ERROR_RESOURCES) (b :: batches)
                 ++ Reply e last :: rest) vh out w)
        with (bind (fun w => Returned tt (World (st w) rs (idle w) (log w)))
                   (fun _ => hvx_attempt N (Reply NRF_ERROR_RESOURCES b) vh out
                                         (hvx_try_again N rs vh out)) w).
      unfold hvx_attempt, bind, emit. cbn [st hvx idle log err served].
      fold c1. fold w1. rewrite H2.
      change (NRF_ERROR_RESOURCES =? NRF_ERROR_INVALID_STATE) with false.
      change (NRF_ERROR_RESOURCES =? BLE_ERROR_INVALID_CONN_HANDLE) with false.
      change (NRF_ERROR_RESOURCES =? NRF_ERROR_RESOURCES) with true.
      cbv iota. simpl orb. cbv iota.
      unfold serve_idle. cbn [st hvx idle log orb]. cbv beta. fold w2'. rewrite H3.
      assert (Hrs : hvx w3 = rs).
      { rewrite Fh3. subst w2'. cbn [hvx]. rewrite Fh2. done. }
      exact Hr. }
    split; [done |].
    split.
    { rewrite Hid, Fi3. subst w2'. cbn [idle]. rewrite Fi2. subst w1. cbn [idle].
      destruct (idle w); simpl; [by rewrite skipn_nil | done]. }
    split.
    { rewrite Htx, Ftx3. subst w2'. cbn [st]. rewrite Ftx2. done. }
    split; [simpl; lia |].
    split; [done |].
    split.
    { rewrite Hlog, Fl3. subst w2'. cbn [log]. rewrite Fl2. subst w1. cbn [log].
      rewrite <- !app_assoc. reflexivity. }
    { change ((c1, st w) :: d2 ++ (NRFX_DELAY_US 100, st w2) :: d3 ++ d)
        with ([(c1, st w)] ++ d2 ++ [(NRFX_DELAY_US 100, st w2)] ++ d3 ++ d).
      rewrite !foreground_calls_app.
      rewrite (foreground_calls_handler d2 Fd2), (foreground_calls_handler d3 Fd3).
      rewrite Hfg. destruct conns as [| c2 conns]; [simpl in Hlen; lia |].
      reflexivity. }
Qed.

(** One call with [tx] not empty, answered [NRF_SUCCESS] at once, no
    event served: the chunk is taken off [tx] and sent, nothing else
    changes. *)
Lemma send_once (w : world) (rest : list reply) :
  ring_wf N (tx (st w)) -> ~ ring_empty (tx (st w)) ->
  let k := Z.to_nat (Z.min (ring_count N (tx (st w)))
                           (Z.max 1 (negotiated_mtu (st w)))) in
  Z.of_nat k <= MAX_MTU_LENGTH ->
  hvx w = Reply NRF_SUCCESS [] :: rest ->
  let s' := set_tx (snd (ring_pops N k (tx (st w)))) (st w) in
  ble_send_pending_data N w =
  Returned tt
    (World s' rest (idle w)
           (log w ++ [(sd_ble_gatts_hvx (connection (st w))
                                        (tx_value_handle (st w))
                                        (fst (ring_pops N k (tx (st w)))), s')])).
Proof.
  intros Hwf Hne k Hk Hs s'.
  pose proof (ring_count_range N _ Hwf) as Hr.
  unfold ble_send_pending_data.
  destruct (Z.eqb_spec (head (tx (st w))) (tail (tx (st w)))); [done |].
  unfold bind. rewrite (tx_drain_spec); cbn [length Z.of_nat];
    rewrite ?Z.sub_0_r; try done; try lia.
  fold k. cbn [app hvx st]. rewrite Hs. reflexivity.
Qed.

(** [n] calls in a row, each attempt answered [NRF_SUCCESS] and no event
    served, with [n] large enough to empty [tx]: what is sent, chunk after
    chunk, is what [tx] held, in order. *)
Lemma tx_sent_in_order (n m : nat) (w : world) :
  ring_wf N (tx (st w)) ->
  negotiated_mtu (st w) <= MAX_MTU_LENGTH ->
  hvx w = repeat (Reply NRF_SUCCESS []) m -> (n <= m)%nat ->
  ring_count N (tx (st w)) <= Z.of_nat n * Z.max 1 (negotiated_mtu (st w)) ->
  exists w' d,
    replicateM n (ble_send_pending_data N) w = Returned (repeat tt n) w' /\
    log w' = log w ++ d /\
    foreground_calls d = map fst d /\
    sent (map fst d) = ring_contents N (tx (st w)) /\
    ring_empty (tx (st w')) /\ rx (st w') = rx (st w).
Proof.
  revert m w. induction n as [| n IH]; intros m w Hwf Hmtu Hs Hnm Hcnt;
    pose proof (ring_count_range N _ Hwf) as Hr.
  - assert (Hc : ring_count N (tx (st w)) = 0) by lia.
    exists w, []. simpl. unfold ring_contents. rewrite Hc, app_nil_r.
    split_and!; try done.
    by apply (ring_empty_count N N_range _ Hwf).
  - change (replicateM (S n) (ble_send_pending_data N) w)
      with (bind (ble_send_pending_data N)
                 (fun a => bind (replicateM n (ble_send_pending_data N))
                                (fun l => ret (a :: l))) w).
    destruct (Z.eq_dec (head (tx (st w))) (tail (tx (st w)))) as [He | Hne].
    + assert (Hc : ring_count N (tx (st w)) = 0).
      { by apply (ring_empty_count N N_range _ Hwf). }
      destruct (IH m w Hwf Hmtu Hs ltac:(lia) ltac:(nia))
        as (w' & d & Hrun & Hx).
      exists w', d. split; [| done].
      unfold bind at 1. unfold ble_send_pending_data at 1.
      rewrite He, Z.eqb_refl. unfold ret at 1. unfold bind. rewrite Hrun. done.
    + destruct m as [| m]; [lia |]. simpl in Hs.
      set (k := Z.to_nat (Z.min (ring_count N (tx (st w)))
                                (Z.max 1 (negotiated_mtu (st w))))).
      assert (Hc : 0 < ring_count N (tx (st w))) by (by apply ring_count_pos).
      destruct (ring_pops N k (tx (st w))) as [l r'] eqn:Hp.
      destruct (ring_pops_contents N N_range k _ r' l Hwf)
        as (Hl' & Hwf' & _ & _ & Hc' & Hk'); [subst k; lia | done |].
      pose proof (send_once w (repeat (Reply NRF_SUCCESS []) m) Hwf Hne) as H1.
      cbv zeta in H1. fold k in H1. rewrite Hp in H1. cbn [fst snd] in H1.
      specialize (H1 ltac:(subst k; unfold MAX_MTU_LENGTH in *; lia) Hs).
      set (w1 := World (set_tx r' (st w)) (repeat (Reply NRF_SUCCESS []) m)
                       (idle w)
                       (log w ++ [(sd_ble_gatts_hvx (connection (st w))
                                                    (tx_value_handle (st w)) l,
                                   set_tx r' (st w))])) in *.
      destruct (IH m w1) as (w' & d & Hrun & Hlog & Hfg & Hsent & Hemp & Hrx);
        try done; try lia.
      { subst w1. cbn [st tx set_tx negotiated_mtu]. rewrite Hc'. subst k. nia. }
      exists w', ((sd_ble_gatts_hvx (connection (st w))
                                    (tx_value_handle (st w)) l,
                   set_tx r' (st w)) :: d).
      split.
      { unfold bind at 1. rewrite H1. unfold bind. rewrite Hrun. done. }
      split.
      { rewrite Hlog. subst w1. cbn [log]. by rewrite <- app_assoc. }
      split.
      { change (foreground_calls
                  ([(sd_ble_gatts_hvx (connection (st w))
                                      (tx_value_handle (st w)) l,
                     set_tx r' (st w))] ++ d)
                = sd_ble_gatts_hvx (connection (st w))
                                   (tx_value_handle (st w)) l :: map fst d).
        rewrite foreground_calls_app, Hfg. reflexivity. }
      split.
      { simpl. rewrite Hsent. subst w1. cbn [st tx set_tx].
        rewrite Hk', Hl'. by rewrite firstn_skipn. }
      done.
Qed.

End Sender.

(** One call of [ble_send_pending_data] with something in [tx], a limit
    within [out_buffer], and a script that answers [NRF_ERROR_RESOURCES] to
    the first attempts and then a code that ends the loop: the chunk is
    taken off [tx] once, and every attempt sends that chunk. *)
Lemma ble_send_pending_data_spec (N : Z) (w : world) (e : Z)
    (batches : list (list queued)) (last : list queued) (rest : list reply) :
  0 < N < 65536 ->
  ring_wf N (tx (st w)) -> ~ ring_empty (tx (st w)) ->
  Z.min (ring_count N (tx (st w))) (Z.max 1 (negotiated_mtu (st w)))
    <= MAX_MTU_LENGTH ->
  ends_retry e ->
  hvx w = map (Reply NRF_ERROR_RESOURCES) batches ++ Reply e last :: rest ->
  Forall (Forall benign) batches -> Forall benign last ->
  Forall (Forall benign) (firstn (length batches) (idle w)) ->
  let k := Z.to_nat (Z.min (ring_count N (tx (st w)))
                           (Z.max 1 (negotiated_mtu (st w)))) in
  let chunk := firstn k (ring_contents N (tx (st w))) in
  exists w' conns d,
    ble_send_pending_data N w = Returned tt w' /\
    log w' = log w ++ d /\
    foreground_calls d = attempts conns (tx_value_handle (st w)) chunk /\
    length conns = S (length batches) /\
    hd_error conns = Some (connection (st w)) /\
    chunk <> [] /\
    ring_contents N (tx (st w)) = chunk ++ ring_contents N (tx (st w')) /\
    (head (tx (st w')) = head (tx (st w)) /\
     buffer (tx (st w')) = buffer (tx (st w))) /\
    ring_wf N (tx (st w')) /\
    hvx w' = rest /\ idle w' = skipn (length batches) (idle w).
Proof.
  intros HN Hwf Hne Hmtu He Hs Hb Hl Hi k chunk.
  pose proof (ring_count_range N _ Hwf) as Hr.
  assert (Hc : 0 < ring_count N (tx (st w))) by (by apply ring_count_pos).
  assert (Hk : (1 <= k)%nat) by (subst k; lia).
  destruct (ring_pops N k (tx (st w))) as [l r'] eqn:Hp.
  destruct (ring_pops_contents N HN k _ r' l Hwf)
    as (Hl' & Hwf' & Hhead & Hbuf & _ & Hk'); [subst k; lia | done |].
  set (w1 := World (set_tx r' (st w)) (hvx w) (idle w) (log w)).
  destruct (hvx_try_again_spec N (tx_value_handle (st w)) l e last rest
                               batches w1 He Hb Hl Hi)
    as (w' & conns & d & Hr' & Hh & Hid & Htx & Hlen & Hhd & Hlog & Hfg).
  exists w', conns, d.
  assert (Hrun : ble_send_pending_data N w = Returned tt w').
  { unfold ble_send_pending_data.
    destruct (Z.eqb_spec (head (tx (st w))) (tail (tx (st w)))); [done |].
    unfold bind. rewrite (tx_drain_spec N HN); cbn [length Z.of_nat];
      try done; try (unfold MAX_MTU_LENGTH in *; lia).
    rewrite Z.sub_0_r. fold k. rewrite Hp. cbn [fst snd app hvx].
    fold w1. rewrite Hs. exact Hr'. }
  assert (Hchunk : l = chunk) by done.
  assert (Htx' : tx (st w') = r') by (by rewrite Htx).
  rewrite <- Hchunk, Htx'.
  split_and!; try done.
  - intros ->. subst k. symmetry in Hl'. apply take_nil_inv in Hl'.
    destruct Hl' as [Hl' | Hl']; [lia |].
    unfold ring_contents in Hl'.
    destruct (Z.to_nat (ring_count N (tx (st w)))) eqn:Hz; [lia | done].
  - rewrite Hk', Hl'. by rewrite firstn_skipn.
Qed.

(** ** C3: retry on congestion *)

(** C3. [tx] is not empty, the limit is within [out_buffer], the SoftDevice
    answers [NRF_ERROR_RESOURCES] to the first [n - 1] attempts and
    [NRF_SUCCESS] to the [n]-th, and no event served meanwhile resets the
    chip: then [ble_send_pending_data] returns after exactly [n] calls of
    [sd_ble_gatts_hvx] with a 100 us delay between two of them, every call
    carries the chunk taken off [tx] at the start, and [tx] is left with
    what followed the chunk: nothing is put back, sent twice or lost. *)
Theorem congestion_retry (N : Z) (w : world)
    (batches : list (list queued)) (last : list queued) (rest : list reply) :
  0 < N < 65536 ->
  ring_wf N (tx (st w)) -> ~ ring_empty (tx (st w)) ->
  Z.min (ring_count N (tx (st w))) (Z.max 1 (negotiated_mtu (st w)))
    <= MAX_MTU_LENGTH ->
  hvx w = map (Reply NRF_ERROR_RESOURCES) batches
          ++ Reply NRF_SUCCESS last :: rest ->
  Forall (Forall benign) batches -> Forall benign last ->
  Forall (Forall benign) (firstn (length batches) (idle w)) ->
  let k := Z.to_nat (Z.min (ring_count N (tx (st w)))
                           (Z.max 1 (negotiated_mtu (st w)))) in
  let chunk := firstn k (ring_contents N (tx (st w))) in
  exists w' conns d,
    ble_send_pending_data N w = Returned tt w' /\
    log w' = log w ++ d /\
    foreground_calls d = attempts conns (tx_value_handle (st w)) chunk /\
    length conns = S (length batches) /\
    chunk <> [] /\
    ring_contents N (tx (st w)) = chunk ++ ring_contents N (tx (st w')) /\
    (head (tx (st w')) = head (tx (st w)) /\
     buffer (tx (st w')) = buffer (tx (st w))) /\
    hvx w' = rest.
Proof.
  intros HN Hwf Hne Hmtu Hs Hb Hl Hi k chunk.
  destruct (ble_send_pending_data_spec N w NRF_SUCCESS batches last rest)
    as (w' & conns & d & H1 & H2 & H3 & H4 & _ & H5 & H6 & H7 & _ & H8 & _);
    try done; [by left |].
  by exists w', conns, d.
Qed.

Lemma congestion_retry_witness :
  let w := World (State 7 1 16 2 (ring_init 8)
                        (Ring ["a"; "b"; "c"; "000"; "000"; "000"; "000"; "000"]%byte
                              3 0))
                 [Reply NRF_ERROR_RESOURCES []; Reply NRF_ERROR_RESOURCES [];
                  Reply NRF_SUCCESS []] [] [] in
  exists w' conns d,
    ble_send_pending_data 8 w = Returned tt w' /\
    log w' = [] ++ d /\
    foreground_calls d = attempts conns 16 ["a"; "b"]%byte /\
    length conns = 3%nat /\
    ["a"; "b"]%byte <> [] /\
    ["a"; "b"; "c"]%byte = ["a"; "b"]%byte ++ ring_contents 8 (tx (st w')) /\
    (head (tx (st w')) = 3 /\
     buffer (tx (st w'))
     = ["a"; "b"; "c"; "000"; "000"; "000"; "000"; "000"]%byte) /\
    hvx w' = [].
Proof.
  intros w.
  apply (congestion_retry 8 w [[]; []] [] []).
  - lia.
  - repeat split; simpl; lia.
  - discriminate.
  - vm_compute. discriminate.
  - reflexivity.
  - repeat constructor.
  - constructor.
  - constructor.
Defined.

(** ** C7: not connected *)

(** C7. When an attempt is answered [NRF_ERROR_INVALID_STATE] or
    [BLE_ERROR_INVALID_CONN_HANDLE] (after any number of attempts answered
    [NRF_ERROR_RESOURCES]), [ble_send_pending_data] returns: that attempt
    is its last call, with no delay and no reset after it, and the chunk is
    gone from [tx]. The first attempt uses the connection handle as it is
    at the call, [BLE_CONN_HANDLE_INVALID] after a disconnect. *)
Theorem not_connected_discards (N : Z) (w : world) (e : Z)
    (batches : list (list queued)) (last : list queued) (rest : list reply) :
  0 < N < 65536 ->
  ring_wf N (tx (st w)) -> ~ ring_empty (tx (st w)) ->
  Z.min (ring_count N (tx (st w))) (Z.max 1 (negotiated_mtu (st w)))
    <= MAX_MTU_LENGTH ->
  e = NRF_ERROR_INVALID_STATE \/ e = BLE_ERROR_INVALID_CONN_HANDLE ->
  hvx w = map (Reply NRF_ERROR_RESOURCES) batches ++ Reply e last :: rest ->
  Forall (Forall benign) batches -> Forall benign last ->
  Forall (Forall benign) (firstn (length batches) (idle w)) ->
  let k := Z.to_nat (Z.min (ring_count N (tx (st w)))
                           (Z.max 1 (negotiated_mtu (st w)))) in
  let chunk := firstn k (ring_contents N (tx (st w))) in
  exists w' conns d,
    ble_send_pending_data N w = Returned tt w' /\
    log w' = log w ++ d /\
    foreground_calls d = attempts conns (tx_value_handle (st w)) chunk /\
    length conns = S (length batches) /\
    hd_error conns = Some (connection (st w)) /\
    chunk <> [] /\
    ring_contents N (tx (st w)) = chunk ++ ring_contents N (tx (st w')) /\
    (head (tx (st w')) = head (tx (st w)) /\
     buffer (tx (st w')) = buffer (tx (st w))) /\
    hvx w' = rest.
Proof.
  intros HN Hwf Hne Hmtu He Hs Hb Hl Hi k chunk.
  destruct (ble_send_pending_data_spec N w e batches last rest)
    as (w' & conns & d & H1 & H2 & H3 & H4 & H5 & H6 & H7 & H8 & _ & H9 & _);
    try done; [right; exact He |].
  by exists w', conns, d.
Qed.

Lemma not_connected_discards_witness :
  let w := World (State 7 1 16 2 (ring_init 8)
                        (Ring ["a"; "b"; "c"; "000"; "000"; "000"; "000"; "000"]%byte
                              3 0))
                 [Reply NRF_ERROR_RESOURCES [Queued (BLE_GAP_EVT_DISCONNECTED 7) []];
                  Reply BLE_ERROR_INVALID_CONN_HANDLE []] [] [] in
  exists w' conns d,
    ble_send_pending_data 8 w = Returned tt w' /\
    log w' = [] ++ d /\
    foreground_calls d = attempts conns 16 ["a"; "b"]%byte /\
    length conns = 2%nat /\
    hd_error conns = Some 7 /\
    ["a"; "b"]%byte <> [] /\
    ["a"; "b"; "c"]%byte = ["a"; "b"]%byte ++ ring_contents 8 (tx (st w')) /\
    (head (tx (st w')) = 3 /\
     buffer (tx (st w'))
     = ["a"; "b"; "c"; "000"; "000"; "000"; "000"; "000"]%byte) /\
    hvx w' = [].
Proof.
  intros w.
  apply (not_connected_discards 8 w BLE_ERROR_INVALID_CONN_HANDLE
           [[Queued (BLE_GAP_EVT_DISCONNECTED 7) []]] [] []).
  - lia.
  - repeat split; simpl; lia.
  - discriminate.
  - vm_compute. discriminate.
  - by right.
  - reflexivity.
  - repeat constructor.
  - constructor.
  - constructor.
Defined.

(** The run of the witness above, call by call: the first attempt is
    congested, the disconnect is served (advertising restarts), and the
    second attempt, on the invalid handle, ends the call; [tx] keeps the
    byte that followed the chunk. *)
Example disconnect_during_retry :
  let w := World (State 7 1 16 2 (ring_init 8)
                        (Ring ["a"; "b"; "c"; "000"; "000"; "000"; "000"; "000"]%byte
                              3 0))
                 [Reply NRF_ERROR_RESOURCES [Queued (BLE_GAP_EVT_DISCONNECTED 7) []];
                  Reply BLE_ERROR_INVALID_CONN_HANDLE []] [] [] in
  exists w',
    ble_send_pending_data 8 w = Returned tt w' /\
    map fst (log w') =
      [sd_ble_gatts_hvx 7 16 ["a"; "b"]%byte;
       sd_ble_gap_adv_start 1 1;
       NRFX_DELAY_US 100;
       sd_ble_gatts_hvx BLE_CONN_HANDLE_INVALID 16 ["a"; "b"]%byte] /\
    ring_contents 8 (tx (st w')) = ["c"]%byte.
Proof.
  intros w. eexists. split; [vm_compute; reflexivity |].
  split; vm_compute; reflexivity.
Qed.

(** With [negotiated_mtu] at 65535 (see C10) and more than 128 bytes in
    [tx], the drain loop of [ble_send_pending_data] writes past
    [out_buffer]. *)
Example wrapped_mtu_overruns_out_buffer :
  let w0 := World (state_init RING_BUFFER_LENGTH) [] [] [] in
  (mp_hal_stdout_tx_strn RING_BUFFER_LENGTH (repeat "x"%byte 129) ;;
   on_ble_evt RING_BUFFER_LENGTH (BLE_GATTS_EVT_EXCHANGE_MTU_REQUEST 0 2) [] ;;
   ble_send_pending_data RING_BUFFER_LENGTH) w0
  = Undefined
      (World (State BLE_CONN_HANDLE_INVALID BLE_GAP_ADV_SET_HANDLE_NOT_SET 0 65535
                    (ring_init RING_BUFFER_LENGTH)
                    (Ring (repeat "x"%byte 129 ++ repeat "000"%byte 940) 129 128))
             [] []
             [(sd_ble_gatts_exchange_mtu_reply 0 128,
               State BLE_CONN_HANDLE_INVALID BLE_GAP_ADV_SET_HANDLE_NOT_SET 0 0
                     (ring_init RING_BUFFER_LENGTH)
                     (Ring (repeat "x"%byte 129 ++ repeat "000"%byte 940) 129 0))]).
Proof. vm_compute. reflexivity. Qed.

(** ** C8: the blocking read *)







(** ** C2: first in, first out *)

(** C2. For either ring, written to from empty with at most [N - 1] bytes,
    as many reads at the tail give back the written bytes in the order of
    writing. For [rx]: a write event followed by that many calls of
    [mp_hal_stdin_rx_chr] returns the payload byte by byte, with no call
    made, and leaves [rx] empty. For [tx]: after [mp_hal_stdout_tx_strn],
    that many reads at the tail yield the string and leave [tx] empty; and
    when [ble_send_pending_data] does the reads, called often enough with
    every attempt accepted, the chunks it sends are the string, piece after
    piece. *)
Theorem fifo_round_trip (N : Z) (w : world) (bs : list byte)
    (c : Z) (rets : list Z) (fuel n m : nat) :
  0 < N < 65536 ->
  Z.of_nat (length bs) <= N - 1 ->
  (ring_wf N (rx (st w)) -> ring_empty (rx (st w)) ->
   exists w1 w2,
     on_ble_evt N (BLE_GATTS_EVT_WRITE c bs) rets w = Returned tt w1 /\
     replicateM (length bs) (mp_hal_stdin_rx_chr N fuel) w1 =
       Returned (map chr bs) w2 /\
     ring_empty (rx (st w2)) /\ log w2 = log w) /\
  (ring_wf N (tx (st w)) -> ring_empty (tx (st w)) ->
   exists w1 r',
     mp_hal_stdout_tx_strn N bs w = Returned tt w1 /\
     ring_pops N (length bs) (tx (st w1)) = (bs, r') /\
     ring_empty r' /\
     (negotiated_mtu (st w) <= MAX_MTU_LENGTH ->
      hvx w = repeat (Reply NRF_SUCCESS []) m -> (n <= m)%nat ->
      Z.of_nat (length bs) <= Z.of_nat n * Z.max 1 (negotiated_mtu (st w)) ->
      exists w2 d,
        replicateM n (ble_send_pending_data N) w1 = Returned (repeat tt n) w2 /\
        log w2 = log w ++ d /\
        sent (map fst d) = bs /\
        ring_empty (tx (st w2)))).
Proof.
  intros HN Hlen. split; intros Hwf He.
  - destruct (ring_fifo N HN _ bs Hwf He Hlen) as (r' & Hp & Hwf' & He').
    destruct (ring_write_contents N HN bs _ Hwf) as (Hwf1 & _ & Hc1 & _).
    apply (ring_empty_count N HN _ Hwf) in He.
    rewrite He, firstn_all2 in Hc1 by lia.
    eexists _, _. split; [apply on_write_evt |]. split.
    + rewrite (rx_chr_many N HN);
        [cbn [st rx set_rx] | cbn [st rx set_rx]; done | cbn [st rx set_rx]; lia].
      rewrite Hp. reflexivity.
    + split; [exact He' | reflexivity].
  - destruct (ring_fifo N HN _ bs Hwf He Hlen) as (r' & Hp & Hwf' & He').
    destruct (ring_write_contents N HN bs _ Hwf) as (Hwf1 & _ & Hc1 & Hk1).
    apply (ring_empty_count N HN _ Hwf) in He.
    rewrite He, firstn_all2 in Hc1, Hk1 by lia.
    unfold ring_contents at 2 in Hk1. rewrite He in Hk1. simpl in Hk1.
    eexists _, r'. split; [apply tx_strn_eq |].
    split; [exact Hp |]. split; [exact He' |].
    intros Hmtu Hs Hnm Hn.
    destruct (tx_sent_in_order N HN n m
                (World (set_tx (ring_write N (tx (st w)) bs) (st w))
                       (hvx w) (idle w) (log w)))
      as (w2 & d & Hrun & Hlog & _ & Hsent & Hemp & _); try done.
    { cbn [st tx set_tx negotiated_mtu]. lia. }
    exists w2, d. cbn [st tx set_tx] in Hsent. rewrite Hk1 in Hsent. done.
Qed.

Lemma fifo_round_trip_witness :
  let w := World (State 7 1 16 2 (ring_init 8) (ring_init 8))
                 (repeat (Reply NRF_SUCCESS []) 2) [] [] in
  (exists w1 w2,
     on_ble_evt 8 (BLE_GATTS_EVT_WRITE 0 ["a"; "b"; "c"]%byte) [] w
       = Returned tt w1 /\
     replicateM 3 (mp_hal_stdin_rx_chr 8 0) w1 = Returned [97; 98; 99] w2 /\
     ring_empty (rx (st w2)) /\ log w2 = []) /\
  (exists w1 w2 d,
     mp_hal_stdout_tx_strn 8 ["a"; "b"; "c"]%byte w = Returned tt w1 /\
     replicateM 2 (ble_send_pending_data 8) w1 = Returned [tt; tt] w2 /\
     log w2 = [] ++ d /\
     sent (map fst d) = ["a"; "b"; "c"]%byte /\
     ring_empty (tx (st w2))).
Proof.
  intros w.
  assert (HN : 0 < 8 < 65536) by lia.
  assert (Hlen : Z.of_nat (length ["a"; "b"; "c"]%byte) <= 8 - 1) by (simpl; lia).
  assert (Hwf : ring_wf 8 (ring_init 8)) by (repeat split; simpl; lia).
  destruct (fifo_round_trip 8 w ["a"; "b"; "c"]%byte 0 [] 0 2 2 HN Hlen)
    as [Hrx Htx].
  split.
  - exact (Hrx Hwf eq_refl).
  - destruct (Htx Hwf eq_refl) as (w1 & r' & H1 & _ & _ & H4).
    destruct H4 as (w2 & d & H5 & H6 & H7 & H8).
    + vm_compute. discriminate.
    + reflexivity.
    + lia.
    + simpl. lia.
    + exists w1, w2, d. done.
Defined.

(** * Further properties of the transport *)

Section MoreTransport.

Variable N : Z.
Hypothesis N_range : 0 < N < 65536.

Lemma ring_slice_length (buf : list byte) (n : nat) (i : Z) :
  length (ring_slice N buf i n) = n.
Proof. revert i. induction n as [| n IH]; intros i; simpl; [done | by rewrite IH]. Qed.

Lemma ring_contents_length (r : ring) :
  ring_wf N r -> Z.of_nat (length (ring_contents N r)) = ring_count N r.
Proof.
  intros Hwf. pose proof (ring_count_range N r Hwf).
  unfold ring_contents. rewrite ring_slice_length. lia.
Qed.

Lemma ring_guarded_step (r : ring) (o : ring_op) :
  ring_wf N r ->
  ring_wf N (ring_guarded N r o) /\
  ring_contents N (ring_guarded N r o) = queue_step (N - 1) (ring_contents N r) o.
Proof.
  intros Hwf. pose proof (ring_count_range N r Hwf) as Hr.
  pose proof (ring_contents_length r Hwf) as Hlen.
  destruct o as [c |]; simpl.
  - destruct (ring_push N r c) as [r' |] eqn:Hp; simpl.
    + destruct (ring_push_contents N N_range r r' c Hwf Hp) as (Hwf' & Hc & _ & Hk).
      pose proof (ring_count_range N r' Hwf').
      split; [done |]. rewrite Hk.
      destruct (Z.ltb_spec (Z.of_nat (length (ring_contents N r))) (N - 1));
        [done | lia].
    + split; [done |].
      destruct (Z.ltb_spec (Z.of_nat (length (ring_contents N r))) (N - 1));
        [| done].
      destruct (ring_push_Some N N_range r c Hwf) as (r' & Hp' & _); [lia |].
      congruence.
  - destruct (Z.eqb_spec (head r) (tail r)) as [He | Hne].
    + split; [done |].
      apply (ring_empty_count N N_range r Hwf) in He.
      unfold ring_contents. rewrite He. reflexivity.
    + destruct (ring_pop N r) as [c r'] eqn:Hp.
      destruct (ring_pop_contents N N_range r r' c Hwf) as (Hwf' & _ & _ & _ & Hk);
        [by apply ring_count_pos | done |].
      unfold ring_pop in Hp. injection Hp as _ <-.
      simpl. split; [done |]. by rewrite Hk.
Qed.

End MoreTransport.

(** X1. Whatever pushes and guarded reads are done on a well-formed ring,
    wherever its indices stand (so also across the wrap of the indices),
    its live bytes are those of a first-in first-out queue of at most
    [N - 1] bytes that went through the same steps: a push on the full
    queue and a read on the empty one change nothing. *)
Theorem ring_is_bounded_queue (N : Z) (ops : list ring_op) (r : ring) :
  0 < N < 65536 -> ring_wf N r ->
  ring_contents N (fold_left (ring_guarded N) ops r)
  = fold_left (queue_step (N - 1)) ops (ring_contents N r).
Proof.
  intros HN. revert r. induction ops as [| o ops IH]; intros r Hwf; simpl; [done |].
  destruct (ring_guarded_step N HN r o Hwf) as [Hwf' Hk].
  rewrite IH by done. by rewrite Hk.
Qed.

Lemma ring_is_bounded_queue_witness :
  ring_contents 4 (fold_left (ring_guarded 4)
                     [op_push "d"; op_push "e"; op_pop; op_push "f";
                      op_push "g"; op_push "h"]%byte
                     (Ring ["a"; "b"; "c"; "000"]%byte 3 2))
  = fold_left (queue_step (4 - 1))
              [op_push "d"; op_push "e"; op_pop; op_push "f";
               op_push "g"; op_push "h"]%byte
              (ring_contents 4 (Ring ["a"; "b"; "c"; "000"]%byte 3 2)).
Proof.
  apply (ring_is_bounded_queue 4).
  - lia.
  - repeat split; simpl; lia.
Defined.

(** X2. [mp_hal_stdout_tx_strn] never fails and never blocks: it appends
    to [tx] the longest prefix of the string that fits in the [N - 1]
    bytes the ring takes, drops the rest, makes no call, and leaves [rx]
    and the read index of [tx] alone. *)
Theorem tx_strn_keeps_what_fits (N : Z) (str : list byte) (w : world) :
  0 < N < 65536 -> ring_wf N (tx (st w)) ->
  exists w',
    mp_hal_stdout_tx_strn N str w = Returned tt w' /\
    ring_contents N (tx (st w'))
    = ring_contents N (tx (st w))
      ++ firstn (Z.to_nat (N - 1 - ring_count N (tx (st w)))) str /\
    ring_wf N (tx (st w')) /\
    tail (tx (st w')) = tail (tx (st w)) /\
    rx (st w') = rx (st w) /\ log w' = log w.
Proof.
  intros HN Hwf.
  destruct (ring_write_contents N HN str _ Hwf) as (Hwf' & Ht & _ & Hk).
  eexists. split; [apply tx_strn_eq |]. by cbn [st tx rx set_tx log].
Qed.

Lemma tx_strn_keeps_what_fits_witness :
  exists w',
    mp_hal_stdout_tx_strn 4 ["d"; "e"; "f"]%byte
      (World (State 0 0 0 0 (ring_init 4) (Ring ["a"; "b"; "c"; "000"]%byte 3 2))
             [] [] []) = Returned tt w' /\
    ring_contents 4 (tx (st w'))
    = ["c"]%byte ++ firstn (Z.to_nat (4 - 1 - 1)) ["d"; "e"; "f"]%byte /\
    ring_wf 4 (tx (st w')) /\
    tail (tx (st w')) = 2 /\
    rx (st w') = ring_init 4 /\ log w' = [].
Proof.
  apply (tx_strn_keeps_what_fits 4 ["d"; "e"; "f"]%byte
           (World (State 0 0 0 0 (ring_init 4)
                         (Ring ["a"; "b"; "c"; "000"]%byte 3 2)) [] [] [])).
  - lia.
  - repeat split; simpl; lia.
Defined.

Lemma ring_write_tail (N : Z) (r : ring) (str : list byte) :
  tail (ring_write N r str) = tail r.
Proof.
  revert r. induction str as [| c str IH]; intros r; simpl; [done |].
  unfold ring_push. destruct (_ =? _); [done |]. by rewrite IH.
Qed.

(** X3. Each ring has one writer and one reader. The event handler, the
    writer of [rx], leaves [tx] and the read index of [rx] as they are;
    [mp_hal_stdout_tx_strn], the writer of [tx], leaves [rx] and the read
    index of [tx] as they are; [ble_send_pending_data] and
    [mp_hal_stdin_rx_chr], with all the events served while they run,
    leave the write index and the storage of [tx] as they are, and the
    former also the read index of [rx]. This holds however the function
    ends. *)
Theorem one_writer_one_reader (N : Z) :
  (forall pending,
     rel_ok (fun w w' => tx (st w') = tx (st w) /\
                         tail (rx (st w')) = tail (rx (st w)))
            (SWI2_IRQHandler N pending)) /\
  (forall str,
     rel_ok (fun w w' => rx (st w') = rx (st w) /\
                         tail (tx (st w')) = tail (tx (st w)))
            (mp_hal_stdout_tx_strn N str)) /\
  rel_ok (fun w w' => head (tx (st w')) = head (tx (st w)) /\
                      buffer (tx (st w')) = buffer (tx (st w)) /\
                      tail (rx (st w')) = tail (rx (st w)))
         (ble_send_pending_data N) /\
  (forall fuel,
     rel_ok (fun w w' => head (tx (st w')) = head (tx (st w)) /\
                         buffer (tx (st w')) = buffer (tx (st w)))
            (mp_hal_stdin_rx_chr N fuel)).
Proof.
  split_and!.
  - intros pending. apply SWI2_IRQHandler_rel; try done.
    + intros w1 w2 w3 [A1 B1] [A2 B2]. split; congruence.
    + intros str w. split; [done |]. simpl. apply ring_write_tail.
  - intros str. apply mp_hal_stdout_tx_strn_rel.
    intros s w. split; [done |]. simpl. apply ring_write_tail.
  - apply ble_send_pending_data_rel; try done.
    + intros w1 w2 w3 (A1 & B1 & C1) (A2 & B2 & C2). split_and!; congruence.
    + intros str w. split_and!; try done. simpl. apply ring_write_tail.
  - intros fuel. apply mp_hal_stdin_rx_chr_rel; try done.
    intros w1 w2 w3 (A1 & B1) (A2 & B2). split; congruence.
Qed.

(** X4. One call of [ble_send_pending_data] whose attempt is accepted at
    once sends one chunk of min(bytes in [tx], max(1, [negotiated_mtu]))
    bytes and takes that many off [tx]; before any MTU exchange, with
    [negotiated_mtu] still 0, that is one byte per call. *)
Theorem send_chunk_size (N : Z) (w : world) (rest : list reply) :
  0 < N < 65536 ->
  ring_wf N (tx (st w)) -> ~ ring_empty (tx (st w)) ->
  Z.min (ring_count N (tx (st w))) (Z.max 1 (negotiated_mtu (st w)))
    <= MAX_MTU_LENGTH ->
  hvx w = Reply NRF_SUCCESS [] :: rest ->
  exists w' chunk,
    ble_send_pending_data N w = Returned tt w' /\
    map fst (log w')
    = map fst (log w)
      ++ [sd_ble_gatts_hvx (connection (st w)) (tx_value_handle (st w)) chunk] /\
    Z.of_nat (length chunk)
    = Z.min (ring_count N (tx (st w))) (Z.max 1 (negotiated_mtu (st w))) /\
    ring_count N (tx (st w'))
    = ring_count N (tx (st w)) - Z.of_nat (length chunk) /\
    (negotiated_mtu (st w) = 0 -> length chunk = 1%nat).
Proof.
  intros HN Hwf Hne Hfit Hs.
  pose proof (ring_count_range N _ Hwf) as Hr.
  assert (Hc : 0 < ring_count N (tx (st w))) by (by apply ring_count_pos).
  set (k := Z.to_nat (Z.min (ring_count N (tx (st w)))
                            (Z.max 1 (negotiated_mtu (st w))))).
  destruct (ring_pops N k (tx (st w))) as [l r'] eqn:Hp.
  destruct (ring_pops_contents N HN k _ r' l Hwf)
    as (Hl & Hwf' & _ & _ & Hc' & _); [subst k; lia | done |].
  pose proof (send_once N HN w rest Hwf Hne) as H1.
  cbv zeta in H1. fold k in H1. rewrite Hp in H1. cbn [fst snd] in H1.
  specialize (H1 ltac:(subst k; lia) Hs).
  assert (Hlen : length l = k).
  { rewrite Hl, length_take.
    pose proof (ring_contents_length N _ Hwf). subst k. lia. }
  eexists _, l. split; [exact H1 |]. cbn [log st tx set_tx].
  split; [by rewrite map_app |].
  split; [rewrite Hlen; subst k; lia |].
  split; [rewrite Hc', Hlen; done |].
  intros H0. rewrite Hlen. subst k. rewrite H0. lia.
Qed.

Lemma send_chunk_size_witness :
  let w := World (State 7 1 16 0 (ring_init 8)
                        (Ring ["a"; "b"; "c"; "000"; "000"; "000"; "000"; "000"]%byte
                              3 0))
                 [Reply NRF_SUCCESS []] [] [] in
  exists w' chunk,
    ble_send_pending_data 8 w = Returned tt w' /\
    map fst (log w') = [] ++ [sd_ble_gatts_hvx 7 16 chunk] /\
    Z.of_nat (length chunk) = Z.min (ring_count 8 (tx (st w))) (Z.max 1 0) /\
    ring_count 8 (tx (st w')) = ring_count 8 (tx (st w)) - Z.of_nat (length chunk) /\
    (0 = 0 -> length chunk = 1%nat).
Proof.
  intros w. apply (send_chunk_size 8 w []).
  - lia.
  - repeat split; simpl; lia.
  - discriminate.
  - vm_compute. discriminate.
  - reflexivity.
Defined.

(** X5. An attempt answered with a code other than
    [NRF_ERROR_INVALID_STATE], [BLE_ERROR_INVALID_CONN_HANDLE] and
    [NRF_ERROR_RESOURCES] is not retried: [ble_send_pending_data] goes to
    [assert_if], which resets the chip when the bottom 16 bits of the code
    are not all zero and returns otherwise. Either way the chunk has left
    [tx] and that attempt is the only one. *)
Theorem send_other_error (N : Z) (w : world) (e : Z) (events : list queued)
    (rest : list reply) :
  0 < N < 65536 ->
  ring_wf N (tx (st w)) -> ~ ring_empty (tx (st w)) ->
  Z.min (ring_count N (tx (st w))) (Z.max 1 (negotiated_mtu (st w)))
    <= MAX_MTU_LENGTH ->
  hvx w = Reply e events :: rest -> Forall benign events ->
  e <> NRF_ERROR_INVALID_STATE -> e <> BLE_ERROR_INVALID_CONN_HANDLE ->
  e <> NRF_ERROR_RESOURCES ->
  let k := Z.to_nat (Z.min (ring_count N (tx (st w)))
                           (Z.max 1 (negotiated_mtu (st w)))) in
  let chunk := firstn k (ring_contents N (tx (st w))) in
  exists w' d,
    ble_send_pending_data N w
    = (if Z.land e 0x0000FFFF =? 0 then Returned tt w' else SystemReset w') /\
    log w' = log w ++ d /\
    foreground_calls d
    = [sd_ble_gatts_hvx (connection (st w)) (tx_value_handle (st w)) chunk] /\
    (Z.land e 0x0000FFFF <> 0 -> list.last (map fst d) = Some NVIC_SystemReset) /\
    ring_contents N (tx (st w')) = skipn k (ring_contents N (tx (st w))).
Proof.
  intros HN Hwf Hne Hfit Hs Hb E1 E2 E3 k chunk.
  pose proof (ring_count_range N _ Hwf) as Hr.
  assert (Hc : 0 < ring_count N (tx (st w))) by (by apply ring_count_pos).
  destruct (ring_pops N k (tx (st w))) as [l r'] eqn:Hp.
  destruct (ring_pops_contents N HN k _ r' l Hwf)
    as (Hl & Hwf' & _ & _ & _ & Hk'); [subst k; lia | done |].
  set (c1 := sd_ble_gatts_hvx (connection (st w)) (tx_value_handle (st w)) l).
  set (w1 := World (set_tx r' (st w)) rest (idle w)
                   (log w ++ [(c1, set_tx r' (st w))])).
  destruct (irq_benign N events w1 Hb) as (w2 & H2 & F2).
  destruct F2 as (Ftx & _ & _ & _ & _ & (d2 & Fl & Fd)).
  assert (Hrun : ble_send_pending_data N w = assert_if e w2).
  { unfold ble_send_pending_data.
    destruct (Z.eqb_spec (head (tx (st w))) (tail (tx (st w)))); [done |].
    unfold bind. rewrite (tx_drain_spec N HN); cbn [length Z.of_nat];
      rewrite ?Z.sub_0_r; try done; try (fold k; lia).
    fold k. rewrite Hp. cbn [fst snd app hvx st]. rewrite Hs.
    change (hvx_try_again N (Reply e events :: rest) ?vh l ?w0)
      with (bind (fun w => Returned tt (World (st w) rest (idle w) (log w)))
                 (fun _ => hvx_attempt N (Reply e events) vh l
                                       (hvx_try_again N rest vh l)) w0).
    unfold hvx_attempt, bind, emit. cbn [st hvx idle log err served
                                         connection tx_value_handle set_tx].
    fold c1. fold w1. rewrite H2.
    destruct (Z.eqb_spec e NRF_ERROR_INVALID_STATE); [done |].
    destruct (Z.eqb_spec e BLE_ERROR_INVALID_CONN_HANDLE); [done |].
    destruct (Z.eqb_spec e NRF_ERROR_RESOURCES); [done |].
    reflexivity. }
  rewrite Hrun. unfold assert_if.
  destruct (Z.eqb_spec (Z.land e 65535) 0) as [Hz | Hnz].
  - exists w2, ((c1, set_tx r' (st w)) :: d2).
    split; [done |].
    split; [rewrite Fl; subst w1; cbn [log]; by rewrite <- app_assoc |].
    split.
    { change ((c1, set_tx r' (st w)) :: d2) with ([(c1, set_tx r' (st w))] ++ d2).
      rewrite foreground_calls_app, (foreground_calls_handler d2 Fd).
      subst c1 chunk. by rewrite Hl. }
    split; [done |].
    rewrite Ftx. subst w1. cbn [st tx set_tx]. done.
  - eexists _, ((c1, set_tx r' (st w)) :: d2 ++ [(NVIC_SystemReset, st w2)]).
    split; [reflexivity |]. cbn [log st].
    split; [rewrite Fl; subst w1; cbn [log]; by rewrite <- !app_assoc |].
    split.
    { change ((c1, set_tx r' (st w)) :: d2 ++ [(NVIC_SystemReset, st w2)])
        with ([(c1, set_tx r' (st w))] ++ d2 ++ [(NVIC_SystemReset, st w2)]).
      rewrite !foreground_calls_app, (foreground_calls_handler d2 Fd).
      subst c1 chunk. by rewrite Hl. }
    split.
    { intros _.
      change ((c1, set_tx r' (st w)) :: d2 ++ [(NVIC_SystemReset, st w2)])
        with (((c1, set_tx r' (st w)) :: d2) ++ [(NVIC_SystemReset, st w2)]).
      rewrite map_app. apply last_snoc. }
    rewrite Ftx. subst w1. cbn [st tx set_tx]. done.
Qed.

Lemma send_other_error_witness :
  let w := World (State 7 1 16 2 (ring_init 8)
                        (Ring ["a"; "b"; "c"; "000"; "000"; "000"; "000"; "000"]%byte
                              3 0))
                 [Reply 12 []] [] [] in
  exists w' d,
    ble_send_pending_data 8 w
    = (if Z.land 12 0x0000FFFF =? 0 then Returned tt w' else SystemReset w') /\
    log w' = [] ++ d /\
    foreground_calls d = [sd_ble_gatts_hvx 7 16 ["a"; "b"]%byte] /\
    (Z.land 12 0x0000FFFF <> 0 -> list.last (map fst d) = Some NVIC_SystemReset) /\
    ring_contents 8 (tx (st w')) = ["c"]%byte.
Proof.
  intros w. apply (send_other_error 8 w 12 [] []).
  - lia.
  - repeat split; simpl; lia.
  - discriminate.
  - vm_compute. discriminate.
  - reflexivity.
  - constructor.
  - discriminate.
  - discriminate.
  - discriminate.
Defined.

(** X6. With nothing in [rx], nothing in [tx] and no event ever served,
    [mp_hal_stdin_rx_chr] does not return, whatever the number of turns
    it is given. *)
Theorem read_blocks_without_input (N : Z) (fuel : nat) (w : world) :
  ring_empty (rx (st w)) -> ring_empty (tx (st w)) -> idle w = [] ->
  mp_hal_stdin_rx_chr N fuel w = OutOfFuel.
Proof.
  revert w. induction fuel as [| fuel IH]; intros w Hrx Htx Hi;
    unfold ring_empty in *.
  - simpl. by rewrite Hrx, Z.eqb_refl.
  - change (mp_hal_stdin_rx_chr N (S fuel) w)
      with (if head (rx (st w)) =? tail (rx (st w)) then
              (ble_send_pending_data N ;;
               (fun w' =>
                  if (head (tx (st w')) =? tail (tx (st w')))
                     && (head (rx (st w')) =? tail (rx (st w')))
                  then (serve_idle N ;; emit sd_app_evt_wait ;; serve_idle N) w'
                  else ret tt w') ;;
               mp_hal_stdin_rx_chr N fuel) w
            else
              let (character, r') := ring_pop N (rx (st w)) in
              (set_st (set_rx r') ;; ret (Z.of_N (Byte.to_N character))) w).
    rewrite Hrx, Z.eqb_refl. unfold bind at 1. unfold ble_send_pending_data.
    rewrite Htx, Z.eqb_refl. unfold ret at 1. unfold bind at 1.
    rewrite Htx, Hrx, !Z.eqb_refl. cbn [andb].
    unfold bind, emit, serve_idle. cbn [st hvx idle log]. rewrite Hi.
    cbn [hd tl SWI2_IRQHandler]. unfold ret. cbn [st hvx idle log hd tl SWI2_IRQHandler].
    unfold ret. by apply IH.
Qed.

Lemma read_blocks_without_input_witness :
  mp_hal_stdin_rx_chr RING_BUFFER_LENGTH 5
    (World (state_init RING_BUFFER_LENGTH) [] [] []) = OutOfFuel.
Proof.
  apply (read_blocks_without_input RING_BUFFER_LENGTH 5
           (World (state_init RING_BUFFER_LENGTH) [] [] []));
    reflexivity.
Defined.

(** ** No write past [out_buffer] *)

Section Safety.

Variable N : Z.
Hypothesis N_range : 0 < N < 65536.

Lemma safe_ret (P : world -> Prop) {A : Type} (a : A) : safe P (ret a).
Proof. intros w HP. exact HP. Qed.

Lemma safe_bind (P : world -> Prop) {A B : Type} (m : M A) (k : A -> M B) :
  safe P m -> (forall a, safe P (k a)) -> safe P (bind m k).
Proof.
  intros Hm Hk w HP. unfold bind. specialize (Hm w HP).
  destruct (m w) as [a w1 | w1 | w1 |]; try done.
  exact (Hk a w1 Hm).
Qed.

Lemma mtu_safe_log (s : state) (h : list reply) (i : list (list queued))
    (l l' : list (call * state)) :
  mtu_safe N (World s h i l) -> mtu_safe N (World s h i l').
Proof. intros H. exact H. Qed.

Lemma safe_emit (c : call) : safe (mtu_safe N) (emit c).
Proof. intros w HP. exact HP. Qed.

Lemma safe_assert_if (e : Z) : safe (mtu_safe N) (assert_if e).
Proof. intros w HP. unfold assert_if. destruct (_ =? _); exact HP. Qed.

Lemma safe_sd_call (c : call) (rets : list Z) (i : nat) :
  safe (mtu_safe N) (sd_call c rets i).
Proof. apply safe_bind; [apply safe_emit | intros; apply safe_ret]. Qed.

Lemma safe_set_connection (c : Z) : safe (mtu_safe N) (set_st (set_connection c)).
Proof. intros w HP. exact HP. Qed.

Lemma on_ble_evt_safe (e : ble_evt) (rets : list Z) :
  mtu_sane (Queued e rets) -> safe (mtu_safe N) (on_ble_evt N e rets).
Proof.
  intros Hq. destruct e; cbn [on_ble_evt];
    repeat first
      [ apply safe_ret
      | apply safe_assert_if
      | apply safe_sd_call
      | apply safe_set_connection
      | apply safe_bind; [| intros ?] ].
  - intros w HP.
    exact (safe_sd_call (sd_ble_gap_adv_start (advertising (st w)) 1) rets 0 w HP).
  - intros w (Hm & Hwf & Hh & Hi). unfold mtu_sane in Hq. simpl in Hq.
    split_and!; try done. cbn [set_st st negotiated_mtu set_negotiated_mtu].
    assert (Hu : 0 <= uint16_t client_rx_mtu < 65536)
      by (unfold uint16_t; apply Z.mod_pos_bound; lia).
    unfold MAX_MTU_LENGTH.
    destruct (Z.ltb_spec 128 (uint16_t client_rx_mtu)).
    + reflexivity.
    + unfold uint16_t at 1. rewrite Z.mod_small by lia. lia.
  - intros w (Hm & Hwf & Hh & Hi). by split_and!.
Qed.

Lemma SWI2_IRQHandler_safe (pending : list queued) :
  Forall mtu_sane pending -> safe (mtu_safe N) (SWI2_IRQHandler N pending).
Proof.
  induction 1 as [| [e rets] pending Hq _ IH]; simpl; [apply safe_ret |].
  apply safe_bind; [by apply on_ble_evt_safe | done].
Qed.

Lemma serve_idle_safe : safe (mtu_safe N) (serve_idle N).
Proof.
  intros w (Hm & Hwf & Hh & Hi). unfold serve_idle.
  apply SWI2_IRQHandler_safe.
  - destruct Hi; simpl; [constructor | done].
  - split_and!; try done. cbn [idle]. destruct Hi; simpl; [constructor | done].
Qed.

Lemma mp_hal_stdout_tx_strn_safe (str : list byte) :
  safe (mtu_safe N) (mp_hal_stdout_tx_strn N str).
Proof.
  intros w (Hm & Hwf & Hh & Hi). split_and!; try done.
  cbn [st tx set_tx]. by apply ring_write_wf.
Qed.

(** The drain loop stays inside [out_buffer] when the limit is at most
    125: the chunk is shorter than the limit whenever the loop goes round
    again. *)
Lemma tx_drain_safe (fuel : nat) (out : list byte) (w : world) :
  mtu_safe N w ->
  Z.of_nat (length out) <= Z.max 0 (negotiated_mtu (st w) - 1) ->
  match tx_drain N fuel out w with
  | Returned _ w' | SystemReset w' => mtu_safe N w'
  | Undefined _ => False
  | OutOfFuel => True
  end.
Proof.
  revert out w. induction fuel as [| fuel IH]; intros out w HP Hlen.
  - simpl. by destruct (negb _).
  - destruct (Z.eq_dec (tail (tx (st w))) (head (tx (st w)))) as [He | Hne].
    + by rewrite tx_drain_empty.
    + pose proof HP as (Hm & Hwf & Hh & Hi).
      rewrite tx_drain_step by (done || unfold MAX_MTU_LENGTH in *; lia).
      cbv zeta. rewrite length_app. simpl length.
      assert (HP' : mtu_safe N (World (set_tx (ring_pop N (tx (st w))).2 (st w))
                                      (hvx w) (idle w) (log w))).
      { split_and!; try done. cbn [st tx set_tx]. by apply ring_pop_wf. }
      destruct (Z.leb_spec (negotiated_mtu (st w)) (Z.of_nat (length out + 1)));
        [done |].
      apply IH; [done |]. rewrite length_app. simpl length.
      cbn [st negotiated_mtu set_tx]. lia.
Qed.

Lemma hvx_attempt_safe (r : reply) (vh : Z) (out : list byte) (again : M unit) :
  Forall mtu_sane (served r) -> safe (mtu_safe N) again ->
  safe (mtu_safe N) (hvx_attempt N r vh out again).
Proof.
  intros Hr Ha. unfold hvx_attempt.
  apply safe_bind; [intros w HP; exact HP | intros _].
  apply safe_bind; [by apply SWI2_IRQHandler_safe | intros _].
  destruct (_ || _); [apply safe_ret |].
  destruct (_ =? _); [| apply safe_assert_if].
  apply safe_bind; [apply safe_emit | intros _].
  apply safe_bind; [apply serve_idle_safe | done].
Qed.

Lemma hvx_try_again_safe (replies : list reply) (vh : Z) (out : list byte) :
  Forall (fun r => Forall mtu_sane (served r)) replies ->
  safe (mtu_safe N) (hvx_try_again N replies vh out).
Proof.
  induction 1 as [| r replies Hr Hrs IH]; simpl.
  - apply hvx_attempt_safe; [constructor | apply safe_ret].
  - apply safe_bind; [| intros _; by apply hvx_attempt_safe].
    intros w (Hm & Hwf & Hh & Hi). by split_and!.
Qed.

Lemma ble_send_pending_data_safe : safe (mtu_safe N) (ble_send_pending_data N).
Proof.
  intros w HP. unfold ble_send_pending_data.
  destruct (_ =? _); [exact HP |].
  unfold bind.
  pose proof (tx_drain_safe (Z.to_nat N) [] w HP) as Hd.
  simpl length in Hd. specialize (Hd ltac:(lia)).
  destruct (tx_drain N (Z.to_nat N) [] w) as [out w1 | w1 | w1 |]; try done.
  apply hvx_try_again_safe; [| done]. by destruct Hd as (_ & _ & Hh & _).
Qed.

Lemma mp_hal_stdin_rx_chr_safe (fuel : nat) :
  safe (mtu_safe N) (mp_hal_stdin_rx_chr N fuel).
Proof.
  induction fuel as [| fuel IH]; intros w HP; simpl.
  - destruct (_ =? _); [done |]. exact HP.
  - destruct (_ =? _); [| exact HP].
    revert w HP. change (safe (mtu_safe N)
      (ble_send_pending_data N ;;
       (fun w' =>
          if (head (tx (st w')) =? tail (tx (st w')))
             && (head (rx (st w')) =? tail (rx (st w')))
          then (serve_idle N ;; emit sd_app_evt_wait ;; serve_idle N) w'
          else ret tt w') ;;
       mp_hal_stdin_rx_chr N fuel)).
    apply safe_bind; [apply ble_send_pending_data_safe | intros _].
    apply safe_bind; [| done].
    intros w HP. destruct (_ && _); [| exact HP].
    revert w HP.
    change (safe (mtu_safe N)
                 (serve_idle N ;; emit sd_app_evt_wait ;; serve_idle N)).
    apply safe_bind; [apply serve_idle_safe | intros _].
    apply safe_bind; [apply safe_emit | intros; apply serve_idle_safe].
Qed.

Lemma enter_all_safe (es : list entry) :
  Forall entry_sane es -> safe (mtu_safe N) (enter_all N es).
Proof.
  induction 1 as [| e es He _ IH]; simpl; [apply safe_ret |].
  apply safe_bind; [| done].
  destruct e; simpl.
  - apply mp_hal_stdout_tx_strn_safe.
  - apply ble_send_pending_data_safe.
  - apply safe_bind; [apply mp_hal_stdin_rx_chr_safe | intros; apply safe_ret].
  - by apply SWI2_IRQHandler_safe.
Qed.

End Safety.

(** X7. As long as no peer proposes an MTU below 3, the transport never
    writes past [out_buffer]: from reset, whatever entry points run in
    whatever order and whatever the SoftDevice answers, no run ends in
    undefined behaviour, and [negotiated_mtu] stays at 125 at most. *)
Theorem no_overrun_without_tiny_mtu (es : list entry) (c a vh : Z)
    (replies : list reply) (batches : list (list queued)) :
  Forall entry_sane es ->
  Forall (fun r => Forall mtu_sane (served r)) replies ->
  Forall (Forall mtu_sane) batches ->
  match enter_all RING_BUFFER_LENGTH es
          (World (State c a vh 0 (ring_init RING_BUFFER_LENGTH)
                                 (ring_init RING_BUFFER_LENGTH))
                 replies batches [])
  with
  | Returned _ w' | SystemReset w' => negotiated_mtu (st w') <= 125
  | Undefined _ => False
  | OutOfFuel => True
  end.
Proof.
  intros Hes Hr Hb.
  assert (HN : 0 < RING_BUFFER_LENGTH < 65536) by done.
  pose proof (enter_all_safe RING_BUFFER_LENGTH HN es Hes
                (World (State c a vh 0 (ring_init RING_BUFFER_LENGTH)
                                       (ring_init RING_BUFFER_LENGTH))
                       replies batches [])) as H.
  assert (H0 : mtu_safe RING_BUFFER_LENGTH
                 (World (State c a vh 0 (ring_init RING_BUFFER_LENGTH)
                                        (ring_init RING_BUFFER_LENGTH))
                        replies batches [])).
  { split_and!; try done; apply ring_init_wf; lia. }
  specialize (H H0).
  destruct (enter_all RING_BUFFER_LENGTH es _) as [? w' | w' | w' |]; try done;
    by destruct H as (Hm & _).
Qed.

Lemma no_overrun_without_tiny_mtu_witness :
  match enter_all RING_BUFFER_LENGTH
          [via_irq [Queued (BLE_GATTS_EVT_EXCHANGE_MTU_REQUEST 0 247) []];
           via_tx_strn (repeat "x"%byte 300);
           via_send_pending]
          (World (State 0 1 16 0 (ring_init RING_BUFFER_LENGTH)
                                 (ring_init RING_BUFFER_LENGTH))
                 [] [] [])
  with
  | Returned _ w' | SystemReset w' => negotiated_mtu (st w') <= 125
  | Undefined _ => False
  | OutOfFuel => True
  end.
Proof.
  apply (no_overrun_without_tiny_mtu
           [via_irq [Queued (BLE_GATTS_EVT_EXCHANGE_MTU_REQUEST 0 247) []];
            via_tx_strn (repeat "x"%byte 300);
            via_send_pending] 0 1 16 [] []).
  - repeat constructor. vm_compute. discriminate.
  - constructor.
  - constructor.
Defined.

(** [assert_if] looks at the bottom 16 bits of the code only: it
    returns when the code is a multiple of 65536 and resets the chip
    otherwise, so the codes of the nrfx drivers, which carry a base in the
    top half, are judged by their bottom half, and masking the code first
    makes no difference. *)
Theorem assert_if_bottom_half (e : Z) (w : world) :
  (e mod 65536 = 0 -> assert_if e w = Returned tt w) /\
  (e mod 65536 <> 0 ->
   assert_if e w
   = SystemReset (World (st w) (hvx w) (idle w)
                        (log w ++ [(NVIC_SystemReset, st w)]))) /\
  assert_if (Z.land 0x0000FFFF e) w = assert_if e w.
Proof.
  assert (Hl : forall x, Z.land x 65535 = x mod 65536).
  { intros x. change 65535 with (Z.ones 16). by rewrite Z.land_ones. }
  unfold assert_if. rewrite (Z.land_comm 65535 e), !Hl.
  rewrite Z.mod_mod by lia.
  split_and!; try done.
  - intros ->. done.
  - intros Hne. by destruct (Z.eqb_spec (e mod 65536) 0).
Qed.

(** * The device name, the MAC string and the advertising data *)

Lemma hex_digit_glyph (q : Z) : hex_digit (hex_glyph q) = q mod 16.
Proof.
  unfold hex_glyph, hex_digit, uint8_t.
  pose proof (Z.mod_pos_bound q 16 ltac:(lia)) as Hq.
  destruct (Z.ltb_spec (q mod 16) 10).
  - rewrite Z.mod_small by lia.
    destruct (Z.leb_spec 48 (q mod 16 + 48)); [| lia].
    destruct (Z.leb_spec (q mod 16 + 48) 57); [| lia]. simpl. lia.
  - rewrite Z.mod_small by lia.
    destruct (Z.leb_spec 48 (q mod 16 + 55)); [| lia].
    destruct (Z.leb_spec (q mod 16 + 55) 57); [lia |].
    destruct (Z.leb_spec 65 (q mod 16 + 55)); [| lia].
    destruct (Z.leb_spec (q mod 16 + 55) 70); [| lia]. simpl. lia.
Qed.

Lemma hex_glyph_char (q : Z) : hex_char (hex_glyph q).
Proof.
  unfold hex_glyph, hex_char, uint8_t.
  pose proof (Z.mod_pos_bound q 16 ltac:(lia)) as Hq.
  destruct (Z.ltb_spec (q mod 16) 10); rewrite Z.mod_small by lia; lia.
Qed.

Lemma hex_value_snoc (s : list Z) (c : Z) :
  hex_value (s ++ [c]) = hex_value s * 16 + hex_digit c.
Proof. unfold hex_value. by rewrite fold_left_app. Qed.

Lemma hex_value_X (s : list Z) : Forall (fun c => c = 88) s -> hex_value s = 0.
Proof.
  induction s as [| c s IH] using rev_ind; intros H; [done |].
  apply Forall_app in H as [Hs Hc]. inversion Hc as [| ? ? -> _]; subst.
  rewrite hex_value_snoc, IH by done. reflexivity.
Qed.

(** The loop on a number below [16 ^ k] writes into the [k] characters
    that end at [str_pos], all X before: it stays inside them, the
    characters it leaves are digits, A to F or X, and read as a
    hexadecimal number they give the number back. *)
Lemma hex_fill_window (win : list Z) :
  forall (fuel : nat) (pre post : list Z) (pos q : Z),
    (length win <= fuel)%nat ->
    0 <= q < 16 ^ Z.of_nat (length win) ->
    win = [] \/ pos = Z.of_nat (length pre + length win) - 1 ->
    (length (pre ++ win ++ post) <= 256)%nat ->
    Forall (fun c => c = 88) win ->
    exists digits,
      hex_fill fuel (pre ++ win ++ post) pos q = Hex_done (pre ++ digits ++ post) /\
      length digits = length win /\
      Forall hex_char digits /\
      hex_value digits = q.
Proof.
  induction win as [| x win IH] using rev_ind;
    intros fuel pre post pos q Hfuel Hq Hpos Hlen HX.
  - assert (q = 0) as -> by (simpl in Hq; lia).
    exists []. destruct fuel; simpl; by split_and!.
  - apply Forall_app in HX as [HX Hx]. inversion Hx as [| ? ? -> _]; subst.
    rewrite length_app in Hfuel, Hq, Hpos. simpl length in Hfuel, Hq, Hpos.
    destruct Hpos as [Hpos | Hpos]; [by destruct win |].
    destruct (Z.eq_dec q 0) as [-> | Hq0].
    + exists (win ++ [88]). split_and!.
      * destruct fuel; reflexivity.
      * done.
      * apply Forall_app.
        split; [| constructor; [unfold hex_char; lia | constructor]].
        eapply Forall_impl; [| exact HX]. intros c ->. unfold hex_char. lia.
      * apply hex_value_X. apply Forall_app. split; [done | by constructor].
    + destruct fuel as [| fuel]; [lia |].
      rewrite !length_app in Hlen. simpl length in Hlen.
      assert (Hstep : hex_fill (S fuel) (pre ++ (win ++ [88]) ++ post) pos q
                      = hex_fill fuel (pre ++ win ++ (hex_glyph q :: post))
                                 (uint8_t (pos - 1)) (q / 16)).
      { change (hex_fill (S fuel) ?s pos q)
          with (if q =? 0 then Hex_done s
                else if (pos <? 0) || (Z.of_nat (length s) <=? pos) then Hex_overrun
                     else hex_fill fuel (<[Z.to_nat pos := hex_glyph q]> s)
                                   (uint8_t (pos - 1)) (q / 16)).
        destruct (Z.eqb_spec q 0); [done |].
        destruct (Z.ltb_spec pos 0); [lia |].
        rewrite !length_app. simpl length.
        destruct (Z.leb_spec (Z.of_nat (length pre + (length win + 1 + length post)))
                             pos); [lia |].
        cbn [orb]. f_equal.
        rewrite <- app_assoc, (app_assoc pre win).
        replace (Z.to_nat pos) with (length (pre ++ win) + 0)%nat
          by (rewrite length_app; lia).
        rewrite insert_app_r. simpl. by rewrite <- app_assoc. }
      rewrite Hstep.
      destruct (IH fuel pre (hex_glyph q :: post) (uint8_t (pos - 1)) (q / 16))
        as (digits & Hr & Hl & Hc & Hv).
      * lia.
      * split; [apply Z.div_pos; lia |].
        apply Z.div_lt_upper_bound; [lia |].
        replace (Z.of_nat (length win + 1)) with (Z.succ (Z.of_nat (length win)))
          in Hq by lia.
        rewrite Z.pow_succ_r in Hq by lia. lia.
      * destruct win as [| y win]; [by left | right].
        simpl length in *. unfold uint8_t. rewrite Z.mod_small; lia.
      * rewrite !length_app. simpl length. lia.
      * done.
      * exists (digits ++ [hex_glyph q]). split_and!.
        -- rewrite Hr, <- !app_assoc. reflexivity.
        -- rewrite !length_app. simpl. lia.
        -- apply Forall_app. split; [done |].
           constructor; [apply hex_glyph_char | constructor].
        -- rewrite hex_value_snoc, Hv, hex_digit_glyph.
           pose proof (Z.div_mod q 16 ltac:(lia)). lia.
Qed.

Lemma strlen_chars (s rest : list Z) :
  Forall (fun c => c <> 0) s -> strlen (s ++ 0 :: rest) = Z.of_nat (length s).
Proof.
  induction 1 as [| c s Hc _ IH]; simpl; [done |].
  destruct (Z.eqb_spec c 0); [done |]. rewrite IH. lia.
Qed.

Lemma hex_char_nonzero (s : list Z) : Forall hex_char s -> Forall (fun c => c <> 0) s.
Proof. apply Forall_impl. unfold hex_char. intros c H. lia. Qed.

Lemma device_name_digits (DEVICEADDR0 : Z) :
  exists digits,
    device_name DEVICEADDR0 = Hex_done ([83; 49; 45] ++ digits ++ [0]) /\
    length digits = 4%nat /\
    Forall hex_char digits /\
    hex_value digits = DEVICEADDR0 mod 65536.
Proof.
  unfold device_name.
  destruct (hex_fill_window [88; 88; 88; 88] 16 [83; 49; 45] [0] 6
                            (uint16_t DEVICEADDR0))
    as (digits & Hr & Hl & Hc & Hv).
  - simpl. lia.
  - unfold uint16_t. simpl length.
    pose proof (Z.mod_pos_bound DEVICEADDR0 65536 ltac:(lia)).
    change (16 ^ Z.of_nat 4) with 65536. lia.
  - by right.
  - simpl. lia.
  - repeat constructor.
  - by exists digits.
Qed.

(** X8. The device name [ble_init] gives the chip is "S1-" followed by
    four characters, each a digit, A to F, or the X left for a leading
    zero: read as a hexadecimal number they are the bottom 16 bits of the
    device address, so two chips have the same name only if these bits
    agree. The loop stays inside the array, the terminator stays, and the
    name is 7 characters long whatever the address. *)
Theorem device_name_from_address (DEVICEADDR0 : Z) :
  (exists digits,
     device_name DEVICEADDR0 = Hex_done ([83; 49; 45] ++ digits ++ [0]) /\
     length digits = 4%nat /\
     Forall hex_char digits /\
     hex_value digits = DEVICEADDR0 mod 65536 /\
     strlen ([83; 49; 45] ++ digits ++ [0]) = 7) /\
  (forall other,
     device_name other = device_name DEVICEADDR0 ->
     other mod 65536 = DEVICEADDR0 mod 65536).
Proof.
  destruct (device_name_digits DEVICEADDR0) as (digits & Hr & Hl & Hc & Hv).
  split.
  - exists digits. split_and!; try done.
    rewrite (app_assoc [83; 49; 45] digits [0]).
    rewrite strlen_chars.
    + rewrite length_app, Hl. reflexivity.
    + apply Forall_app. split; [| by apply hex_char_nonzero].
      repeat constructor; lia.
  - intros other Ho.
    destruct (device_name_digits other) as (digits' & Hr' & _ & _ & Hv').
    rewrite Ho, Hr in Hr'. injection Hr' as Hd.
    apply app_inv_tail in Hd. by rewrite <- Hv, <- Hv', Hd.
Qed.

Lemma lor_shiftl_add (a b n : Z) :
  0 <= n -> 0 <= b < 2 ^ n -> Z.lor (Z.shiftl a n) b = a * 2 ^ n + b.
Proof.
  intros Hn Hb. rewrite <- Z.shiftl_mul_pow2 by lia.
  assert (Hl : Z.land (Z.shiftl a n) b = 0).
  { apply Z.bits_inj'. intros i Hi. rewrite Z.land_spec, Z.bits_0.
    destruct (Z_lt_le_dec i n).
    - rewrite Z.shiftl_spec_low by lia. reflexivity.
    - destruct (Z.eq_dec b 0) as [-> |].
      + rewrite Z.bits_0. apply andb_false_r.
      + rewrite (Z.bits_above_log2 b i); [apply andb_false_r | lia |].
        apply Z.log2_lt_pow2; [lia |].
        apply Z.lt_le_trans with (2 ^ n); [lia |]. apply Z.pow_le_mono_r; lia. }
  rewrite <- Z.lxor_lor by done. by rewrite Z.add_nocarry_lxor.
Qed.

Lemma mac_quotent_sum (addr : list Z) :
  mac_quotent addr
  = uint8_t (nth 5 addr 0) * 2 ^ 40 + uint8_t (nth 4 addr 0) * 2 ^ 32
    + uint8_t (nth 3 addr 0) * 2 ^ 24 + uint8_t (nth 2 addr 0) * 2 ^ 16
    + uint8_t (nth 1 addr 0) * 2 ^ 8 + uint8_t (nth 0 addr 0).
Proof.
  unfold mac_quotent.
  assert (Hb : forall i, 0 <= uint8_t (nth i addr 0) < 256).
  { intros i. unfold uint8_t. apply Z.mod_pos_bound. lia. }
  pose proof (Hb 0%nat). pose proof (Hb 1%nat). pose proof (Hb 2%nat).
  pose proof (Hb 3%nat). pose proof (Hb 4%nat). pose proof (Hb 5%nat).
  rewrite (lor_shiftl_add _ (uint8_t (nth 0 addr 0)) 8) by lia.
  rewrite (lor_shiftl_add _ _ 16) by lia.
  rewrite (lor_shiftl_add _ _ 24) by lia.
  rewrite (lor_shiftl_add _ _ 32) by lia.
  rewrite (lor_shiftl_add _ _ 40) by lia.
  lia.
Qed.

(** X9. [machine_mac_address] returns 12 characters, each a digit, A to
    F, or the X left for a leading zero (an address of all zeros gives
    twelve X): read as a hexadecimal number they are the 48-bit address,
    [addr[5]] first. The loop stays inside the array for every address. *)
Theorem mac_address_string (addr : list Z) :
  exists digits,
    machine_mac_address addr = Some digits /\
    length digits = 12%nat /\
    Forall hex_char digits /\
    hex_value digits
    = uint8_t (nth 5 addr 0) * 2 ^ 40 + uint8_t (nth 4 addr 0) * 2 ^ 32
      + uint8_t (nth 3 addr 0) * 2 ^ 24 + uint8_t (nth 2 addr 0) * 2 ^ 16
      + uint8_t (nth 1 addr 0) * 2 ^ 8 + uint8_t (nth 0 addr 0) /\
    (mac_quotent addr = 0 -> digits = repeat 88 12).
Proof.
  assert (Hb : forall i, 0 <= uint8_t (nth i addr 0) < 256).
  { intros i. unfold uint8_t. apply Z.mod_pos_bound. lia. }
  pose proof (Hb 0%nat). pose proof (Hb 1%nat). pose proof (Hb 2%nat).
  pose proof (Hb 3%nat). pose proof (Hb 4%nat). pose proof (Hb 5%nat).
  pose proof (mac_quotent_sum addr) as Hsum.
  destruct (hex_fill_window (repeat 88 12) 16 [] [0] 11 (mac_quotent addr))
    as (digits & Hr & Hl & Hc & Hv).
  - simpl. lia.
  - rewrite Hsum. change (16 ^ Z.of_nat (length (repeat 88 12))) with (2 ^ 48). lia.
  - by right.
  - simpl. lia.
  - repeat constructor.
  - exists digits. unfold machine_mac_address.
    change mac_str_init with ([] ++ repeat 88 12 ++ [0]). rewrite Hr.
    simpl app. rewrite take_app_length' by done.
    split_and!; try done; [by rewrite Hv |].
    intros Hz. rewrite Hz in Hr. simpl in Hr. injection Hr as Hd.
    symmetry in Hd. change (digits ++ [0] = repeat 88 12 ++ [0]) in Hd.
    by apply app_inv_tail in Hd.
Qed.

(** One byte stored behind [pre], and a run of bytes copied over [old]. *)
Lemma adv_put_app (pre post : list Z) (o v n : Z) (k : adv_t -> adv_result) :
  adv_put (Z.of_nat (length pre)) v (Adv n (pre ++ o :: post)) k
  = k (Adv n (pre ++ uint8_t v :: post)).
Proof.
  unfold adv_put. cbn [adv_payload adv_length].
  destruct (Z.leb_spec 0 (Z.of_nat (length pre))); [| lia].
  rewrite length_app. simpl length.
  destruct (Z.ltb_spec (Z.of_nat (length pre)) (Z.of_nat (length pre + S (length post))));
    [| lia].
  cbn [andb]. f_equal. f_equal.
  rewrite Nat2Z.id. replace (length pre) with (length pre + 0)%nat at 1 by lia.
  by rewrite insert_app_r.
Qed.

Lemma adv_copy_app (src : list Z) :
  forall (pre old post : list Z) (n : Z) (k : adv_t -> adv_result),
    length old = length src ->
    adv_copy (Z.of_nat (length pre)) src (Adv n (pre ++ old ++ post)) k
    = k (Adv n (pre ++ map uint8_t src ++ post)).
Proof.
  induction src as [| v src IH]; intros pre old post n k Hl.
  - destruct old; [done | discriminate].
  - destruct old as [| o old]; [discriminate |]. injection Hl as Hl.
    cbn [adv_copy]. change ((o :: old) ++ post) with (o :: old ++ post).
    rewrite adv_put_app.
    replace (Z.of_nat (length pre) + 1) with (Z.of_nat (length (pre ++ [uint8_t v])))
      by (rewrite length_app; simpl; lia).
    change (pre ++ uint8_t v :: old ++ post)
      with (pre ++ [uint8_t v] ++ old ++ post).
    rewrite (app_assoc pre [uint8_t v]), IH by done.
    by rewrite <- app_assoc.
Qed.

(** A copy that runs past the end of the array is a write outside it. *)
Lemma adv_copy_overrun (src : list Z) :
  forall (i : Z) (a : adv_t) (k : adv_t -> adv_result),
    0 <= i <= Z.of_nat (length (adv_payload a)) ->
    Z.of_nat (length (adv_payload a)) < i + Z.of_nat (length src) ->
    adv_copy i src a k = Adv_overrun.
Proof.
  induction src as [| v src IH]; intros i a k Hi Hlen; [simpl in Hlen; lia |].
  simpl length in Hlen. cbn [adv_copy]. unfold adv_put.
  destruct (Z.leb_spec 0 i); [| lia].
  destruct (Z.ltb_spec i (Z.of_nat (length (adv_payload a)))); [| done].
  cbn [andb]. apply IH; cbn [adv_payload]; rewrite length_insert; lia.
Qed.

(** The name, and the flags behind it, for every name of seven characters. *)
Lemma adv_name_part (d1 d2 d3 d4 : Z) (k : adv_t -> adv_result) :
  adv_push (7 + 1) adv_init (fun a =>
  adv_push BLE_GAP_AD_TYPE_COMPLETE_LOCAL_NAME a (fun a =>
  adv_copy (adv_length a) [83; 49; 45; d1; d2; d3; d4; 0] a (fun a =>
  let a := adv_skip 7 a in
  adv_push 0x02 a (fun a =>
  adv_push BLE_GAP_AD_TYPE_FLAGS a (fun a =>
  adv_push BLE_GAP_ADV_FLAGS_LE_ONLY_GENERAL_DISC_MODE a k)))))
  = k (Adv 12 ([8; 9; 83; 49; 45; uint8_t d1; uint8_t d2; uint8_t d3; uint8_t d4;
                2; 1; 6] ++ repeat 0 19)).
Proof. vm_compute. reflexivity. Qed.

Lemma ad_structures_cons (fuel : nat) (type : Z) (body rest : list Z) :
  ad_structures (S fuel) (Z.of_nat (length body) + 1 :: type :: body ++ rest)
  = match ad_structures fuel rest with
    | Some l => Some ((type, body) :: l)
    | None => None
    end.
Proof.
  cbn [ad_structures].
  destruct (Z.leb_spec (Z.of_nat (length body) + 1) 0); [lia |].
  rewrite length_app.
  destruct (Z.ltb_spec (Z.of_nat (length body + length rest))
                       (Z.of_nat (length body) + 1 - 1)); [lia |].
  cbn [orb].
  replace (Z.to_nat (Z.of_nat (length body) + 1 - 1)) with (length body) by lia.
  by rewrite drop_app_length, take_app_length.
Qed.

Lemma uint8_t_small (z : Z) : 0 <= z < 256 -> uint8_t z = z.
Proof. apply Z.mod_small. Qed.

Lemma map_uint8_t_bytes (l : list Z) :
  Forall (fun b => 0 <= b < 256) l -> map uint8_t l = l.
Proof.
  induction 1 as [| b l Hb _ IH]; [done |].
  simpl. by rewrite IH, uint8_t_small.
Qed.

(** The last two bytes written, over the two left free before the UUID. *)
Lemma adv_uuid_header (pre tail : list Z) (el : Z) :
  length pre = 12%nat ->
  adv_push (0x01 + el) (Adv 12 (pre ++ 0 :: 0 :: tail)) (fun a =>
  adv_push BLE_GAP_AD_TYPE_128BIT_SERVICE_UUID_COMPLETE a (fun a =>
  Adv_built (adv_skip el a)))
  = Adv_built (Adv (uint8_t (14 + el))
                   (pre ++ uint8_t (1 + el)
                        :: BLE_GAP_AD_TYPE_128BIT_SERVICE_UUID_COMPLETE :: tail)).
Proof.
  intros Hp. unfold adv_push at 1. cbn [adv_length].
  replace 12 with (Z.of_nat (length pre)) at 1 by lia.
  rewrite adv_put_app. cbn [adv_length adv_payload].
  unfold adv_push. cbn [adv_length].
  change (uint8_t (12 + 1)) with 13.
  replace 13 with (Z.of_nat (length (pre ++ [uint8_t (1 + el)]))) at 1
    by (rewrite length_app; simpl; lia).
  change (pre ++ uint8_t (1 + el) :: 0 :: tail)
    with (pre ++ [uint8_t (1 + el)] ++ 0 :: tail).
  rewrite (app_assoc pre), adv_put_app, <- app_assoc.
  cbn [adv_length adv_payload]. unfold adv_skip. cbn [adv_length adv_payload].
  reflexivity.
Qed.


Lemma ble_init_adv_name (d1 d2 d3 d4 e : Z) (uuid : list Z) :
  strlen [83; 49; 45; d1; d2; d3; d4; 0] = 7 ->
  ble_init_adv [83; 49; 45; d1; d2; d3; d4; 0] uuid e adv_init
  = adv_copy 14 uuid
      (Adv 12 ([8; 9; 83; 49; 45; uint8_t d1; uint8_t d2; uint8_t d3; uint8_t d4;
                2; 1; 6] ++ repeat 0 19))
      (fun a =>
         if negb (Z.land e 0x0000FFFF =? 0) then Adv_reset
         else
           adv_push (0x01 + uint8_t (Z.of_nat (length uuid))) a (fun a =>
           adv_push BLE_GAP_AD_TYPE_128BIT_SERVICE_UUID_COMPLETE a (fun a =>
           Adv_built (adv_skip (uint8_t (Z.of_nat (length uuid))) a)))).
Proof.
  intros Hs. unfold ble_init_adv. rewrite Hs.
  exact (adv_name_part d1 d2 d3 d4 _).
Qed.

Lemma ble_init_adv_uuid (pre uuid : list Z) (n : Z) (k : adv_t -> adv_result) :
  length pre = 12%nat -> (length uuid <= 17)%nat ->
  adv_copy 14 uuid (Adv n (pre ++ repeat 0 19)) k
  = k (Adv n (pre ++ 0 :: 0 :: map uint8_t uuid
                  ++ repeat 0 (17 - length uuid))).
Proof.
  intros Hp Hu.
  replace 14 with (Z.of_nat (length (pre ++ [0; 0])))
    by (rewrite length_app; simpl; lia).
  replace (pre ++ repeat 0 19)
    with ((pre ++ [0; 0]) ++ repeat 0 (length uuid) ++ repeat 0 (17 - length uuid)).
  - rewrite adv_copy_app by apply repeat_length. by rewrite <- app_assoc.
  - rewrite <- app_assoc, <- repeat_app.
    replace (length uuid + (17 - length uuid))%nat with 17%nat by lia.
    reflexivity.
Qed.

(** X10. The advertising data [ble_init] builds, for the device name of
    "S1-" and four hexadecimal characters and the bytes
    [sd_ble_uuid_encode] writes: with up to 17 of them and a code whose
    bottom half is 0, the data is 14 bytes and the UUID long, inside the 31
    of the array, and a scanner reads it as three structures, the complete
    local name (the terminator that [memcpy] copies is overwritten by the
    next structure), the flags with the one byte LE-only general
    discoverable, and the complete list of 128-bit service UUIDs; the two
    bytes left free before the UUID are the ones the header is written to.
    A code with a nonzero bottom half resets the chip, and 18 bytes or
    more would be written past the end of the array. *)
Theorem advertising_data (digits uuid : list Z) (e : Z) :
  length digits = 4%nat ->
  Forall hex_char digits ->
  Forall (fun b => 0 <= b < 256) uuid ->
  let name := [83; 49; 45] ++ digits ++ [0] in
  ((length uuid <= 17)%nat -> Z.land e 0x0000FFFF = 0 ->
   exists a,
     ble_init_adv name uuid e adv_init = Adv_built a /\
     adv_length a = 14 + Z.of_nat (length uuid) /\
     length (adv_payload a) = 31%nat /\
     ad_structures 4 (take (Z.to_nat (adv_length a)) (adv_payload a))
     = Some [(BLE_GAP_AD_TYPE_COMPLETE_LOCAL_NAME, [83; 49; 45] ++ digits);
             (BLE_GAP_AD_TYPE_FLAGS, [BLE_GAP_ADV_FLAGS_LE_ONLY_GENERAL_DISC_MODE]);
             (BLE_GAP_AD_TYPE_128BIT_SERVICE_UUID_COMPLETE, uuid)]) /\
  ((length uuid <= 17)%nat -> Z.land e 0x0000FFFF <> 0 ->
   ble_init_adv name uuid e adv_init = Adv_reset) /\
  ((18 <= length uuid)%nat ->
   ble_init_adv name uuid e adv_init = Adv_overrun).
Proof.
  intros Hl Hc Hu name.
  assert (Hs : strlen name = 7).
  { subst name. rewrite (app_assoc [83; 49; 45] digits [0]), strlen_chars.
    - rewrite length_app, Hl. reflexivity.
    - apply Forall_app. split; [| by apply hex_char_nonzero].
      repeat constructor; lia. }
  destruct digits as [| d1 [| d2 [| d3 [| d4 [| ? ?]]]]]; try discriminate.
  assert (Hd : Forall (fun b => 0 <= b < 256) [d1; d2; d3; d4]).
  { eapply Forall_impl; [| exact Hc]. unfold hex_char. intros c H. lia. }
  apply map_uint8_t_bytes in Hd. injection Hd as Hd1 Hd2 Hd3 Hd4.
  subst name. cbn [app] in *.
  rewrite ble_init_adv_name by done.
  rewrite Hd1, Hd2, Hd3, Hd4.
  assert (Hel : uint8_t (Z.of_nat (length uuid)) = Z.of_nat (length uuid) \/
                (18 <= length uuid)%nat).
  { destruct (le_lt_dec (length uuid) 17); [left | right; lia].
    apply uint8_t_small. lia. }
  split_and!.
  - intros HL He. destruct Hel as [Hel |]; [| lia].
    rewrite (ble_init_adv_uuid [8; 9; 83; 49; 45; d1; d2; d3; d4; 2; 1; 6])
      by done.
    rewrite He, Hel, map_uint8_t_bytes by done. cbn [Z.eqb negb].
    rewrite (adv_uuid_header [8; 9; 83; 49; 45; d1; d2; d3; d4; 2; 1; 6]) by done.
    eexists. split; [reflexivity |]. cbn [adv_length adv_payload].
    rewrite !uint8_t_small by lia.
    split_and!.
    + done.
    + simpl. rewrite length_app, repeat_length. lia.
    + replace ([8; 9; 83; 49; 45; d1; d2; d3; d4; 2; 1; 6]
               ++ 1 + Z.of_nat (length uuid)
                  :: BLE_GAP_AD_TYPE_128BIT_SERVICE_UUID_COMPLETE
                     :: uuid ++ repeat 0 (17 - length uuid))
        with ((Z.of_nat (length [83; 49; 45; d1; d2; d3; d4]) + 1
               :: BLE_GAP_AD_TYPE_COMPLETE_LOCAL_NAME
               :: [83; 49; 45; d1; d2; d3; d4]
               ++ (Z.of_nat (length [BLE_GAP_ADV_FLAGS_LE_ONLY_GENERAL_DISC_MODE]) + 1
                   :: BLE_GAP_AD_TYPE_FLAGS
                   :: [BLE_GAP_ADV_FLAGS_LE_ONLY_GENERAL_DISC_MODE]
                   ++ (Z.of_nat (length uuid) + 1
                       :: BLE_GAP_AD_TYPE_128BIT_SERVICE_UUID_COMPLETE
                       :: uuid ++ [])))
              ++ repeat 0 (17 - length uuid))
        by (rewrite app_nil_r, (Z.add_comm (Z.of_nat (length uuid)) 1); reflexivity).
      rewrite take_app_length'
        by (rewrite app_nil_r; simpl; lia).
      by rewrite !ad_structures_cons.
  - intros HL He. destruct Hel as [Hel |]; [| lia].
    rewrite (ble_init_adv_uuid [8; 9; 83; 49; 45; d1; d2; d3; d4; 2; 1; 6])
      by done.
    by destruct (Z.eqb_spec (Z.land e 65535) 0).
  - intros HL. apply adv_copy_overrun; cbn [adv_payload]; simpl length; lia.
Qed.


Lemma advertising_data_witness :
  let name := [83; 49; 45] ++ [49; 65; 50; 70] ++ [0] in
  let uuid := [0x9E; 0xCA; 0xDC; 0x24; 0x0E; 0xE5; 0xA9; 0xE0;
               0x93; 0xF3; 0xA3; 0xB5; 0x01; 0x00; 0x40; 0x6E] in
  exists a,
    ble_init_adv name uuid 0 adv_init = Adv_built a /\
    adv_length a = 14 + Z.of_nat (length uuid) /\
    length (adv_payload a) = 31%nat /\
    ad_structures 4 (take (Z.to_nat (adv_length a)) (adv_payload a))
    = Some [(BLE_GAP_AD_TYPE_COMPLETE_LOCAL_NAME, [83; 49; 45] ++ [49; 65; 50; 70]);
            (BLE_GAP_AD_TYPE_FLAGS, [BLE_GAP_ADV_FLAGS_LE_ONLY_GENERAL_DISC_MODE]);
            (BLE_GAP_AD_TYPE_128BIT_SERVICE_UUID_COMPLETE, uuid)].
Proof.
  refine (proj1 (advertising_data
                   [49; 65; 50; 70]
                   [0x9E; 0xCA; 0xDC; 0x24; 0x0E; 0xE5; 0xA9; 0xE0;
                    0x93; 0xF3; 0xA3; 0xB5; 0x01; 0x00; 0x40; 0x6E] 0 _ _ _) _ _).
  - reflexivity.
  - repeat (constructor; [unfold hex_char; lia |]). constructor.
  - repeat (constructor; [lia |]). constructor.
  - simpl. lia.
  - reflexivity.
Defined.

(** * The link *)

Lemma adv_starts_app (d1 d2 : list (call * state)) :
  adv_starts (d1 ++ d2) = adv_starts d1 ++ adv_starts d2.
Proof. unfold adv_starts. by rewrite map_app, list.filter_app. Qed.

Lemma on_ble_evt_link (N : Z) (q : queued) (w : world) :
  benign q ->
  exists w' d,
    on_ble_evt N (evt q) (sd_ret q) w = Returned tt w' /\
    connection (st w') = link (connection (st w)) q /\
    advertising (st w') = advertising (st w) /\
    log w' = log w ++ d /\
    adv_starts d
    = if is_disconnected q then [sd_ble_gap_adv_start (advertising (st w)) 1]
      else [].
Proof.
  intros H. unfold benign in H. unfold link, is_disconnected.
  destruct (evt q); unfold on_ble_evt, sd_call, bind, emit, ret, assert_if, set_st;
    cbn [st hvx idle log]; rewrite ?(nth_benign (sd_ret q) _ H);
    eexists _, _;
    cbn [st log connection advertising set_connection set_negotiated_mtu set_rx];
    (split_and!; [reflexivity | done | done | |]);
    first [ by rewrite <- app_assoc
          | reflexivity
          | by (instantiate (1 := []); rewrite app_nil_r)
          | idtac ]; reflexivity.
Qed.

(** X11. The handler on events that do not reset the chip: it returns, the
    connection handle is that of the last connection event, or invalid
    after a disconnection, advertising is started once for every
    disconnection, with the handle of the advertising set, and that
    handle is left as it is. *)
Theorem connection_follows_link (N : Z) (pending : list queued) (w : world) :
  Forall benign pending ->
  exists w' d,
    SWI2_IRQHandler N pending w = Returned tt w' /\
    connection (st w') = fold_left link pending (connection (st w)) /\
    advertising (st w') = advertising (st w) /\
    log w' = log w ++ d /\
    adv_starts d
    = repeat (sd_ble_gap_adv_start (advertising (st w)) 1)
             (length (filter (fun q => is_disconnected q = true) pending)).
Proof.
  intros H. revert w. induction H as [| q pending Hq _ IH]; intros w.
  - exists w, []. by rewrite app_nil_r.
  - destruct (on_ble_evt_link N q w Hq) as (w1 & d1 & H1 & Hc1 & Ha1 & Hl1 & Hs1).
    destruct (IH w1) as (w' & d2 & H2 & Hc2 & Ha2 & Hl2 & Hs2).
    exists w', (d1 ++ d2). cbn [SWI2_IRQHandler fold_left]. unfold bind.
    rewrite H1, H2, Hc2, Hc1, Ha2, Ha1, Hl2, Hl1, adv_starts_app, Hs1, Hs2, Ha1.
    split_and!; try done; [by rewrite app_assoc |].
    rewrite list.filter_cons. destruct (is_disconnected q).
    + by rewrite decide_True.
    + by rewrite decide_False.
Qed.

Lemma connection_follows_link_witness :
  let w := World (State 0xFFFF 3 16 0 (ring_init 8) (ring_init 8)) [] [] [] in
  let pending := [Queued (BLE_GAP_EVT_CONNECTED 0) [];
                  Queued (BLE_GAP_EVT_PHY_UPDATE_REQUEST 0) [];
                  Queued (BLE_GAP_EVT_DISCONNECTED 0) [];
                  Queued (BLE_GAP_EVT_CONNECTED 1) [0; 0]] in
  exists w' d,
    SWI2_IRQHandler 8 pending w = Returned tt w' /\
    connection (st w') = fold_left link pending (connection (st w)) /\
    advertising (st w') = advertising (st w) /\
    log w' = log w ++ d /\
    adv_starts d
    = repeat (sd_ble_gap_adv_start (advertising (st w)) 1)
             (length (filter (fun q => is_disconnected q = true) pending)).
Proof.
  apply (connection_follows_link
           8 [Queued (BLE_GAP_EVT_CONNECTED 0) [];
              Queued (BLE_GAP_EVT_PHY_UPDATE_REQUEST 0) [];
              Queued (BLE_GAP_EVT_DISCONNECTED 0) [];
              Queued (BLE_GAP_EVT_CONNECTED 1) [0; 0]]
           (World (State 0xFFFF 3 16 0 (ring_init 8) (ring_init 8)) [] [] [])).
  repeat constructor.
Defined.

(** * The flash *)

Section FlashFacts.

Import Flash.

Lemma spim_tx_rx_eq (tx_buffer : list (option Z)) (rx_len : nat) (w : world) :
  spim_tx_rx tx_buffer rx_len FLASH w
  = let r := hd (Xfer NRFX_SUCCESS []) (spi w) in
    let l := log w ++ xfer_log tx_buffer rx_len in
    if ok_reply r
    then Returned (received rx_len (miso r)) (World (flash_asleep w) (tl (spi w)) l)
    else SystemReset (World (flash_asleep w) (tl (spi w)) (l ++ [NVIC_SystemReset])).
Proof.
  unfold spim_tx_rx, bind, emit, next_reply, assert_if, ok_reply, xfer_log, ret.
  cbn [log spi flash_asleep code miso]. rewrite <- app_assoc.
  by destruct (Z.land _ _ =? 0).
Qed.

Lemma logs_ret {A : Type} (P : call -> Prop) (a : A) : logs P (ret a).
Proof. intros w. exists []. by rewrite app_nil_r. Qed.

Lemma logs_bind {A B : Type} (P : call -> Prop) (m : M A) (k : A -> M B) :
  logs P m -> (forall a, logs P (k a)) -> logs P (bind m k).
Proof.
  intros Hm Hk w. unfold bind. specialize (Hm w).
  destruct (m w) as [a w1 | e w1 | w1 | w1 |]; try done.
  destruct Hm as (d1 & Hl1 & Hd1). specialize (Hk a w1).
  destruct (k a w1) as [b w2 | e w2 | w2 | w2 |]; try done;
    destruct Hk as (d2 & Hl2 & Hd2); exists (d1 ++ d2);
    (split; [by rewrite Hl2, Hl1, app_assoc | by apply Forall_app]).
Qed.

Lemma logs_emit (P : call -> Prop) (c : call) : P c -> logs P (emit c).
Proof. intros Hc w. exists [c]. split; [done | by constructor]. Qed.

Lemma logs_raise {A : Type} (P : call -> Prop) (e : value_error) :
  logs P (@mp_raise_ValueError A e).
Proof. intros w. exists []. by rewrite app_nil_r. Qed.

Lemma logs_spim_tx_rx (tx_buffer : list (option Z)) (rx_len : nat) :
  is_command tx_buffer = true ->
  (length tx_buffer <= 260)%nat -> (rx_len <= 260)%nat ->
  logs framed (spim_tx_rx tx_buffer rx_len FLASH).
Proof.
  intros Hc Ht Hr w. rewrite spim_tx_rx_eq. cbv zeta.
  assert (Hx : Forall framed (xfer_log tx_buffer rx_len)).
  { unfold xfer_log. constructor; [done |]. constructor; [| constructor].
    by split_and!. }
  destruct (ok_reply _); cbn [log].
  - by exists (xfer_log tx_buffer rx_len).
  - exists (xfer_log tx_buffer rx_len ++ [NVIC_SystemReset]).
    split; [by rewrite <- app_assoc |].
    apply Forall_app. split; [done | by repeat constructor].
Qed.

Lemma logs_set_flash_asleep (P : call -> Prop) (b : bool) :
  logs P (set_flash_asleep b).
Proof. intros w. exists []. by rewrite app_nil_r. Qed.

Lemma logs_int_mul (P : call -> Prop) (a b : Z) : logs P (int_mul a b).
Proof.
  intros w. unfold int_mul.
  destruct (_ && _); exists []; by rewrite app_nil_r.
Qed.

Ltac logs_step :=
  lazymatch goal with
  | |- logs _ (bind _ _) => apply logs_bind; [| intros ?]
  | |- logs _ (spim_tx_rx _ _ _) =>
      apply logs_spim_tx_rx; [done | simpl; lia | simpl; lia]
  | |- logs _ (emit _) => by apply logs_emit
  | |- logs _ (ret _) => apply logs_ret
  | |- logs _ (mp_raise_ValueError _) => apply logs_raise
  | |- logs _ (int_mul _ _) => apply logs_int_mul
  | |- logs _ (set_flash_asleep _) => apply logs_set_flash_asleep
  | |- logs _ (if ?b then _ else _) => destruct b
  | |- logs _ (let _ := _ in _) => cbv zeta
  end.

Lemma logs_wake : logs framed machine_flash_wake.
Proof. unfold machine_flash_wake. repeat logs_step. Qed.

Lemma logs_wake_if_asleep : logs framed wake_if_asleep.
Proof.
  intros w. unfold wake_if_asleep. destruct (flash_asleep w) eqn:E.
  - apply logs_wake.
  - exists []. by rewrite app_nil_r.
Qed.

Lemma logs_wait (fuel : nat) : logs framed (wait_while_busy fuel).
Proof.
  induction fuel as [| fuel IH]; [done |].
  cbn [wait_while_busy]. unfold flash_busy. repeat logs_step. exact IH.
Qed.

Lemma bind_guard {A : Type} (c : bool) (e : value_error) (k : unit -> M A)
    (w : world) :
  bind (if c then mp_raise_ValueError e else ret tt) k w
  = if c then ValueError e w else k tt w.
Proof. by destruct c. Qed.

Lemma logs_guard {A : Type} (P : call -> Prop) (c : bool) (e : value_error)
    (k : unit -> M A) :
  (c = false -> logs P (k tt)) ->
  logs P (bind (if c then mp_raise_ValueError e else ret tt) k).
Proof.
  intros Hk w. rewrite bind_guard. destruct c; [| by apply Hk].
  exists []. by rewrite app_nil_r.
Qed.

Lemma logs_invoke (fuel : nat) (m : method) : logs framed (invoke fuel m).
Proof.
  pose proof logs_wake_if_asleep. pose proof (logs_wait fuel).
  destruct m as [| args | page len | page buf]; cbn [invoke].
  - unfold machine_flash_sleep. repeat logs_step.
  - unfold machine_flash_erase. destruct args; repeat logs_step; done.
  - apply logs_bind; [| intros ?; apply logs_ret].
    apply logs_guard. intros Hlen%Nat.ltb_ge. repeat logs_step; done.
  - apply logs_guard. intros Hlen%Nat.ltb_ge. repeat logs_step; try done.
    apply logs_spim_tx_rx; [done | | lia].
    rewrite length_map, length_app, length_map. simpl. lia.
Qed.

(** X12. Whatever methods of the [Flash] class are called in whatever
    order, with whatever arguments, and whatever the driver and the chip
    answer, every transfer the module makes selects the flash (chip select
    active low), is at most 260 bytes long each way, which is the size of
    [read_buff] and [write_buff], and begins with one of the nine command
    bytes of the module or with the byte behind [reset_cmd]: the reset
    command 0x99 itself is never sent. *)
Theorem flash_bus_discipline (fuel : nat) (ms : list method) (w : world) :
  match session fuel ms w with
  | Returned _ w' | ValueError _ w' | SystemReset w' | Undefined w' =>
      exists d, log w' = log w ++ d /\ Forall framed d
  | OutOfFuel => True
  end.
Proof.
  revert w. induction ms as [| m ms IH]; intros w.
  - exists []. by rewrite app_nil_r.
  - cbn [session]. pose proof (logs_invoke fuel m w) as Hm.
    destruct (invoke fuel m w) as [[] w1 | e w1 | w1 | w1 |]; try done;
      destruct Hm as (d1 & Hl1 & Hd1); specialize (IH w1);
      destruct (session fuel ms w1) as [[] w2 | e2 w2 | w2 | w2 |]; try done;
      destruct IH as (d2 & Hl2 & Hd2); exists (d1 ++ d2);
      (split; [by rewrite Hl2, Hl1, app_assoc | by apply Forall_app]).
Qed.

Lemma all_ok_hd (l : list xfer_reply) :
  all_ok l -> ok_reply (hd (Xfer NRFX_SUCCESS []) l) = true.
Proof. by destruct 1. Qed.

Lemma all_ok_drop (n : nat) (l : list xfer_reply) : all_ok l -> all_ok (drop n l).
Proof. apply Forall_drop. Qed.

Lemma spim_tx_rx_ok (tx_buffer : list (option Z)) (rx_len : nat) (w : world) :
  all_ok (spi w) ->
  spim_tx_rx tx_buffer rx_len FLASH w
  = Returned (received rx_len (miso (hd (Xfer NRFX_SUCCESS []) (spi w))))
             (World (flash_asleep w) (drop 1 (spi w))
                    (log w ++ xfer_log tx_buffer rx_len)).
Proof.
  intros Hok. rewrite spim_tx_rx_eq. cbv zeta. rewrite all_ok_hd by done.
  by destruct (spi w).
Qed.

Lemma wake_if_asleep_ok (w : world) :
  all_ok (spi w) ->
  wake_if_asleep w
  = Returned tt (World false (drop (if flash_asleep w then 3 else 0) (spi w))
                       (log w ++ if flash_asleep w then wake_log else [])).
Proof.
  intros Hok. unfold wake_if_asleep. destruct (flash_asleep w) eqn:E.
  - unfold machine_flash_wake, bind.
    rewrite spim_tx_rx_ok by done. cbn [emit log spi flash_asleep].
    rewrite spim_tx_rx_ok by (by apply all_ok_drop). cbn [emit log spi flash_asleep].
    rewrite spim_tx_rx_ok by (by do 2 apply all_ok_drop).
    cbn [emit log spi flash_asleep set_flash_asleep].
    rewrite !drop_drop. unfold wake_log. by rewrite <- !app_assoc.
  - rewrite app_nil_r, drop_0. destruct w. by simplify_eq/=.
Qed.

(** The wait: one status read for every busy answer, a millisecond after
    each, and one more that finds the flash ready. *)
Lemma wait_while_busy_ok (busy : list xfer_reply) :
  forall (fuel : nat) (rest : list xfer_reply) (w : world),
    spi w = busy ++ rest -> all_ok (spi w) ->
    Forall (fun r => busy_reply r = true) busy ->
    busy_reply (hd (Xfer NRFX_SUCCESS []) rest) = false ->
    (length busy < fuel)%nat ->
    wait_while_busy fuel w
    = Returned tt
        (World (flash_asleep w) (drop 1 rest)
               (log w
                ++ concat (repeat (xfer_log [Some 0x05] 2 ++ [NRFX_DELAY_US 1000])
                                  (length busy))
                ++ xfer_log [Some 0x05] 2)).
Proof.
  induction busy as [| r busy IH]; intros fuel rest w Hs Hok Hb Hr Hf;
    (destruct fuel as [| fuel]; [simpl in Hf; lia |]);
    cbn [wait_while_busy]; unfold flash_busy, bind;
    rewrite spim_tx_rx_ok by done; rewrite Hs.
  - cbn [app]. unfold busy_reply in Hr.
    change (nth 1 (received 2 ?m) 0) with (uint8_t (nth 1 m 0)).
    apply negb_false_iff in Hr. rewrite Hr. reflexivity.
  - cbn [app hd]. inversion Hb as [| ? ? Hr1 Hb']; subst.
    unfold busy_reply in Hr1.
    change (nth 1 (received 2 ?m) 0) with (uint8_t (nth 1 m 0)).
    apply negb_true_iff in Hr1. rewrite Hr1.
    cbn [emit log spi flash_asleep drop ret]. cbv beta iota.
    cbn [log spi flash_asleep].
    rewrite (IH fuel rest); cbn [log spi flash_asleep]; try done.
    + simpl length. cbn [repeat concat]. by rewrite <- !app_assoc.
    + rewrite Hs in Hok. by inversion Hok.
    + simpl in Hf. lia.
Qed.

(** The two address bytes of a command, for an address whose bottom byte
    is 0: with that byte they are the bottom 24 bits of the address. *)
Lemma command_address (cmd x : Z) :
  x mod 256 = 0 ->
  exists a2 a1,
    command cmd (uint32_t x) = [cmd; a2; a1; 0] /\
    0 <= a2 < 256 /\ 0 <= a1 < 256 /\
    a2 * 65536 + a1 * 256 = x mod 2 ^ 24.
Proof.
  intros Hx. unfold command, uint32_t, uint8_t. rewrite !Z.shiftr_div_pow2 by lia.
  eexists _, _. split; [reflexivity |].
  change (2 ^ 32) with 4294967296. change (2 ^ 24) with 16777216.
  change (2 ^ 16) with 65536. change (2 ^ 8) with 256.
  Z.div_mod_to_equations. lia.
Qed.

Lemma int_mul_ok (a b : Z) (w : world) :
  - 2 ^ 31 <= a * b < 2 ^ 31 -> int_mul a b w = Returned (a * b) w.
Proof.
  intros H. unfold int_mul.
  destruct (Z.leb_spec (- 2 ^ 31) (a * b)); [| lia].
  destruct (Z.ltb_spec (a * b) (2 ^ 31)); [done | lia].
Qed.

(** X13. [machine_flash_erase] with no argument or a block number up to
    1023, while the driver reports no error: the flash is woken first if
    it was asleep, then come the write enable 0x06 and the erase command,
    0x60 for the whole chip or 0x20 with the address of the block, and
    then the status is read until the flash is no longer busy, with a
    millisecond after every busy answer: as many delays as busy answers,
    one status read more. The address sent is 4096 times the block number
    for a block from 0; a negative block number is not refused, and is
    sent as block [block mod 4096]. The flash is awake afterwards. *)
Theorem erase_command_and_wait (fuel : nat) (args : list Z) (w : world)
    (busy rest : list xfer_reply) :
  (forall block, hd_error args = Some block -> - 2 ^ 19 <= block <= 1023) ->
  all_ok (spi w) ->
  drop (if flash_asleep w then 5 else 2) (spi w) = busy ++ rest ->
  Forall (fun r => busy_reply r = true) busy ->
  busy_reply (hd (Xfer NRFX_SUCCESS []) rest) = false ->
  (length busy < fuel)%nat ->
  exists cmd,
    machine_flash_erase fuel args w
    = Returned tt
        (World false (drop 1 rest)
               (log w
                ++ (if flash_asleep w then wake_log else [])
                ++ xfer_log [Some 0x06] 0
                ++ xfer_log (map Some cmd) 0
                ++ concat (repeat (xfer_log [Some 0x05] 2 ++ [NRFX_DELAY_US 1000])
                                  (length busy))
                ++ xfer_log [Some 0x05] 2)) /\
    match args with
    | [] => cmd = [0x60]
    | block :: _ =>
        exists a2 a1,
          cmd = [0x20; a2; a1; 0x00] /\ 0 <= a2 < 256 /\ 0 <= a1 < 256 /\
          a2 * 65536 + a1 * 256 = (block mod 4096) * 4096 /\
          (0 <= block -> a2 * 65536 + a1 * 256 = block * 4096)
    end.
Proof.
  intros Hblock Hok Hs Hb Hr Hf.
  unfold machine_flash_erase, bind at 1 2.
  rewrite wake_if_asleep_ok by done.
  rewrite spim_tx_rx_ok by (by apply all_ok_drop).
  cbn [log spi flash_asleep]. rewrite drop_drop.
  assert (Hs' : drop 1 (drop ((if flash_asleep w then 3 else 0) + 1) (spi w))
                = busy ++ rest).
  { rewrite drop_drop, <- Hs. by destruct (flash_asleep w). }
  destruct args as [| block args].
  - exists [0x60]. split; [| done]. unfold bind.
    rewrite spim_tx_rx_ok by (by apply all_ok_drop).
    rewrite (wait_while_busy_ok busy fuel rest); cbn [log spi flash_asleep];
      try done; [| by do 2 apply all_ok_drop].
    by rewrite <- !app_assoc.
  - specialize (Hblock block eq_refl).
    destruct (command_address 0x20 (block * 0x1000)) as (a2 & a1 & Hc & H2 & H1 & Ha).
    { Z.div_mod_to_equations. lia. }
    exists [0x20; a2; a1; 0]. split.
    + rewrite bind_guard. destruct (Z.gtb_spec block 1023); [lia |].
      unfold bind. rewrite int_mul_ok by lia. rewrite Hc.
      rewrite spim_tx_rx_ok by (by apply all_ok_drop).
      rewrite (wait_while_busy_ok busy fuel rest); cbn [log spi flash_asleep];
        try done; [| by do 2 apply all_ok_drop].
      by rewrite <- !app_assoc.
    + exists a2, a1. split_and!; try done; try lia.
      * rewrite Ha. change (2 ^ 24) with 16777216. Z.div_mod_to_equations. lia.
      * intros H0. rewrite Ha. change (2 ^ 24) with 16777216.
        Z.div_mod_to_equations. lia.
Qed.

Lemma erase_command_and_wait_witness :
  let w := World true
             (repeat (Xfer NRFX_SUCCESS []) 5
              ++ [Xfer NRFX_SUCCESS [0; 1]; Xfer NRFX_SUCCESS [0; 3];
                  Xfer NRFX_SUCCESS [0; 2]; Xfer NRFX_SUCCESS [7]]) [] in
  exists cmd,
    machine_flash_erase 3 [5] w
    = Returned tt
        (World false [Xfer NRFX_SUCCESS [7]]
               (wake_log ++ xfer_log [Some 0x06] 0 ++ xfer_log (map Some cmd) 0
                ++ concat (repeat (xfer_log [Some 0x05] 2 ++ [NRFX_DELAY_US 1000]) 2)
                ++ xfer_log [Some 0x05] 2)) /\
    exists a2 a1,
      cmd = [0x20; a2; a1; 0x00] /\ 0 <= a2 < 256 /\ 0 <= a1 < 256 /\
      a2 * 65536 + a1 * 256 = (5 mod 4096) * 4096 /\
      (0 <= 5 -> a2 * 65536 + a1 * 256 = 5 * 4096).
Proof.
  apply (erase_command_and_wait
           3 [5]
           (World true
              (repeat (Xfer NRFX_SUCCESS []) 5
               ++ [Xfer NRFX_SUCCESS [0; 1]; Xfer NRFX_SUCCESS [0; 3];
                   Xfer NRFX_SUCCESS [0; 2]; Xfer NRFX_SUCCESS [7]]) [])
           [Xfer NRFX_SUCCESS [0; 1]; Xfer NRFX_SUCCESS [0; 3]]
           [Xfer NRFX_SUCCESS [0; 2]; Xfer NRFX_SUCCESS [7]]).
  - intros block [= <-]. lia.
  - repeat constructor.
  - reflexivity.
  - repeat constructor.
  - reflexivity.
  - simpl. lia.
Defined.

(** X14. The range check of [machine_flash_erase] comes after the write
    enable: for a block number above 1023 the call raises [ValueError]
    with the flash already woken and the write enable already sent, and no
    erase command follows. Below -524288 the product with 4096 does not
    fit an [int], at the same point. *)
Theorem erase_checks_after_write_enable (fuel : nat) (block : Z) (more : list Z)
    (w : world) :
  all_ok (spi w) ->
  let w' := World false (drop (if flash_asleep w then 4 else 1) (spi w))
                  (log w ++ (if flash_asleep w then wake_log else [])
                   ++ xfer_log [Some 0x06] 0) in
  (1023 < block ->
   machine_flash_erase fuel (block :: more) w
   = ValueError block_number_must_be_less_than_1024 w') /\
  (block < - 2 ^ 19 ->
   machine_flash_erase fuel (block :: more) w = Undefined w').
Proof.
  intros Hok w'.
  assert (Hpre : forall k : list Z -> M unit,
             bind wake_if_asleep
                  (fun _ => bind (spim_tx_rx [Some 0x06] 0 FLASH) k) w
             = k [] w').
  { intros k. unfold bind. rewrite wake_if_asleep_ok by done.
    rewrite spim_tx_rx_ok by (by apply all_ok_drop).
    cbn [log spi flash_asleep]. rewrite drop_drop, <- app_assoc.
    subst w'. by destruct (flash_asleep w). }
  unfold machine_flash_erase. rewrite Hpre. split; intros Hb; rewrite bind_guard.
  - by destruct (Z.gtb_spec block 1023); [| lia].
  - destruct (Z.gtb_spec block 1023); [lia |].
    unfold bind, int_mul.
    by destruct (Z.leb_spec (- 2 ^ 31) (block * 4096)); [lia |].
Qed.

Lemma erase_checks_after_write_enable_witness :
  machine_flash_erase 1 [1024] (World true [] [])
  = ValueError block_number_must_be_less_than_1024
      (World false [] (wake_log ++ xfer_log [Some 0x06] 0)) /\
  machine_flash_erase 1 [- 524289] (World false [] [])
  = Undefined (World false [] (xfer_log [Some 0x06] 0)).
Proof.
  split.
  - apply (erase_checks_after_write_enable 1 1024 [] (World true [] []));
      [constructor | lia].
  - apply (erase_checks_after_write_enable 1 (- 524289) [] (World false [] []));
      [constructor | lia].
Defined.

Lemma received_lookup (rx_len i : nat) (m : list Z) :
  (i < rx_len)%nat -> received rx_len m !! i = Some (uint8_t (nth i m 0)).
Proof.
  intros Hi. unfold received. rewrite list_lookup_fmap.
  change (seq 0 rx_len) with (seq 0 rx_len). rewrite lookup_seq_lt by done.
  reflexivity.
Qed.

Lemma received_length (rx_len : nat) (m : list Z) :
  length (received rx_len m) = rx_len.
Proof. unfold received. by rewrite length_map, length_seq. Qed.

(** X15. [machine_flash_read]: a buffer of more than 256 bytes is refused
    before anything is sent or changed. Otherwise, while the driver
    reports no error, the flash is woken first if it was asleep, and one
    transfer is made, of the command 0x03 with a three-byte address, whose
    two upper bytes are the bottom 16 bits of the page number and whose
    bottom byte is 0 (pages 65536 apart give the same command), receiving
    4 bytes more than the buffer holds; the buffer gets the bytes received
    after the first four. *)
Theorem read_page (page : Z) (len : nat) (w : world) :
  ((256 < len)%nat ->
   machine_flash_read page len w
   = ValueError buffer_cannot_be_bigger_than_256_bytes w) /\
  ((len <= 256)%nat -> - 2 ^ 23 <= page < 2 ^ 23 -> all_ok (spi w) ->
   let n := if flash_asleep w then 3%nat else 0%nat in
   let r := hd (Xfer NRFX_SUCCESS []) (drop n (spi w)) in
   exists a2 a1 data,
     machine_flash_read page len w
     = Returned data
         (World false (drop (n + 1) (spi w))
                (log w ++ (if flash_asleep w then wake_log else [])
                 ++ xfer_log (map Some [0x03; a2; a1; 0x00]) (len + 4))) /\
     0 <= a2 < 256 /\ 0 <= a1 < 256 /\ a2 * 256 + a1 = page mod 65536 /\
     length data = len /\
     forall i, (i < len)%nat -> nth i data 0 = uint8_t (nth (4 + i) (miso r) 0)).
Proof.
  split.
  - intros Hlen. unfold machine_flash_read. rewrite bind_guard.
    by destruct (Nat.ltb_spec 256 len); [| lia].
  - intros Hlen Hpage Hok n r.
    destruct (command_address 0x03 (page * 0x100)) as (a2 & a1 & Hc & H2 & H1 & Ha).
    { Z.div_mod_to_equations. lia. }
    exists a2, a1, (firstn len (skipn 4 (received (len + 4) (miso r)))).
    split_and!; try lia.
    + unfold machine_flash_read. rewrite bind_guard.
      destruct (Nat.ltb_spec 256 len); [lia |].
      unfold bind. rewrite wake_if_asleep_ok by done.
      rewrite int_mul_ok by lia. rewrite Hc.
      rewrite spim_tx_rx_ok by (by apply all_ok_drop).
      cbn [log spi flash_asleep ret]. by rewrite drop_drop, <- app_assoc.
    + change (2 ^ 24) with 16777216 in Ha. Z.div_mod_to_equations. lia.
    + rewrite length_take, length_drop, received_length. lia.
    + intros i Hi. rewrite nth_lookup, lookup_take.
      rewrite lookup_drop, received_lookup by lia.
      by rewrite decide_True.
Qed.

Lemma read_page_witness :
  machine_flash_read 0 257 (World true [] [])
  = ValueError buffer_cannot_be_bigger_than_256_bytes (World true [] []) /\
  exists a2 a1 data,
    machine_flash_read 65538 3
      (World false [Xfer NRFX_SUCCESS [0; 0; 0; 0; 10; 20; 30; 40]] [])
    = Returned data
        (World false [] (xfer_log (map Some [0x03; a2; a1; 0x00]) (3 + 4))) /\
    0 <= a2 < 256 /\ 0 <= a1 < 256 /\ a2 * 256 + a1 = 65538 mod 65536 /\
    length data = 3%nat /\
    forall i, (i < 3)%nat ->
              nth i data 0 = uint8_t (nth (4 + i) [0; 0; 0; 0; 10; 20; 30; 40] 0).
Proof.
  split.
  - apply (proj1 (read_page 0 257 (World true [] []))). lia.
  - apply (proj2 (read_page 65538 3
                    (World false [Xfer NRFX_SUCCESS [0; 0; 0; 0; 10; 20; 30; 40]] []))).
    + lia.
    + lia.
    + repeat constructor.
Defined.

(** X16. [machine_flash_write]: a buffer of more than 256 bytes is
    refused before anything is sent or changed. Otherwise, while the
    driver reports no error, the flash is woken first if it was asleep,
    the write enable 0x06 is sent, and then in one transfer the command
    0x02, the address as for a read, and the bytes of the buffer; the
    function returns without reading the status. *)
Theorem write_page (page : Z) (buf : list Z) (w : world) :
  ((256 < length buf)%nat ->
   machine_flash_write page buf w
   = ValueError buffer_cannot_be_bigger_than_256_bytes w) /\
  ((length buf <= 256)%nat -> - 2 ^ 23 <= page < 2 ^ 23 -> all_ok (spi w) ->
   exists a2 a1,
     machine_flash_write page buf w
     = Returned tt
         (World false (drop ((if flash_asleep w then 3 else 0) + 2) (spi w))
                (log w ++ (if flash_asleep w then wake_log else [])
                 ++ xfer_log [Some 0x06] 0
                 ++ xfer_log (map Some ([0x02; a2; a1; 0x00] ++ map uint8_t buf)) 0)) /\
     0 <= a2 < 256 /\ 0 <= a1 < 256 /\ a2 * 256 + a1 = page mod 65536).
Proof.
  split.
  - intros Hlen. unfold machine_flash_write. rewrite bind_guard.
    by destruct (Nat.ltb_spec 256 (length buf)); [| lia].
  - intros Hlen Hpage Hok.
    destruct (command_address 0x02 (page * 0x100)) as (a2 & a1 & Hc & H2 & H1 & Ha).
    { Z.div_mod_to_equations. lia. }
    exists a2, a1. split_and!; try lia.
    + unfold machine_flash_write. rewrite bind_guard.
      destruct (Nat.ltb_spec 256 (length buf)); [lia |].
      unfold bind. rewrite wake_if_asleep_ok by done.
      rewrite spim_tx_rx_ok by (by apply all_ok_drop).
      rewrite int_mul_ok by lia. rewrite Hc.
      rewrite spim_tx_rx_ok by (by do 2 apply all_ok_drop).
      cbn [log spi flash_asleep ret]. by rewrite !drop_drop, <- !app_assoc.
    + change (2 ^ 24) with 16777216 in Ha. Z.div_mod_to_equations. lia.
Qed.

Lemma write_page_witness :
  machine_flash_write 0 (repeat 0 257) (World true [] [])
  = ValueError buffer_cannot_be_bigger_than_256_bytes (World true [] []) /\
  exists a2 a1,
    machine_flash_write 258 [1; 2; 3] (World true [] [])
    = Returned tt
        (World false []
               (wake_log ++ xfer_log [Some 0x06] 0
                ++ xfer_log (map Some ([0x02; a2; a1; 0x00] ++ map uint8_t [1; 2; 3])) 0)) /\
    0 <= a2 < 256 /\ 0 <= a1 < 256 /\ a2 * 256 + a1 = 258 mod 65536.
Proof.
  split.
  - apply (proj1 (write_page 0 (repeat 0 257) (World true [] []))). simpl. lia.
  - apply (proj2 (write_page 258 [1; 2; 3] (World true [] []))).
    + simpl. lia.
    + lia.
    + constructor.
Defined.

End FlashFacts.

(** * The FPGA state *)

Section FpgaFacts.

Import Fpga.

Lemma steps_app (w : world) (es1 es2 : list event) :
  steps w (es1 ++ es2) = steps (steps w es1) es2.
Proof. apply fold_left_app. Qed.

(** Between two commands the state only moves from configuring to
    running, on the first rising edge, and the pin 20 is not driven. *)
Lemma quiet_steps (es : list event) :
  forall w,
    forallb quiet es = true ->
    fpga_state (steps w es)
    = match fpga_state w with
      | FPGA_CONFIGURING =>
          if existsb rising es then FPGA_RUNNING else FPGA_CONFIGURING
      | s => s
      end /\
    filter (fun c => is_callback c = false) (log (steps w es))
    = filter (fun c => is_callback c = false) (log w).
Proof.
  induction es as [| e es IH]; intros w Hq.
  - change (steps w []) with w. split; [by destruct (fpga_state w) | done].
  - cbn [forallb] in Hq. apply andb_true_iff in Hq as [He Hq].
    change (steps w (e :: es)) with (steps (step w e) es).
    destruct (IH (step w e) Hq) as [-> ->]. cbn [existsb].
    destruct e as [| | | h | | level]; try discriminate;
      cbn [step rising orb machine_fpga_irq machine_fpga_irq_disable
           fpga_state log]; try done.
    unfold fpga_done_pin_irq_handler.
    destruct (fpga_state w) eqn:Es.
    + destruct (enabled w); cbn [fpga_state log]; rewrite ?Es; [| done].
      split; [done |]. rewrite list.filter_app. cbn. by rewrite app_nil_r.
    + destruct (level =? 1); cbn [fpga_state log orb]; by rewrite ?Es.
    + by rewrite Es.
Qed.

(** X17. What [status] reports depends only on the last [run] or [reset]
    and on the edges of the done pin since: after a [reset] it is the
    reset state whatever the pin does; after a [run] it is configuring
    until the handler sees the pin high, and running from then on,
    whatever the pin does next. The reset pin 20 was last set by that
    [run], or cleared by that [reset]. *)
Theorem fpga_state_since_last_command (w : world) (before after : list event) :
  forallb quiet after = true ->
  (let w' := steps w (before ++ reset :: after) in
   machine_fpga_status w' = MP_QSTR_FPGA_RESET /\
   list.last (filter (fun c => is_callback c = false) (log w'))
   = Some (nrf_gpio_pin_clear 20)) /\
  (let w' := steps w (before ++ run :: after) in
   machine_fpga_status w'
   = (if existsb rising after then MP_QSTR_FPGA_RUNNING
      else MP_QSTR_FPGA_CONFIGURING) /\
   list.last (filter (fun c => is_callback c = false) (log w'))
   = Some (nrf_gpio_pin_set 20)).
Proof.
  intros Hq. split; intros w'; subst w'; rewrite steps_app.
  - change (steps ?v (reset :: after)) with (steps (step v reset) after).
    destruct (quiet_steps after (step (steps w before) reset) Hq) as [Hs Hl].
    unfold machine_fpga_status. rewrite Hs, Hl. cbn [step machine_fpga_reset fpga_state log].
    split; [done |]. rewrite list.filter_app. cbn. apply last_snoc.
  - change (steps ?v (run :: after)) with (steps (step v run) after).
    destruct (quiet_steps after (step (steps w before) run) Hq) as [Hs Hl].
    unfold machine_fpga_status. rewrite Hs, Hl. cbn [step machine_fpga_run fpga_state log].
    split; [by destruct (existsb rising after) |].
    rewrite list.filter_app. cbn. apply last_snoc.
Qed.

Lemma fpga_state_since_last_command_witness :
  machine_fpga_status
    (steps world_init ([run; done_pin 1] ++ run :: [status; done_pin 0; irq 7]))
  = MP_QSTR_FPGA_CONFIGURING /\
  machine_fpga_status
    (steps world_init ([reset] ++ run :: [done_pin 0; done_pin 1; done_pin 0]))
  = MP_QSTR_FPGA_RUNNING /\
  machine_fpga_status
    (steps world_init ([run; done_pin 1] ++ reset :: [done_pin 1]))
  = MP_QSTR_FPGA_RESET.
Proof.
  split_and!.
  - apply (proj2 (fpga_state_since_last_command
                    world_init [run; done_pin 1] [status; done_pin 0; irq 7]
                    eq_refl)).
  - apply (proj2 (fpga_state_since_last_command
                    world_init [reset] [done_pin 0; done_pin 1; done_pin 0]
                    eq_refl)).
  - apply (proj1 (fpga_state_since_last_command
                    world_init [run; done_pin 1] [done_pin 1] eq_refl)).
Defined.

(** X18. No function sets [done_pin_irq.enabled], which starts false, so
    the function given to [irq] is never called: as long as the flag is
    false, whatever methods are called and whatever the done pin does, the
    flag stays false and no call of a Python function is made. *)
Theorem fpga_irq_never_delivered (w : world) (es : list event) :
  enabled w = false ->
  enabled (steps w es) = false /\
  exists d, log (steps w es) = log w ++ d /\ Forall (fun c => is_callback c = false) d.
Proof.
  revert w. induction es as [| e es IH]; intros w Hen.
  - split; [done |]. exists []. by rewrite app_nil_r.
  - change (steps w (e :: es)) with (steps (step w e) es).
    assert (He : enabled (step w e) = false /\
                 exists d, log (step w e) = log w ++ d /\
                           Forall (fun c => is_callback c = false) d).
    { destruct e as [| | | h | | level];
        cbn [step machine_fpga_run machine_fpga_reset machine_fpga_irq
             machine_fpga_irq_disable enabled log].
      - split; [done |]. eexists. split; [done |]. by repeat constructor.
      - split; [done |]. eexists. split; [done |]. by repeat constructor.
      - split; [done |]. exists []. by rewrite app_nil_r.
      - split; [done |]. exists []. by rewrite app_nil_r.
      - split; [done |]. exists []. by rewrite app_nil_r.
      - unfold fpga_done_pin_irq_handler. rewrite Hen.
        destruct (fpga_state w); [| destruct (level =? 1) |];
          (split; [done |]); exists []; by rewrite app_nil_r. }
    destruct He as (Hen1 & d1 & Hl1 & Hd1).
    destruct (IH (step w e) Hen1) as (Hen2 & d2 & Hl2 & Hd2).
    split; [done |]. exists (d1 ++ d2).
    split; [by rewrite Hl2, Hl1, app_assoc | by apply Forall_app].
Qed.

Lemma fpga_irq_never_delivered_witness :
  enabled (steps world_init [irq 7; run; done_pin 1; done_pin 0; done_pin 1]) = false /\
  exists d,
    log (steps world_init [irq 7; run; done_pin 1; done_pin 0; done_pin 1])
    = log world_init ++ d /\
    Forall (fun c => is_callback c = false) d.
Proof.
  apply (fpga_irq_never_delivered
           world_init [irq 7; run; done_pin 1; done_pin 0; done_pin 1]).
  reflexivity.
Defined.

End FpgaFacts.

(** * The clock *)

Section RtcFacts.

Import Rtc.

Lemma uint32_t_add_l (a b : Z) : uint32_t (uint32_t a + b) = uint32_t (a + b).
Proof. unfold uint32_t. by rewrite Zplus_mod_idemp_l. Qed.

Lemma uint32_t_range (a : Z) : 0 <= uint32_t a < 2 ^ 32.
Proof. apply Z.mod_pos_bound. lia. Qed.

Lemma uint32_t_small (a : Z) : 0 <= a < 2 ^ 32 -> uint32_t a = a.
Proof. apply Z.mod_small. Qed.

Lemma hours_cons (i : irq) (b : list irq) :
  hours (i :: b) = (if is_compare0 i then 1 else 0) + hours b.
Proof.
  unfold hours. rewrite list.filter_cons.
  destruct (is_compare0 i).
  - rewrite decide_True by done. cbn [length]. lia.
  - rewrite decide_False by done. lia.
Qed.

(** Interrupts served one after the other: an hour for each
    [NRFX_RTC_INT_COMPARE0], the flag cleared by the first
    [NRFX_RTC_INT_COMPARE1]. *)
Lemma serve_all (b : list irq) :
  forall w,
    0 <= epoch_time_ref w < 2 ^ 32 ->
    let w' := fold_left serve b w in
    epoch_time_ref w' = uint32_t (epoch_time_ref w + 3600 * hours b) /\
    waiting w' = waiting w && negb (existsb is_compare1 b) /\
    irqs w' = irqs w /\
    log w' = log w ++ concat (map handler_log b).
Proof.
  induction b as [| i b IH]; intros w Hr.
  - cbn. rewrite Z.add_0_r, uint32_t_small by done.
    split_and!; try done; [by rewrite andb_true_r | by rewrite app_nil_r].
  - change (fold_left serve (i :: b) w) with (fold_left serve b (serve w i)).
    cbv zeta. rewrite hours_cons.
    assert (Hs : epoch_time_ref (serve w i)
                 = uint32_t (epoch_time_ref w + 3600 * (if is_compare0 i then 1 else 0)) /\
                 waiting (serve w i) = waiting w && negb (is_compare1 i) /\
                 irqs (serve w i) = irqs w /\
                 log (serve w i) = log w ++ handler_log i).
    { unfold serve, reads, handler_log, is_compare0, is_compare1.
      destruct i as [c []]; cbn;
        rewrite ?Z.add_0_r, ?andb_true_r, ?andb_false_r, ?app_nil_r,
                ?uint32_t_small by done; done. }
    destruct Hs as (He1 & Hw1 & Hi1 & Hl1).
    destruct (IH (serve w i)) as (He & Hw & Hi & Hl).
    { rewrite He1. apply uint32_t_range. }
    rewrite He, Hw, Hi, Hl, He1, Hw1, Hi1, Hl1.
    split_and!; try done.
    + rewrite uint32_t_add_l. f_equal. lia.
    + cbn [existsb]. rewrite negb_orb. by rewrite andb_assoc.
    + cbn [map concat]. by rewrite app_assoc.
Qed.






(** X20. The number [machine_rtc_time] makes an object of, with
    [MP_OBJ_NEW_SMALL_INT], is the value the time was last set to, plus an
    hour for every compare 0 interrupt served since, whatever the counter
    read when each was served, plus the thousands in the counter now, in
    32 bits; what the caller gets is what the macro makes of that number.
    So the handler of compare 0 leaves the object returned as it is when
    it runs with the counter from 3600000 to 3600999. *)
Theorem clock_counts_hours {mp_obj_t : Type} (MP_OBJ_NEW_SMALL_INT : Z -> mp_obj_t)
    (w : world) (v c : Z) (l : list irq) :
  fst (machine_rtc_time MP_OBJ_NEW_SMALL_INT []
         (reads c (fold_left serve l
                     (snd (machine_rtc_time MP_OBJ_NEW_SMALL_INT [v] w)))))
  = Some (MP_OBJ_NEW_SMALL_INT (uint32_t (v + 3600 * hours l + c / 1000))) /\
  (0 <= epoch_time_ref w < 2 ^ 32 -> 3600000 <= c < 3601000 ->
   fst (machine_rtc_time MP_OBJ_NEW_SMALL_INT []
          (serve w (Irq c NRFX_RTC_INT_COMPARE0)))
   = fst (machine_rtc_time MP_OBJ_NEW_SMALL_INT [] (reads c w))).
Proof.
  split.
  - cbn [machine_rtc_time snd].
    set (w1 := World _ _ _ _ _).
    destruct (serve_all l w1) as (He & _); [apply uint32_t_range |].
    cbn [machine_rtc_time fst reads counter epoch_time_ref]. rewrite He.
    cbn [w1 epoch_time_ref]. do 2 f_equal.
    rewrite uint32_t_add_l, Z.add_comm, uint32_t_add_l. f_equal; lia.
  - intros Hr Hc. cbn. do 2 f_equal.
    replace (c / 1000) with 3600 by (Z.div_mod_to_equations; lia).
    rewrite Z.add_comm. change (0 `div` 1000) with 0.
    rewrite uint32_t_add_l. f_equal; lia.
Qed.

Lemma clock_counts_hours_witness :
  fst (machine_rtc_time (fun time => time) []
         (serve (World 7 false 0 [] []) (Irq 3600500 NRFX_RTC_INT_COMPARE0)))
  = fst (machine_rtc_time (fun time => time) []
           (reads 3600500 (World 7 false 0 [] []))).
Proof.
  apply (proj2 (clock_counts_hours (fun time => time)
                  (World 7 false 0 [] []) 0 3600500 [])).
  - simpl. lia.
  - lia.
Defined.

End RtcFacts.

(** * The allocator *)

Section LibFacts.

Import Lib.

(** [(n + 7) & ~7] is [n] rounded up to a multiple of 8. *)
Lemma round_up_8 (n : Z) :
  0 <= n <= 2 ^ 32 - 8 ->
  let r := Z.land (size_t (n + 7)) (size_t (Z.lnot 7)) in
  n <= r < n + 8 /\ r mod 8 = 0.
Proof.
  intros Hn r.
  assert (Hr : r = 8 * ((n + 7) / 8)).
  { subst r. unfold size_t. rewrite (Z.mod_small (n + 7)) by lia.
    change (Z.lnot 7 mod 2 ^ 32) with (Z.shiftl (Z.ones 29) 3).
    replace (8 * ((n + 7) / 8)) with (Z.shiftl (Z.shiftr (n + 7) 3) 3)
      by (rewrite Z.shiftl_mul_pow2, Z.shiftr_div_pow2 by lia;
          change (2 ^ 3) with 8; lia).
    apply Z.bits_inj'. intros i Hi. rewrite Z.land_spec.
    destruct (Z_lt_le_dec i 3).
    - rewrite !Z.shiftl_spec_low by lia. apply andb_false_r.
    - rewrite !Z.shiftl_spec_high by lia. rewrite Z.shiftr_spec by lia.
      replace (i - 3 + 3) with i by lia.
      destruct (Z_lt_le_dec (i - 3) 29).
      + rewrite Z.ones_spec_low by lia. apply andb_true_r.
      + rewrite Z.ones_spec_high by lia. rewrite andb_false_r.
        symmetry. apply Z.bits_above_log2; [lia |].
        apply Z.log2_lt_pow2; [lia |].
        apply Z.lt_le_trans with (2 ^ 32); [lia |].
        apply Z.pow_le_mono_r; lia. }
  rewrite Hr. Z.div_mod_to_equations. lia.
Qed.

Lemma malloc_top (hs n : Z) (s : state) :
  0 < top hs s -> 0 <= n -> top hs s + n + 7 < 2 ^ 32 ->
  let (ptr, s') := malloc hs n s in
  ptr = top hs s /\ mem s' = mem s /\
  top hs s + n <= top hs s' <= top hs s + n + 7 /\
  (top hs s' - top hs s) mod 8 = 0.
Proof.
  intros Ht Hn Hb. unfold malloc. fold (top hs s).
  destruct (round_up_8 n ltac:(lia)) as [Hr Hm].
  set (r := Z.land _ _) in *. cbv zeta in Hr, Hm.
  assert (Hp : pointer (top hs s + r) = top hs s + r).
  { unfold pointer. apply Z.mod_small. lia. }
  rewrite Hp.
  assert (Ht' : top hs (State (top hs s + r) (mem s)) = top hs s + r).
  { unfold top at 1. cbn [cur_heap].
    destruct (Z.eqb_spec (top hs s + r) NULL) as [E | E]; [unfold NULL in E; lia |].
    done. }
  rewrite Ht'. cbn [mem]. split_and!; try done; try lia.
  by replace (top hs s + r - top hs s) with r by lia.
Qed.

Lemma needed_nonneg (rs : list request) :
  Forall (fun r => 0 <= asked r) rs -> 0 <= needed rs.
Proof.
  induction 1 as [| r rs Hr _ IH]; [done |].
  cbn [needed fold_right]. fold (needed rs). destruct r; cbn [room asked] in *; lia.
Qed.

(** X21. Whatever is asked of [malloc] and given to [free], in whatever
    order, as long as there is room for the sizes asked, each with 7
    bytes of rounding, below 2^32: the blocks handed out lie one behind
    the other from the first free address, in the order asked, each at a
    multiple of 8 bytes from it, and no two share a byte; what is freed is
    never handed out again, and the memory is not touched. No request is
    refused, and nothing is checked against the end of the heap: without
    that room the pointer wraps, as [malloc_wraps_at_4G] shows. *)
Theorem malloc_blocks_apart (hs : Z) (rs : list request) :
  forall s,
    0 < top hs s ->
    Forall (fun r => 0 <= asked r) rs ->
    top hs s + needed rs < 2 ^ 32 ->
    let (blocks, s') := requests hs rs s in
    top hs s <= top hs s' < 2 ^ 32 /\ (top hs s' - top hs s) mod 8 = 0 /\
    mem s' = mem s /\
    Forall (fun b => top hs s <= fst b /\ fst b + snd b <= top hs s' /\
                     (fst b - top hs s) mod 8 = 0) blocks /\
    forall i j b1 b2,
      (i < j)%nat -> blocks !! i = Some b1 -> blocks !! j = Some b2 ->
      fst b1 + snd b1 <= fst b2.
Proof.
  induction rs as [| r rs IH]; intros s Ht Hrs Hroom.
  - cbn in *. split_and!; try done; try lia. by rewrite Z.sub_diag.
  - inversion Hrs as [| ? ? Hr Hrs']; subst.
    pose proof (needed_nonneg rs Hrs') as Hnn.
    cbn [needed fold_right] in Hroom. fold (needed rs) in Hroom.
    destruct r as [n | p]; cbn [requests asked free room] in *;
      [| apply IH; [done | done | lia]].
    pose proof (malloc_top hs n s Ht Hr ltac:(lia)) as Hm.
    destruct (malloc hs n s) as [ptr s1]. destruct Hm as (-> & Hmem & Htop & Hal).
    specialize (IH s1 ltac:(lia) Hrs' ltac:(lia)).
    destruct (requests hs rs s1) as [blocks s2].
    destruct IH as (Hle & Hal2 & Hmem2 & Hall & Hord).
    split_and!.
    + lia.
    + lia.
    + replace (top hs s2 - top hs s)
        with ((top hs s2 - top hs s1) + (top hs s1 - top hs s)) by lia.
      rewrite Z.add_mod, Hal, Hal2 by lia. reflexivity.
    + congruence.
    + constructor.
      * cbn [fst snd]. split_and!; [lia | lia | by rewrite Z.sub_diag].
      * eapply Forall_impl; [| exact Hall]. cbv beta.
        intros b (H1 & H2 & H3). split_and!; [lia | lia |].
        replace (fst b - top hs s)
          with ((fst b - top hs s1) + (top hs s1 - top hs s)) by lia.
        rewrite Z.add_mod, Hal, H3 by lia. reflexivity.
    + intros i j b1 b2 Hij H1 H2.
      destruct j as [| j]; [lia |]. cbn in H2.
      destruct i as [| i].
      * cbn in H1. injection H1 as <-. cbn [fst snd].
        destruct (Forall_lookup_1 _ _ _ _ Hall H2) as (Hb & _). lia.
      * cbn in H1. apply (Hord i j); [lia | done | done].
Qed.

Lemma malloc_blocks_apart_witness :
  let (blocks, s') :=
    requests 0x20002000 [alloc 5; release 0x20002000; alloc 16; alloc 0]
             (State NULL (fun _ => 0)) in
  top 0x20002000 (State NULL (fun _ => 0)) <= top 0x20002000 s' < 2 ^ 32 /\
  (top 0x20002000 s' - top 0x20002000 (State NULL (fun _ => 0))) mod 8 = 0 /\
  mem s' = mem (State NULL (fun _ => 0)) /\
  Forall (fun b => top 0x20002000 (State NULL (fun _ => 0)) <= fst b /\
                   fst b + snd b <= top 0x20002000 s' /\
                   (fst b - top 0x20002000 (State NULL (fun _ => 0))) mod 8 = 0)
         blocks /\
  forall i j b1 b2,
    (i < j)%nat -> blocks !! i = Some b1 -> blocks !! j = Some b2 ->
    fst b1 + snd b1 <= fst b2.
Proof.
  apply (malloc_blocks_apart
           0x20002000 [alloc 5; release 0x20002000; alloc 16; alloc 0]
           (State NULL (fun _ => 0))).
  - reflexivity.
  - repeat (constructor; [simpl; lia |]). constructor.
  - reflexivity.
Defined.

(** Without the room: two blocks of 2^31 bytes bring the pointer back to
    where it was, and the third block is the first. *)
Example malloc_wraps_at_4G :
  fst (requests 0x20002000 [alloc (2 ^ 31); alloc (2 ^ 31); alloc 8]
                (State NULL (fun _ => 0)))
  = [(0x20002000, 2 ^ 31); (0xA0002000, 2 ^ 31); (0x20002000, 8)].
Proof. vm_compute. reflexivity. Qed.

(** X22. [realloc] of a block below what [malloc] has handed out: when the
    [size] bytes from [ptr] end at or before the first free address, and
    there is room for the new block below 2^32, the new block is there,
    holds a copy of these bytes (those behind the old block too, when the
    new size is larger), and nothing below it has changed. When they
    reach beyond the first free address, as when the last block handed out
    is made larger than its rounded size, the two regions given to
    [memcpy] overlap. *)
Theorem realloc_copies_or_overlaps (hs ptr size : Z) (s : state) :
  0 < ptr < top hs s -> 0 < size ->
  (ptr + size <= top hs s -> top hs s + size + 7 < 2 ^ 32 ->
   exists s',
     realloc hs ptr size s = Some (top hs s, s') /\
     (forall i, 0 <= i < size -> mem s' (top hs s + i) = mem s (ptr + i)) /\
     (forall a, a < top hs s -> mem s' a = mem s a) /\
     top hs s + size <= top hs s' < 2 ^ 32) /\
  (top hs s < ptr + size -> realloc hs ptr size s = None).
Proof.
  intros Hp Hs. split.
  - intros Hfit Hroom. unfold realloc.
    pose proof (malloc_top hs size s ltac:(lia) ltac:(lia) Hroom) as Hm.
    destruct (malloc hs size s) as [ptr2 s1]. destruct Hm as (-> & Hmem & Htop & _).
    destruct (Z.eqb_spec ptr NULL) as [E | _]; [unfold NULL in E; lia |].
    destruct (Z.eqb_spec size 0) as [E | _]; [lia |].
    cbn [negb andb]. unfold overlap.
    destruct (Z.ltb_spec (top hs s) (ptr + size)); [lia |]. cbn [andb].
    eexists. split; [reflexivity |]. cbn [mem]. rewrite Hmem.
    assert (Ht' : top hs {| cur_heap := cur_heap s1;
                            mem := memcpy (top hs s) ptr size (mem s) |}
                  = top hs s1) by done.
    rewrite Ht'. split_and!; [| | lia | lia].
    + intros i Hi. unfold memcpy.
      destruct (Z.leb_spec (top hs s) (top hs s + i)); [| lia].
      destruct (Z.ltb_spec (top hs s + i) (top hs s + size)); [| lia].
      cbn [andb]. f_equal. lia.
    + intros a Ha. unfold memcpy.
      by destruct (Z.leb_spec (top hs s) a); [lia |].
  - intros Hover. unfold realloc, malloc. fold (top hs s).
    destruct (Z.eqb_spec ptr NULL) as [E | _]; [unfold NULL in E; lia |].
    destruct (Z.eqb_spec size 0) as [E | _]; [lia |].
    cbn [negb andb]. unfold overlap.
    destruct (Z.ltb_spec (top hs s) (ptr + size)); [| lia].
    by destruct (Z.ltb_spec ptr (top hs s + size)); [| lia].
Qed.

Lemma realloc_copies_or_overlaps_witness :
  let s := snd (malloc 0x20002000 5 (State NULL (fun a => a mod 256))) in
  (exists s',
     realloc 0x20002000 0x20002000 8 s = Some (top 0x20002000 s, s') /\
     (forall i, 0 <= i < 8 ->
                mem s' (top 0x20002000 s + i) = mem s (0x20002000 + i)) /\
     (forall a, a < top 0x20002000 s -> mem s' a = mem s a) /\
     top 0x20002000 s + 8 <= top 0x20002000 s' < 2 ^ 32) /\
  realloc 0x20002000 0x20002000 9 s = None.
Proof.
  split.
  - apply (proj1 (realloc_copies_or_overlaps
                    0x20002000 0x20002000 8
                    (snd (malloc 0x20002000 5 (State NULL (fun a => a mod 256))))
                    ltac:(vm_compute; split; reflexivity) ltac:(lia))).
    + vm_compute. discriminate.
    + vm_compute. reflexivity.
  - apply (proj2 (realloc_copies_or_overlaps
                    0x20002000 0x20002000 9
                    (snd (malloc 0x20002000 5 (State NULL (fun a => a mod 256))))
                    ltac:(vm_compute; split; reflexivity) ltac:(lia))).
    vm_compute. reflexivity.
Defined.

End LibFacts.

(** * The reset handler *)

Section StartupFacts.

Import Startup.

Lemma words_step (lo hi : Z) : lo < hi -> words lo hi = 1 + words (lo + 4) hi.
Proof.
  intros H. unfold words.
  destruct (Z.ltb_spec lo hi); [| lia].
  destruct (Z.ltb_spec (lo + 4) hi); Z.div_mod_to_equations; lia.
Qed.

Lemma words_done (lo hi : Z) : hi <= lo -> words lo hi = 0.
Proof. intros H. unfold words. by destruct (Z.ltb_spec lo hi); [lia |]. Qed.

Lemma words_nonneg (lo hi : Z) : 0 <= words lo hi.
Proof.
  unfold words. destruct (Z.ltb_spec lo hi); [| lia].
  Z.div_mod_to_equations. lia.
Qed.

(** The copy, when the words read are not among those written. *)
Lemma copy_data_spec (n : nat) :
  forall (fuel : nat) (p_src p_dest _edata : Z) (m : Z -> Z),
    Z.of_nat n = words p_dest _edata -> (n < fuel)%nat ->
    p_src + 4 * Z.of_nat n <= p_dest \/ p_dest + 4 * Z.of_nat n <= p_src ->
    exists m',
      copy_data fuel p_src p_dest _edata m = Some m' /\
      (forall i, 0 <= i < Z.of_nat n -> m' (p_dest + 4 * i) = m (p_src + 4 * i)) /\
      (forall a, ~ written p_dest _edata a -> m' a = m a).
Proof.
  induction n as [| n IH]; intros fuel p_src p_dest _edata m Hn Hf Hd;
    (destruct fuel as [| fuel]; [lia |]); cbn [copy_data].
  - assert (_edata <= p_dest).
    { unfold words in Hn. destruct (Z.ltb_spec p_dest _edata); [| lia].
      Z.div_mod_to_equations. lia. }
    destruct (Z.ltb_spec p_dest _edata); [lia |].
    exists m. split_and!; [done | intros; lia | done].
  - assert (p_dest < _edata).
    { destruct (Z_lt_le_dec p_dest _edata); [done |].
      rewrite words_done in Hn by done. lia. }
    destruct (Z.ltb_spec p_dest _edata); [| lia].
    rewrite words_step in Hn by done.
    destruct (IH fuel (p_src + 4) (p_dest + 4) _edata
                 (store p_dest (m p_src) m)) as (m' & Hr & Hc & Ho);
      [lia | lia | lia |].
    exists m'. split_and!; [done | |].
    + intros i Hi. destruct (Z.eq_dec i 0) as [-> | Hi0].
      * rewrite Ho.
        -- unfold store. rewrite Z.mul_0_r, !Z.add_0_r.
           by destruct (Z.eqb_spec p_dest p_dest).
        -- intros (j & Hj & Hj'). pose proof (words_nonneg (p_dest + 4) _edata). lia.
      * replace (p_dest + 4 * i) with (p_dest + 4 + 4 * (i - 1)) by lia.
        rewrite Hc by lia. unfold store.
        destruct (Z.eqb_spec (p_src + 4 + 4 * (i - 1)) p_dest); [lia |].
        f_equal. lia.
    + intros a Ha. rewrite Ho.
      * unfold store. destruct (Z.eqb_spec a p_dest) as [-> |]; [| done].
        exfalso. apply Ha. exists 0. rewrite words_step by done.
        pose proof (words_nonneg (p_dest + 4) _edata). lia.
      * intros (j & Hj & ->). apply Ha. exists (j + 1).
        rewrite words_step by done. lia.
Qed.

Lemma zero_bss_spec (n : nat) :
  forall (fuel : nat) (p_bss p_bss_end : Z) (m : Z -> Z),
    Z.of_nat n = words p_bss p_bss_end -> (n < fuel)%nat ->
    exists m',
      zero_bss fuel p_bss p_bss_end m = Some m' /\
      (forall i, 0 <= i < Z.of_nat n -> m' (p_bss + 4 * i) = 0) /\
      (forall a, ~ written p_bss p_bss_end a -> m' a = m a).
Proof.
  induction n as [| n IH]; intros fuel p_bss p_bss_end m Hn Hf;
    (destruct fuel as [| fuel]; [lia |]); cbn [zero_bss].
  - assert (p_bss_end <= p_bss).
    { unfold words in Hn. destruct (Z.ltb_spec p_bss p_bss_end); [| lia].
      Z.div_mod_to_equations. lia. }
    destruct (Z.ltb_spec p_bss p_bss_end); [lia |].
    exists m. split_and!; [done | intros; lia | done].
  - assert (p_bss < p_bss_end).
    { destruct (Z_lt_le_dec p_bss p_bss_end); [done |].
      rewrite words_done in Hn by done. lia. }
    destruct (Z.ltb_spec p_bss p_bss_end); [| lia].
    rewrite words_step in Hn by done.
    destruct (IH fuel (p_bss + 4) p_bss_end (store p_bss 0 m))
      as (m' & Hr & Hc & Ho); [lia | lia |].
    exists m'. split_and!; [done | |].
    + intros i Hi. destruct (Z.eq_dec i 0) as [-> | Hi0].
      * rewrite Ho.
        -- unfold store. rewrite Z.mul_0_r, !Z.add_0_r.
           by destruct (Z.eqb_spec p_bss p_bss).
        -- intros (j & Hj & Hj'). pose proof (words_nonneg (p_bss + 4) p_bss_end). lia.
      * replace (p_bss + 4 * i) with (p_bss + 4 + 4 * (i - 1)) by lia.
        apply Hc. lia.
    + intros a Ha. rewrite Ho.
      * unfold store. destruct (Z.eqb_spec a p_bss) as [-> |]; [| done].
        exfalso. apply Ha. exists 0. rewrite words_step by done.
        pose proof (words_nonneg (p_bss + 4) p_bss_end). lia.
      * intros (j & Hj & ->). apply Ha. exists (j + 1).
        rewrite words_step by done. lia.
Qed.

(** X23. [Reset_Handler], when the initial values are not stored among
    the words they are copied to and the zeroed words are apart from
    these: both loops end, every word of the data section, from [_sdata]
    on, holds the word at the same distance from [_sidata], every word
    from [_sbss] on is 0, and no other word has changed. The words are
    counted to the first address that is not below the end, so the last
    one reaches up to three bytes past an end that is not a multiple of 4
    away. *)
Theorem reset_handler_memory (fuel : nat)
    (_sidata _sdata _edata _sbss _ebss : Z) (m : Z -> Z) :
  let nd := words _sdata _edata in
  let nb := words _sbss _ebss in
  _sidata + 4 * nd <= _sdata \/ _sdata + 4 * nd <= _sidata ->
  _sbss + 4 * nb <= _sdata \/ _sdata + 4 * nd <= _sbss ->
  (Z.to_nat nd < fuel)%nat -> (Z.to_nat nb < fuel)%nat ->
  exists m',
    Reset_Handler fuel _sidata _sdata _edata _sbss _ebss m = Some m' /\
    (forall i, 0 <= i < nd -> m' (_sdata + 4 * i) = m (_sidata + 4 * i)) /\
    (forall j, 0 <= j < nb -> m' (_sbss + 4 * j) = 0) /\
    (forall a, ~ written _sdata _edata a -> ~ written _sbss _ebss a -> m' a = m a) /\
    (_sdata < _edata -> _edata <= _sdata + 4 * nd < _edata + 4).
Proof.
  intros nd nb Hsrc Hbss Hfd Hfb.
  pose proof (words_nonneg _sdata _edata) as Hnd.
  pose proof (words_nonneg _sbss _ebss) as Hnb.
  destruct (copy_data_spec (Z.to_nat nd) fuel _sidata _sdata _edata m)
    as (m1 & Hr1 & Hc1 & Ho1); [subst nd; lia | done | subst nd; lia |].
  destruct (zero_bss_spec (Z.to_nat nb) fuel _sbss _ebss m1)
    as (m2 & Hr2 & Hc2 & Ho2); [subst nb; lia | done |].
  exists m2. unfold Reset_Handler. rewrite Hr1, Hr2. split_and!.
  - done.
  - intros i Hi. rewrite Ho2.
    + apply Hc1. subst nd. lia.
    + intros (j & Hj & Hj'). subst nd nb. lia.
  - intros j Hj. apply Hc2. subst nb. lia.
  - intros a Hd Hb. by rewrite Ho2, Ho1.
  - intros Hlt. subst nd. unfold words.
    destruct (Z.ltb_spec _sdata _edata); [| lia].
    Z.div_mod_to_equations. lia.
Qed.

Lemma reset_handler_memory_witness :
  exists m',
    Reset_Handler 4 0x1000 0x20000000 0x2000000A 0x2000000C 0x20000014
                  (fun a => a)
    = Some m' /\
    (forall i, 0 <= i < words 0x20000000 0x2000000A ->
               m' (0x20000000 + 4 * i) = (fun a => a) (0x1000 + 4 * i)) /\
    (forall j, 0 <= j < words 0x2000000C 0x20000014 -> m' (0x2000000C + 4 * j) = 0) /\
    (forall a, ~ written 0x20000000 0x2000000A a ->
               ~ written 0x2000000C 0x20000014 a -> m' a = (fun a => a) a) /\
    (0x20000000 < 0x2000000A ->
     0x2000000A <= 0x20000000 + 4 * words 0x20000000 0x2000000A < 0x2000000A + 4).
Proof.
  apply (reset_handler_memory 4 0x1000 0x20000000 0x2000000A 0x2000000C 0x20000014
                              (fun a => a)).
  - left. change (words 0x20000000 0x2000000A) with 3. lia.
  - right. change (words 0x20000000 0x2000000A) with 3. lia.
  - vm_compute. lia.
  - vm_compute. lia.
Defined.

End StartupFacts.
